(** * Eden inode graph: materialization, removal, checkout and dispatch

    A shallow embedding of [eden/fs/inodes/TreeInode.cpp] and
    [eden/fs/inodes/EdenDispatcher.cpp].

    The mount is an explicit state ([Mount]): the table of loaded inode
    objects, the overlay, the object store, the journal and the kernel cache
    invalidations.  Operations are computations in a state-and-exception
    monad; a C++ exception leaves the mutations done so far in place.
    Futures are run to completion in program order. *)

From Stdlib Require Import ZArith String Ascii List Bool Lia Sorted.
From stdpp Require Import base option gmap strings list fin_maps.
Import ListNotations.

Local Open Scope string_scope.
Local Open Scope list_scope.
Local Open Scope Z_scope.

(** ** Scalars *)

Abbreviation InodeNumber := Z (only parsing).
Abbreviation Hash := Z (only parsing).
Abbreviation PathComponent := string (only parsing).
Abbreviation mode_t := Z (only parsing).

Definition UINT64_MAX : Z := 2 ^ 64 - 1.
Definition wrap64 (z : Z) : Z := z mod 2 ^ 64.

(** The FUSE root inode number. *)
Definition kRootNodeId : InodeNumber := 1.
(** The name of the reserved directory. *)
Definition kDotEdenName : PathComponent := ".eden".

(** errno values (Linux). *)
Definition EPERM : Z := 1.
Definition ENOENT : Z := 2.
Definition EIO : Z := 5.
Definition EBADF : Z := 9.
Definition EEXIST : Z := 17.
Definition ENOTDIR : Z := 20.
Definition EISDIR : Z := 21.
Definition EINVAL : Z := 22.
Definition ENOTEMPTY : Z := 39.

(** File type bits of [mode_t]. *)
Definition S_IFMT : mode_t := 61440.   (* 0170000 *)
Definition S_IFSOCK : mode_t := 49152. (* 0140000 *)
Definition S_IFLNK : mode_t := 40960.  (* 0120000 *)
Definition S_IFREG : mode_t := 32768.  (* 0100000 *)
Definition S_IFDIR : mode_t := 16384.  (* 0040000 *)

Definition S_ISDIR (m : mode_t) : bool := Z.land m S_IFMT =? S_IFDIR.
Definition S_ISSOCK (m : mode_t) : bool := Z.land m S_IFMT =? S_IFSOCK.

Record timespec := mkTimespec { tv_sec : Z; tv_nsec : Z }.

Record InodeTimestamps := mkTimestamps {
  atime : timespec;
  ctime : timespec;
  mtime : timespec
}.

Definition setAll (t : timespec) : InodeTimestamps :=
  {| atime := t; ctime := t; mtime := t |}.

Definition zeroTime : timespec := {| tv_sec := 0; tv_nsec := 0 |}.

(** ** Source control model: [Tree] and [TreeEntry] *)

Inductive TreeEntryType := TREE | REGULAR_FILE | EXECUTABLE_FILE | SYMLINK.

Record TreeEntry := mkTreeEntry {
  te_hash : Hash;
  te_name : PathComponent;
  te_type : TreeEntryType
}.

Record Tree := mkTree {
  tree_hash : Hash;
  tree_entries : list TreeEntry
}.

Definition TreeEntryType_eqb (a b : TreeEntryType) : bool :=
  match a, b with
  | TREE, TREE | REGULAR_FILE, REGULAR_FILE
  | EXECUTABLE_FILE, EXECUTABLE_FILE | SYMLINK, SYMLINK => true
  | _, _ => false
  end.

(** Modelled from the spec: [modeFromTreeEntryType] is declared outside the
    sources at hand; a tree entry is one of file, exec, symlink, tree and an
    [Entry] carries "file type + permissions". *)
Definition modeFromTreeEntryType (t : TreeEntryType) : mode_t :=
  match t with
  | TREE => Z.lor S_IFDIR 493            (* 0755 *)
  | REGULAR_FILE => Z.lor S_IFREG 420    (* 0644 *)
  | EXECUTABLE_FILE => Z.lor S_IFREG 493 (* 0755 *)
  | SYMLINK => Z.lor S_IFLNK 493         (* 0755 *)
  end.

(** ** Directory entries

    Modelled from the spec: [TreeInode::Entry] and [TreeInode::Dir] are
    declared in a header outside the sources at hand.  An entry has a mode, an
    optional source control hash (absent = materialized), an optional inode
    number and an optional pointer to the loaded inode object.  Inode objects
    are unique per inode number, so the pointer is the number of the object. *)

Record Entry := mkEntry {
  mode_ : mode_t;
  hash_ : option Hash;
  inodeNumber_ : option InodeNumber;
  inode_ : option InodeNumber
}.

(** [Entry(mode, hash)] *)
Definition EntryOfHash (m : mode_t) (h : Hash) : Entry :=
  {| mode_ := m; hash_ := Some h; inodeNumber_ := None; inode_ := None |}.
(** [Entry(mode, inodeNumber)] *)
Definition EntryOfNumber (m : mode_t) (n : InodeNumber) : Entry :=
  {| mode_ := m; hash_ := None; inodeNumber_ := Some n; inode_ := None |}.

Module Entry.
Definition isMaterialized (e : Entry) : bool :=
  match hash_ e with Some _ => false | None => true end.
Definition isDirectory (e : Entry) : bool := S_ISDIR (mode_ e).
Definition hasInodeNumber (e : Entry) : bool :=
  match inodeNumber_ e with Some _ => true | None => false end.
Definition getInode (e : Entry) : option InodeNumber := inode_ e.
Definition setInodeNumber (n : InodeNumber) (e : Entry) : Entry :=
  {| mode_ := mode_ e; hash_ := hash_ e;
     inodeNumber_ := Some n; inode_ := inode_ e |}.
Definition setInode (p : InodeNumber) (e : Entry) : Entry :=
  {| mode_ := mode_ e; hash_ := hash_ e;
     inodeNumber_ := inodeNumber_ e; inode_ := Some p |}.
Definition clearInode (e : Entry) : Entry :=
  {| mode_ := mode_ e; hash_ := hash_ e;
     inodeNumber_ := inodeNumber_ e; inode_ := None |}.
Definition setMaterialized (n : InodeNumber) (e : Entry) : Entry :=
  {| mode_ := mode_ e; hash_ := None;
     inodeNumber_ := Some n; inode_ := inode_ e |}.
Definition setDematerialized (h : Hash) (e : Entry) : Entry :=
  {| mode_ := mode_ e; hash_ := Some h;
     inodeNumber_ := inodeNumber_ e; inode_ := inode_ e |}.
End Entry.

(** ** [PathMap]: a vector of (name, value) kept sorted by name *)

Module PathMap.
Section Ops.
Context {V : Type}.
Definition t := list (PathComponent * V).

Fixpoint find (name : PathComponent) (m : t) : option V :=
  match m with
  | [] => None
  | (k, v) :: rest => if String.eqb k name then Some v else find name rest
  end.

(** Insert before the first key that is greater. *)
Fixpoint insertSorted (name : PathComponent) (v : V) (m : t) : t :=
  match m with
  | [] => [(name, v)]
  | (k, w) :: rest =>
      if String.ltb name k then (name, v) :: m
      else (k, w) :: insertSorted name v rest
  end.

(** [emplace]: insert at the sorted position unless the name is taken;
    the boolean tells whether the insertion happened. *)
Definition emplace (name : PathComponent) (v : V) (m : t) : t * bool :=
  match find name m with
  | Some _ => (m, false)
  | None => (insertSorted name v m, true)
  end.

Fixpoint erase (name : PathComponent) (m : t) : t :=
  match m with
  | [] => []
  | (k, w) :: rest =>
      if String.eqb k name then rest else (k, w) :: erase name rest
  end.

(** Assignment through an iterator obtained by [find]. *)
Fixpoint assign (name : PathComponent) (v : V) (m : t) : t :=
  match m with
  | [] => []
  | (k, w) :: rest =>
      if String.eqb k name then (k, v) :: rest
      else (k, w) :: assign name v rest
  end.

Definition size (m : t) : nat := length m.
Definition empty (m : t) : bool :=
  match m with [] => true | _ => false end.
Definition keys (m : t) : list PathComponent := map fst m.
End Ops.
Arguments t : clear implicits.
End PathMap.

Record Dir := mkDir {
  entries : PathMap.t Entry;
  timeStamps : InodeTimestamps;
  treeHash : option Hash
}.

Module Dir.
Definition isMaterialized (d : Dir) : bool :=
  match treeHash d with Some _ => false | None => true end.
Definition setMaterialized (d : Dir) : Dir :=
  {| entries := entries d; timeStamps := timeStamps d; treeHash := None |}.
Definition setEntries (es : PathMap.t Entry) (d : Dir) : Dir :=
  {| entries := es; timeStamps := timeStamps d; treeHash := treeHash d |}.
Definition setTreeHash (h : option Hash) (d : Dir) : Dir :=
  {| entries := entries d; timeStamps := timeStamps d; treeHash := h |}.
Definition setChangeTimes (now : timespec) (d : Dir) : Dir :=
  {| entries := entries d;
     timeStamps := {| atime := atime (timeStamps d);
                      ctime := now; mtime := now |};
     treeHash := treeHash d |}.
Definition emptyDir : Dir :=
  {| entries := []; timeStamps := setAll zeroTime; treeHash := None |}.
End Dir.

(** [TreeInode::buildDirFromTree] *)
Definition buildDirFromTree (tree : option Tree) (lastCheckoutTime : timespec)
  : Dir :=
  match tree with
  | None => Dir.emptyDir
  | Some t =>
      {| entries :=
           fold_left
             (fun es te =>
                fst (PathMap.emplace (te_name te)
                       (EntryOfHash (modeFromTreeEntryType (te_type te))
                          (te_hash te)) es))
             (tree_entries t) [];
         timeStamps := setAll lastCheckoutTime;
         treeHash := Some (tree_hash t) |}
  end.

(** ** Attributes *)

Record stat := mkStat {
  st_ino : Z;
  st_mode : mode_t;
  st_nlink : Z;
  st_uid : Z;
  st_gid : Z;
  st_atim : timespec;
  st_ctim : timespec;
  st_mtim : timespec
}.

Record Attr := mkAttr { st : stat; attr_timeout : Z }.

(** [TreeInode::getAttrLocked]; [initStatData] is the mount's template. *)
Definition getAttrLocked (initStatData : Attr) (nodeId : InodeNumber)
    (contents : Dir) : Attr :=
  {| st :=
       {| st_ino := nodeId;
          st_mode := Z.lor S_IFDIR 493;
          st_nlink := wrap64 (Z.of_nat (PathMap.size (entries contents)) + 2);
          st_uid := st_uid (st initStatData);
          st_gid := st_gid (st initStatData);
          st_atim := atime (timeStamps contents);
          st_ctim := ctime (timeStamps contents);
          st_mtim := mtime (timeStamps contents) |};
     attr_timeout := attr_timeout initStatData |}.

(** ** Exceptions and outcomes *)

Inductive ErrorCategory := system_category | generic_category.

Inductive Exception :=
  | system_error (cat : ErrorCategory) (code : Z)
  | runtime_error (what : string).

(** Modelled from the spec: [InodeError] is declared outside the sources at
    hand; it is a [std::system_error] carrying an errno, and the errors named
    [NotFound], [IOError], ... by the spec are the ones the dispatch adapter
    recognises, i.e. errno values in the system category. *)
Definition InodeError (errnum : Z) : Exception :=
  system_error system_category errnum.

(** [EDEN_BUG() << msg]: logs and throws. *)
Definition EDEN_BUG (msg : string) : Exception := runtime_error msg.

Inductive StuckReason :=
  | OutOfBudget      (* the recursion budget of the model ran out *)
  | DanglingPointer. (* an inode pointer that names no live object *)

Inductive Outcome (A : Type) :=
  | Ok (a : A)
  | Throw (e : Exception)
  | Stuck (why : StuckReason).
Arguments Ok {A} a.
Arguments Throw {A} e.
Arguments Stuck {A} why.

(** ** The mount *)

Record Location := mkLocation {
  parent : option InodeNumber;
  name : PathComponent;
  unlinked : bool
}.

Inductive InodeObject :=
  | TreeInode (location : Location) (contents : Dir)
  | FileInode (location : Location) (fileMode : mode_t).

Definition locationOf (o : InodeObject) : Location :=
  match o with
  | TreeInode l _ => l
  | FileInode l _ => l
  end.

Inductive OverlayData :=
  | OverlayDir (d : Dir)
  | OverlayFile (data : string).

Inductive JournalDelta :=
  | CREATED (path : list PathComponent)
  | REMOVED (path : list PathComponent)
  | RENAME (src dst : list PathComponent).

Inductive ConflictType :=
  | ERROR | MODIFIED_REMOVED | UNTRACKED_ADDED | REMOVED_MODIFIED
  | MISSING_REMOVED | MODIFIED_MODIFIED | DIRECTORY_NOT_EMPTY.

(** A conflict recorded in the checkout context: type, directory, name. *)
Record Conflict := mkConflict {
  conflictType : ConflictType;
  conflictDir : InodeNumber;
  conflictName : option PathComponent
}.

(** Calls worth observing, in program order (a ghost log). *)
Inductive Event :=
  | EvSaveOverlayDir (ino : InodeNumber)
  | EvRemoveOverlayData (ino : InodeNumber)
  | EvCreateOverlayFile (ino : InodeNumber)
  | EvChildMaterialized (this : InodeNumber) (childName : PathComponent)
      (childNodeId : InodeNumber)
  | EvChildDematerialized (this : InodeNumber) (childName : PathComponent)
      (childScmHash : Hash)
  | EvRemoveAttempt (this : InodeNumber) (childName : PathComponent)
      (attemptNum : Z) (errnoValue : Z)
  | EvReloadChild (this : InodeNumber) (childName : PathComponent)
      (attemptNum : Z).

(** What a mount is configured with and never changes. *)
Record MountConfig := mkMountConfig {
  objectStore : gmap Z Tree;          (* immutable trees by hash *)
  dotEdenInodeNumber : InodeNumber;
  lastCheckoutTime : timespec;
  initStatData : Attr;
  hasFuseChannel : bool;
  isFuseRequest : bool;               (* RequestData::isFuseRequest() *)
  clock : nat -> timespec             (* successive readings of the clock *)
}.

Record Mount := mkMount {
  config : MountConfig;
  inodes : gmap Z InodeObject;        (* loaded inode objects (InodeMap) *)
  overlay : gmap Z OverlayData;       (* the overlay store, by inode number *)
  nextInodeNumber : InodeNumber;      (* InodeMap allocation counter *)
  journal : list JournalDelta;
  fuseInvalidations : list (InodeNumber * PathComponent);
  fuseRefcount : gmap Z Z;
  clockReads : nat;
  conflicts : list Conflict;          (* of the running checkout context *)
  events : list Event;                (* ghost: oldest first *)
  (* ghost: every state the inode table and the overlay went through, newest
     first: one snapshot per mutation of either *)
  history : list (gmap Z InodeObject * gmap Z OverlayData)
}.

Definition M (A : Type) : Type := Mount -> Outcome A * Mount.

Definition ret {A} (a : A) : M A := fun st => (Ok a, st).
Definition bind {A B} (c : M A) (k : A -> M B) : M B :=
  fun st =>
    match c st with
    | (Ok a, st') => k a st'
    | (Throw e, st') => (Throw e, st')
    | (Stuck w, st') => (Stuck w, st')
    end.
Definition throw {A} (e : Exception) : M A := fun st => (Throw e, st).
Definition stuck {A} (w : StuckReason) : M A := fun st => (Stuck w, st).
Definition gets {A} (f : Mount -> A) : M A := fun st => (Ok (f st), st).
Definition modify (f : Mount -> Mount) : M unit := fun st => (Ok tt, f st).

Notation "'let!' x ':=' c 'in' k" := (bind c (fun x => k))
  (at level 10, x name, c at level 100, k at level 200).
Notation "c1 ;;; c2" := (bind c1 (fun _ => c2))
  (at level 100, c2 at level 200, right associativity).

(** Setters. *)
Definition withInodes (f : gmap Z InodeObject) (st : Mount) : Mount :=
  {| config := config st; inodes := f; overlay := overlay st;
     nextInodeNumber := nextInodeNumber st; journal := journal st;
     fuseInvalidations := fuseInvalidations st;
     fuseRefcount := fuseRefcount st; clockReads := clockReads st;
     conflicts := conflicts st; events := events st;
     history := (f, overlay st) :: history st |}.

Definition withOverlay (o : gmap Z OverlayData) (st : Mount) : Mount :=
  {| config := config st; inodes := inodes st; overlay := o;
     nextInodeNumber := nextInodeNumber st; journal := journal st;
     fuseInvalidations := fuseInvalidations st;
     fuseRefcount := fuseRefcount st; clockReads := clockReads st;
     conflicts := conflicts st; events := events st;
     history := (inodes st, o) :: history st |}.

Definition withNextInodeNumber (n : InodeNumber) (st : Mount) : Mount :=
  {| config := config st; inodes := inodes st; overlay := overlay st;
     nextInodeNumber := n; journal := journal st;
     fuseInvalidations := fuseInvalidations st;
     fuseRefcount := fuseRefcount st; clockReads := clockReads st;
     conflicts := conflicts st; events := events st;
     history := history st |}.

Definition withJournal (j : list JournalDelta) (st : Mount) : Mount :=
  {| config := config st; inodes := inodes st; overlay := overlay st;
     nextInodeNumber := nextInodeNumber st; journal := j;
     fuseInvalidations := fuseInvalidations st;
     fuseRefcount := fuseRefcount st; clockReads := clockReads st;
     conflicts := conflicts st; events := events st;
     history := history st |}.

Definition withFuseInvalidations (l : list (InodeNumber * PathComponent))
    (st : Mount) : Mount :=
  {| config := config st; inodes := inodes st; overlay := overlay st;
     nextInodeNumber := nextInodeNumber st; journal := journal st;
     fuseInvalidations := l;
     fuseRefcount := fuseRefcount st; clockReads := clockReads st;
     conflicts := conflicts st; events := events st;
     history := history st |}.

Definition withFuseRefcount (rc : gmap Z Z) (st : Mount) : Mount :=
  {| config := config st; inodes := inodes st; overlay := overlay st;
     nextInodeNumber := nextInodeNumber st; journal := journal st;
     fuseInvalidations := fuseInvalidations st;
     fuseRefcount := rc; clockReads := clockReads st;
     conflicts := conflicts st; events := events st;
     history := history st |}.

Definition withClockReads (n : nat) (st : Mount) : Mount :=
  {| config := config st; inodes := inodes st; overlay := overlay st;
     nextInodeNumber := nextInodeNumber st; journal := journal st;
     fuseInvalidations := fuseInvalidations st;
     fuseRefcount := fuseRefcount st; clockReads := n;
     conflicts := conflicts st; events := events st;
     history := history st |}.

Definition withConflicts (c : list Conflict) (st : Mount) : Mount :=
  {| config := config st; inodes := inodes st; overlay := overlay st;
     nextInodeNumber := nextInodeNumber st; journal := journal st;
     fuseInvalidations := fuseInvalidations st;
     fuseRefcount := fuseRefcount st; clockReads := clockReads st;
     conflicts := c; events := events st;
     history := history st |}.

Definition withEvents (ev : list Event) (st : Mount) : Mount :=
  {| config := config st; inodes := inodes st; overlay := overlay st;
     nextInodeNumber := nextInodeNumber st; journal := journal st;
     fuseInvalidations := fuseInvalidations st;
     fuseRefcount := fuseRefcount st; clockReads := clockReads st;
     conflicts := conflicts st; events := ev;
     history := history st |}.

(** *** Primitive operations of the collaborators

    Modelled from the spec: the inode map, the overlay, the journal, the
    clock, the checkout context and the kernel channel are interfaces only
    (sections 4.1, 4.7 and 6). *)

Definition logEvent (e : Event) : M unit :=
  modify (fun st => withEvents (events st ++ [e]) st).

(** [InodeMap::allocateInodeNumber] *)
Definition allocateInodeNumber : M InodeNumber :=
  fun st =>
    (Ok (nextInodeNumber st), withNextInodeNumber (nextInodeNumber st + 1) st).

(** [getNow()] *)
Definition getNow : M timespec :=
  fun st =>
    (Ok (clock (config st) (clockReads st)),
     withClockReads (S (clockReads st)) st).

(** [Journal::addDelta] *)
Definition addDelta (d : JournalDelta) : M unit :=
  modify (fun st => withJournal (journal st ++ [d]) st).

(** [InodeBase::incFuseRefcount] *)
Definition incFuseRefcount (ino : InodeNumber) : M unit :=
  modify (fun st =>
    withFuseRefcount
      (<[ino := default 0 (fuseRefcount st !! ino) + 1]> (fuseRefcount st))
      st).

(** [CheckoutContext::addConflict] *)
Definition addConflict (t : ConflictType) (dir : InodeNumber)
    (nm : option PathComponent) : M unit :=
  modify (fun st =>
    withConflicts
      (conflicts st ++
       [{| conflictType := t; conflictDir := dir; conflictName := nm |}])
      st).

(** [TreeInode::invalidateFuseCache] *)
Definition invalidateFuseCache (this : InodeNumber) (nm : PathComponent)
  : M unit :=
  modify (fun st =>
    if hasFuseChannel (config st) then
      withFuseInvalidations (fuseInvalidations st ++ [(this, nm)]) st
    else st).

(** [TreeInode::invalidateFuseCacheIfRequired] *)
Definition invalidateFuseCacheIfRequired (this : InodeNumber)
    (nm : PathComponent) : M unit :=
  let! isFuse := gets (fun st => isFuseRequest (config st)) in
  if isFuse then ret tt else invalidateFuseCache this nm.

(** What the overlay keeps of a [Dir]: the entries without the pointers to
    loaded inode objects. *)
Definition persist (d : Dir) : Dir :=
  {| entries := map (fun kv => (fst kv, Entry.clearInode (snd kv))) (entries d);
     timeStamps := timeStamps d;
     treeHash := treeHash d |}.

(** [Overlay::saveOverlayDir] *)
Definition saveOverlayDir (ino : InodeNumber) (d : Dir) : M unit :=
  logEvent (EvSaveOverlayDir ino) ;;;
  modify (fun st =>
    withOverlay (<[ino := OverlayDir (persist d)]> (overlay st)) st).

(** [Overlay::loadOverlayDir] *)
Definition loadOverlayDir (ino : InodeNumber) : M (option Dir) :=
  gets (fun st =>
    match overlay st !! ino with
    | Some (OverlayDir d) => Some d
    | _ => None
    end).

(** [Overlay::createOverlayFile] *)
Definition createOverlayFile (ino : InodeNumber) : M unit :=
  logEvent (EvCreateOverlayFile ino) ;;;
  modify (fun st => withOverlay (<[ino := OverlayFile ""]> (overlay st)) st).

(** [Overlay::removeOverlayData] *)
Definition removeOverlayData (ino : InodeNumber) : M unit :=
  logEvent (EvRemoveOverlayData ino) ;;;
  modify (fun st => withOverlay (delete ino (overlay st)) st).

(** [ObjectStore::getTree]: a fetch failure is an exception. *)
Definition getTree (h : Hash) : M Tree :=
  fun st =>
    match objectStore (config st) !! h with
    | Some t => (Ok t, st)
    | None => (Throw (runtime_error "getTree: object not found"), st)
    end.

(** *** Access to inode objects through pointers *)

Definition getObject (ino : InodeNumber) : M InodeObject :=
  fun st =>
    match inodes st !! ino with
    | Some o => (Ok o, st)
    | None => (Stuck DanglingPointer, st)
    end.

(** Dereference a [TreeInodePtr]: location and contents. *)
Definition getTreeInode (ino : InodeNumber) : M (Location * Dir) :=
  let! o := getObject ino in
  match o with
  | TreeInode l d => ret (l, d)
  | FileInode _ _ => stuck DanglingPointer
  end.

Definition getContents (ino : InodeNumber) : M Dir :=
  let! ld := getTreeInode ino in ret (snd ld).

(** [InodeBase::getLocationInfo] *)
Definition getLocationInfo (ino : InodeNumber) : M Location :=
  let! o := getObject ino in ret (locationOf o).

(** Store the contents of a [TreeInode] back (the end of a write-locked
    section). *)
Definition putContents (ino : InodeNumber) (d : Dir) : M unit :=
  let! ld := getTreeInode ino in
  modify (fun st => withInodes (<[ino := TreeInode (fst ld) d]> (inodes st)) st).

(** Register an inode object under its number ([InodeMap::inodeCreated],
    [InodeMap::inodeLoadComplete]) or replace it. *)
Definition putObject (ino : InodeNumber) (o : InodeObject) : M unit :=
  modify (fun st => withInodes (<[ino := o]> (inodes st)) st).

(** Modelled from the spec: [InodeBase::markUnlinked] is outside the sources
    at hand.  "The inode object survives as long as any reference holds it,
    but is flagged unlinked"; reference counts are not modelled, so the object
    is kept in the table, as it is in the source while the caller holds a
    pointer to it; its destruction, once unreferenced, is not modelled. *)
Definition markUnlinked (ino : InodeNumber) : M unit :=
  let! o := getObject ino in
  let l := locationOf o in
  let l' := {| parent := parent l; name := name l; unlinked := true |} in
  putObject ino
    match o with
    | TreeInode _ d => TreeInode l' d
    | FileInode _ m => FileInode l' m
    end.

(** The budget for a walk up the parent chain: the chain visits distinct
    loaded inodes. *)
Definition chainBudget : M nat := gets (fun st => S (size (inodes st))).

(** Modelled from the spec: [InodeBase::getPath] is outside the sources at
    hand.  The path from the root; absent when the inode or one of its
    ancestors is unlinked. *)
Fixpoint getPathFrom (budget : nat) (tbl : gmap Z InodeObject)
    (ino : InodeNumber) : Outcome (option (list PathComponent)) :=
  match budget with
  | O => Stuck OutOfBudget
  | S b =>
      match tbl !! ino with
      | None => Stuck DanglingPointer
      | Some o =>
          let l := locationOf o in
          match parent l with
          | None => Ok (Some [])
          | Some p =>
              if unlinked l then Ok None
              else match getPathFrom b tbl p with
                   | Ok (Some path) => Ok (Some (path ++ [name l]))
                   | other => other
                   end
          end
      end
  end.

Definition getPath (ino : InodeNumber) : M (option (list PathComponent)) :=
  fun st => (getPathFrom (S (size (inodes st))) (inodes st) ino, st).

(** ** [TreeInode]: materialization *)

(** [TreeInode::childMaterialized].  [budget] bounds the recursion up the
    parent chain. *)
Fixpoint childMaterialized (budget : nat) (this : InodeNumber)
    (childName : PathComponent) (childNodeId : InodeNumber) : M unit :=
  match budget with
  | O => stuck OutOfBudget
  | S budget' =>
      logEvent (EvChildMaterialized this childName childNodeId) ;;;
      let! contents := getContents this in
      match PathMap.find childName (entries contents) with
      | None =>
          throw (EDEN_BUG "error attempting to materialize: entry not present")
      | Some childEntry =>
          if Dir.isMaterialized contents && Entry.isMaterialized childEntry
          then ret tt (* Nothing to do *)
          else
            let contents' :=
              Dir.setMaterialized
                (Dir.setEntries
                   (PathMap.assign childName
                      (Entry.setMaterialized childNodeId childEntry)
                      (entries contents))
                   contents) in
            putContents this contents' ;;;
            saveOverlayDir this contents' ;;;
            (* ask our parent to materialize itself and mark us *)
            let! location := getLocationInfo this in
            match parent location with
            | Some p =>
                if negb (unlinked location)
                then childMaterialized budget' p (name location) this
                else ret tt
            | None => ret tt
            end
      end
  end.

(** The tail shared by [materialize], [childDematerialized] and
    [saveOverlayPostCheckout]: tell the parent, if there is one and we are
    not unlinked, that we are materialized. *)
Definition notifyParentMaterialized (this : InodeNumber) : M unit :=
  let! loc := getLocationInfo this in
  match parent loc with
  | Some p =>
      if negb (unlinked loc)
      then let! budget := chainBudget in
           childMaterialized budget p (name loc) this
      else ret tt
  | None => ret tt
  end.

(** [TreeInode::materialize]; [renameLock] tells whether the caller passed
    the rename lock. *)
Definition materialize (this : InodeNumber) (renameLock : bool) : M unit :=
  let! contents := getContents this in
  if negb renameLock && Dir.isMaterialized contents then ret tt
  else
    let! contents := getContents this in
    (* Double check that we still need to be materialized *)
    if Dir.isMaterialized contents then ret tt
    else
      let contents' := Dir.setMaterialized contents in
      putContents this contents' ;;;
      saveOverlayDir this contents' ;;;
      notifyParentMaterialized this.

(** [TreeInode::childDematerialized] *)
Definition childDematerialized (this : InodeNumber)
    (childName : PathComponent) (childScmHash : Hash) : M unit :=
  logEvent (EvChildDematerialized this childName childScmHash) ;;;
  let! contents := getContents this in
  match PathMap.find childName (entries contents) with
  | None =>
      throw (EDEN_BUG "error attempting to dematerialize: entry not present")
  | Some childEntry =>
      if negb (Entry.isMaterialized childEntry)
         && bool_decide (hash_ childEntry = Some childScmHash)
      then ret tt (* Nothing to do *)
      else
        let contents' :=
          Dir.setMaterialized
            (Dir.setEntries
               (PathMap.assign childName
                  (Entry.setDematerialized childScmHash childEntry)
                  (entries contents))
               contents) in
        putContents this contents' ;;;
        saveOverlayDir this contents' ;;;
        notifyParentMaterialized this
  end.

(** ** [TreeInode]: loading children *)

(** The outcome of a load future: the constructed inode object, or the
    exception the future holds. *)
Definition LoadFuture : Type := InodeObject + Exception.

(** [TreeInode::startLoadingInode] with its [NoThrow] wrapper: every failure
    ends up in the returned future. *)
Definition startLoadingInodeNoThrow (this : InodeNumber) (entry : Entry)
    (nm : PathComponent) (number : InodeNumber) : M LoadFuture :=
  let loc := {| parent := Some this; name := nm; unlinked := false |} in
  if negb (Entry.isDirectory entry) then
    ret (inl (FileInode loc (mode_ entry)))
  else
    match hash_ entry with
    | Some h =>
        fun st =>
          match getTree h st with
          | (Ok tree, st') =>
              (Ok (inl (TreeInode loc
                          (buildDirFromTree (Some tree)
                             (lastCheckoutTime (config st'))))), st')
          | (Throw e, st') => (Ok (inr e), st')
          | (Stuck w, st') => (Stuck w, st')
          end
    | None =>
        let! overlayDir := loadOverlayDir number in
        match overlayDir with
        | None => ret (inr (EDEN_BUG "missing overlay"))
        | Some d => ret (inl (TreeInode loc d))
        end
    end.

Section Lookup.
(** [InodeMap::lookupInode], outside the sources at hand. *)
Variable lookupInode : InodeNumber -> M InodeNumber.

(** [TreeInode::getOrLoadChild].  No other load is in flight, so
    [InodeMap::shouldLoadChild] answers that the load must start, and the
    returned future is the one of the load started here. *)
Definition getOrLoadChild (this : InodeNumber) (nm : PathComponent)
  : M InodeNumber :=
  let! contents := getContents this in
  match PathMap.find nm (entries contents) with
  | None =>
      if String.eqb nm kDotEdenName && negb (this =? kRootNodeId) then
        let! dotEden := gets (fun st => dotEdenInodeNumber (config st)) in
        lookupInode dotEden
      else throw (InodeError ENOENT)
  | Some entry =>
      match Entry.getInode entry with
      | Some p => ret p (* already loaded *)
      | None =>
          let! numbered :=
            match inodeNumber_ entry with
            | Some n => ret (n, entry)
            | None =>
                let! n := allocateInodeNumber in
                let entry' := Entry.setInodeNumber n entry in
                putContents this
                  (Dir.setEntries
                     (PathMap.assign nm entry' (entries contents)) contents) ;;;
                ret (n, entry')
            end in
          let childNumber := fst numbered in
          let! loadFuture :=
            startLoadingInodeNoThrow this (snd numbered) nm childNumber in
          match loadFuture with
          | inl childInode =>
              (* entry.setInode(); InodeMap::inodeLoadComplete() *)
              let! contents := getContents this in
              putContents this
                (Dir.setEntries
                   (PathMap.assign nm
                      (Entry.setInode childNumber (snd numbered))
                      (entries contents)) contents) ;;;
              putObject childNumber childInode ;;;
              ret childNumber
          | inr e =>
              (* InodeMap::inodeLoadFailed(): the waiters get the error *)
              throw e
          end
      end
  end.

(** ** [TreeInode]: remove *)

Inductive InodeKind := FileKind | TreeKind.

(** Modelled from the spec: [WRONG_TYPE_ERRNO] is declared in the inode
    headers; "wrong type => NotDir / IsDir as appropriate". *)
Definition WRONG_TYPE_ERRNO (k : InodeKind) : Z :=
  match k with FileKind => EISDIR | TreeKind => ENOTDIR end.

Definition hasKind (k : InodeKind) (o : InodeObject) : bool :=
  match k, o with
  | FileKind, FileInode _ _ => true
  | TreeKind, TreeInode _ _ => true
  | _, _ => false
  end.

(** [TreeInode::checkPreRemove], both overloads. *)
Definition checkPreRemove (k : InodeKind) (child : InodeNumber) : M Z :=
  match k with
  | TreeKind =>
      let! childContents := getContents child in
      if negb (PathMap.empty (entries childContents)) then ret ENOTEMPTY
      else ret 0
  | FileKind => ret 0
  end.

(** [TreeInode::tryRemoveChild]: returns an errno value, 0 on success.
    The model ends the removal with the save of the listing and the flush
    of the kernel cache: [deletedInode.reset()], which lets go of the removed
    inode and may destroy it with its overlay data, belongs to the inode
    life cycle ([InodeBase], [InodeMap]) that is outside the sources at
    hand.  The removed object and its overlay data therefore stay in the
    tables of the model, as they do in the source for as long as a caller
    holds a pointer to the removed inode. *)
Definition tryRemoveChild (k : InodeKind) (this : InodeNumber)
    (nm : PathComponent) (child : option InodeNumber)
    (flushKernelCache : bool) : M Z :=
  materialize this true ;;;
  (* prevent unlinking files in the .eden directory *)
  let! dotEden := gets (fun st => dotEdenInodeNumber (config st)) in
  if this =? dotEden then ret EPERM
  else
    let! contents := getContents this in
    match PathMap.find nm (entries contents) with
    | None => ret ENOENT
    | Some ent =>
        match Entry.getInode ent with
        | None => ret EBADF (* not loaded: the caller must load and retry *)
        | Some p =>
            let! checked :=
              match child with
              | Some c =>
                  if negb (p =? c) then ret (inr EBADF) else ret (inl c)
              | None =>
                  let! o := getObject p in
                  if hasKind k o then ret (inl p)
                  else ret (inr (WRONG_TYPE_ERRNO k))
              end in
            match checked with
            | inr e => ret e
            | inl c =>
                let! checkError := checkPreRemove k c in
                if negb (checkError =? 0) then ret checkError
                else
                  (* Inform the child it is now unlinked *)
                  markUnlinked c ;;;
                  let! now := getNow in
                  let contents' :=
                    Dir.setChangeTimes now
                      (Dir.setEntries (PathMap.erase nm (entries contents))
                         contents) in
                  putContents this contents' ;;;
                  saveOverlayDir this contents' ;;;
                  (if flushKernelCache then invalidateFuseCache this nm
                   else ret tt) ;;;
                  ret 0
            end
        end
    end.

Definition kMaxRemoveRetries : Z := 3.

(** What other threads do to the inode table between the lookup of the child
    and the removal under the lock, per attempt. *)
Variable interference : Z -> gmap Z InodeObject -> gmap Z InodeObject.

(** [TreeInode::removeImpl].  [budget] bounds the recursion; [unlink] and
    [rmdir] pass one more than [kMaxRemoveRetries]. *)
Fixpoint removeImpl (budget : nat) (k : InodeKind) (this : InodeNumber)
    (nm : PathComponent) (childBasePtr : InodeNumber) (attemptNum : Z)
  : M unit :=
  match budget with
  | O => stuck OutOfBudget
  | S budget' =>
      (* Make sure the child is of the desired type *)
      let! o := getObject childBasePtr in
      if negb (hasKind k o) then throw (InodeError (WRONG_TYPE_ERRNO k))
      else
        let! checkResult := checkPreRemove k childBasePtr in
        if negb (checkResult =? 0) then throw (InodeError checkResult)
        else
          let! myPath := getPath this in
          match myPath with
          | None => throw (InodeError ENOENT)
          | Some myPath =>
              let targetName := myPath ++ [nm] in
              let! isFuse := gets (fun st => isFuseRequest (config st)) in
              let flushKernelCache := negb isFuse in
              modify (fun st =>
                        withInodes (interference attemptNum (inodes st)) st) ;;;
              let! errnoValue :=
                tryRemoveChild k this nm None flushKernelCache in
              logEvent (EvRemoveAttempt this nm attemptNum errnoValue) ;;;
              if errnoValue =? 0 then addDelta (REMOVED targetName)
              else if negb (errnoValue =? EBADF) then
                throw (InodeError errnoValue)
              else if attemptNum >? kMaxRemoveRetries then
                (* Give up after 3 retries *)
                throw (InodeError EIO)
              else
                logEvent (EvReloadChild this nm attemptNum) ;;;
                let! loadedChild := getOrLoadChild this nm in
                removeImpl budget' k this nm loadedChild (attemptNum + 1)
          end
  end.

Definition removeBudget : nat := S (Z.to_nat kMaxRemoveRetries).

(** [TreeInode::unlink] *)
Definition unlink (this : InodeNumber) (nm : PathComponent) : M unit :=
  let! child := getOrLoadChild this nm in
  removeImpl removeBudget FileKind this nm child 1.

(** [TreeInode::rmdir] *)
Definition rmdir (this : InodeNumber) (nm : PathComponent) : M unit :=
  let! child := getOrLoadChild this nm in
  removeImpl removeBudget TreeKind this nm child 1.
End Lookup.

(** ** [TreeInode]: create *)

Record CreateResult := mkCreateResult {
  cr_inode : InodeNumber;
  cr_attr : Attr
}.

Section Create.
(** [FileHandle::getattr], outside the sources at hand: a query. *)
Variable fileGetattr : Mount -> InodeNumber -> Outcome Attr.

Definition getattrOfFile (ino : InodeNumber) : M Attr :=
  fun st => (fileGetattr st ino, st).

(** [TreeInode::create] *)
Definition create (this : InodeNumber) (nm : PathComponent) (mode : mode_t)
  : M CreateResult :=
  materialize this false ;;;
  let! contents := getContents this in
  let! myPath := getPath this in
  match myPath with
  | None => throw (InodeError ENOENT)
  | Some myPath =>
      let targetName := myPath ++ [nm] in
      let! childNumber := allocateInodeNumber in
      let! currentTime := getNow in
      createOverlayFile childNumber ;;;
      (* Ensure that we mark this as a regular file. *)
      let mode := Z.lor S_IFREG (Z.land 4095 mode) in
      let insertion :=
        PathMap.emplace nm (EntryOfNumber mode childNumber)
          (entries contents) in
      if negb (snd insertion) then
        throw (EDEN_BUG "create() on path component that already exists")
      else
        (* FileInode::create; entry.setInode; InodeMap::inodeCreated *)
        putObject childNumber
          (FileInode {| parent := Some this; name := nm; unlinked := false |}
             mode) ;;;
        let! now := getNow in
        let contents' :=
          Dir.setChangeTimes now
            (Dir.setEntries
               (PathMap.assign nm
                  (Entry.setInode childNumber (EntryOfNumber mode childNumber))
                  (fst insertion))
               contents) in
        putContents this contents' ;;;
        saveOverlayDir this contents' ;;;
        invalidateFuseCacheIfRequired this nm ;;;
        addDelta (CREATED targetName) ;;;
        let! attr := getattrOfFile childNumber in
        ret {| cr_inode := childNumber; cr_attr := attr |}
  end.
End Create.

(** ** [TreeInode]: checkout *)

(** Modelled from the spec: the checkout context is declared outside the
    sources at hand; checkout has a dry-run mode, a normal mode and a force
    mode. *)
Inductive CheckoutMode := DRY_RUN | NORMAL | FORCE.

Definition isDryRun (ctx : CheckoutMode) : bool :=
  match ctx with DRY_RUN => true | _ => false end.
Definition forceUpdate (ctx : CheckoutMode) : bool :=
  match ctx with FORCE => true | _ => false end.

(** [TreeInode::canShortCircuitCheckout] *)
Definition canShortCircuitCheckout (ctx : CheckoutMode) (treeHash : Hash)
    (fromTree toTree : option Tree) : bool :=
  if isDryRun ctx then
    match fromTree with
    | Some f => treeHash =? tree_hash f
    | None =>
        match toTree with
        | None => true
        | Some t => treeHash =? tree_hash t
        end
    end
  else
    match toTree with
    | None => false
    | Some t =>
        if negb (treeHash =? tree_hash t) then false
        else
          match fromTree with
          | None => true
          | Some f => treeHash =? tree_hash f
          end
    end.

(** A [CheckoutAction]: the old and new source control entries and the local
    inode (loaded, or being loaded) to process. *)
Record CheckoutAction := mkCheckoutAction {
  ca_oldScmEntry : option TreeEntry;
  ca_newScmEntry : option TreeEntry;
  ca_inode : InodeNumber
}.


Record IncompleteInodeLoad := mkIncompleteInodeLoad {
  il_treeInode : InodeNumber;
  il_future : LoadFuture;
  il_name : PathComponent;
  il_number : InodeNumber
}.

(** [TreeInode::loadChildLocked]: the entry gets an inode number if it has
    none; the load is started and left pending. *)
Definition loadChildLocked (this : InodeNumber) (nm : PathComponent)
    (entry : Entry) : M (InodeNumber * IncompleteInodeLoad) :=
  let! numbered :=
    match inodeNumber_ entry with
    | Some n => ret (n, entry)
    | None =>
        let! n := allocateInodeNumber in
        let entry' := Entry.setInodeNumber n entry in
        let! contents := getContents this in
        putContents this
          (Dir.setEntries (PathMap.assign nm entry' (entries contents))
             contents) ;;;
        ret (n, entry')
    end in
  let! loadFuture :=
    startLoadingInodeNoThrow this (snd numbered) nm (fst numbered) in
  ret (fst numbered,
       {| il_treeInode := this; il_future := loadFuture; il_name := nm;
          il_number := fst numbered |}).

(** [Entry::getHash]: the value of an empty optional is an exception. *)
Definition getHash (e : Entry) : M Hash :=
  match hash_ e with
  | Some h => ret h
  | None => throw (runtime_error "OptionalEmptyException")
  end.

Definition sameScmEntry (o n : TreeEntry) : bool :=
  TreeEntryType_eqb (te_type o) (te_type n) && (te_hash o =? te_hash n).

Definition emplaceScmEntry (this : InodeNumber) (n : TreeEntry) : M unit :=
  let! contents := getContents this in
  putContents this
    (Dir.setEntries
       (fst (PathMap.emplace (te_name n)
               (EntryOfHash (modeFromTreeEntryType (te_type n)) (te_hash n))
               (entries contents)))
       contents) ;;;
  invalidateFuseCache this (te_name n).

(** [TreeInode::processCheckoutEntry]: the action to run, if any, and the
    load it started, if any. *)
Definition processCheckoutEntry (ctx : CheckoutMode) (this : InodeNumber)
    (oldScmEntry newScmEntry : option TreeEntry)
  : M (option CheckoutAction * list IncompleteInodeLoad) :=
  let identical :=
    match oldScmEntry, newScmEntry with
    | Some o, Some n => sameScmEntry o n
    | _, _ => false
    end in
  if negb (forceUpdate ctx) && identical then ret (None, [])
  else
    match (match oldScmEntry, newScmEntry with
           | Some o, _ => Some (te_name o)
           | None, Some n => Some (te_name n)
           | None, None => None
           end) with
    | None => stuck DanglingPointer
    | Some nm =>
        let! contents := getContents this in
        match PathMap.find nm (entries contents) with
        | None =>
            match oldScmEntry, newScmEntry with
            | None, Some n =>
                (if negb (isDryRun ctx) then emplaceScmEntry this n
                 else ret tt) ;;;
                ret (None, [])
            | Some o, None =>
                addConflict MISSING_REMOVED this (Some (te_name o)) ;;;
                ret (None, [])
            | Some o, Some n =>
                addConflict REMOVED_MODIFIED this (Some (te_name o)) ;;;
                (if forceUpdate ctx then emplaceScmEntry this n
                 else ret tt) ;;;
                ret (None, [])
            | None, None => stuck DanglingPointer
            end
        | Some entry =>
            let action child :=
              {| ca_oldScmEntry := oldScmEntry;
                 ca_newScmEntry := newScmEntry;
                 ca_inode := child |} in
            match Entry.getInode entry with
            | Some childPtr => ret (Some (action childPtr), [])
            | None =>
                if Entry.hasInodeNumber entry then
                  let! l := loadChildLocked this nm entry in
                  ret (Some (action (fst l)), [snd l])
                else
                  (* Check for conflicts *)
                  let! conflict :=
                    match oldScmEntry with
                    | None => ret UNTRACKED_ADDED
                    | Some o =>
                        let! h := getHash entry in
                        if negb (h =? te_hash o) then ret MODIFIED_MODIFIED
                        else ret ERROR
                    end in
                  let isConflict :=
                    match conflict with ERROR => false | _ => true end in
                  if isConflict && Entry.isDirectory entry then
                    let! l := loadChildLocked this nm entry in
                    ret (Some (action (fst l)), [snd l])
                  else
                    (if isConflict then addConflict conflict this (Some nm)
                     else ret tt) ;;;
                    if isConflict && negb (forceUpdate ctx) then ret (None, [])
                    else if isDryRun ctx then ret (None, [])
                    else
                      (* Update the entry *)
                      let! contents := getContents this in
                      putContents this
                        (Dir.setEntries
                           match newScmEntry with
                           | None => PathMap.erase nm (entries contents)
                           | Some n =>
                               PathMap.assign nm
                                 (EntryOfHash
                                    (modeFromTreeEntryType (te_type n))
                                    (te_hash n))
                                 (entries contents)
                           end
                           contents) ;;;
                      ret (None, [])
            end
        end
    end.

(** One step of the merge walk: process a pair and collect its results. *)
Definition checkoutStep (ctx : CheckoutMode) (this : InodeNumber)
    (o n : option TreeEntry)
    (rest : M (list CheckoutAction * list IncompleteInodeLoad))
  : M (list CheckoutAction * list IncompleteInodeLoad) :=
  let! r := processCheckoutEntry ctx this o n in
  let! rs := rest in
  ret (match fst r with Some a => a :: fst rs | None => fst rs end,
       snd r ++ snd rs).

(** The loop of [TreeInode::computeCheckoutActions] over the two sorted
    entry lists. *)
Fixpoint mergeWalk (ctx : CheckoutMode) (this : InodeNumber)
    (oldEntries : list TreeEntry)
  : list TreeEntry -> M (list CheckoutAction * list IncompleteInodeLoad) :=
  fix inner (newEntries : list TreeEntry) :=
    match oldEntries, newEntries with
    | [], [] => ret ([], [])
    | [], n :: news => checkoutStep ctx this None (Some n) (inner news)
    | o :: olds, [] =>
        checkoutStep ctx this (Some o) None (mergeWalk ctx this olds [])
    | o :: olds, n :: news =>
        if String.ltb (te_name o) (te_name n) then
          checkoutStep ctx this (Some o) None
            (mergeWalk ctx this olds newEntries)
        else if String.ltb (te_name n) (te_name o) then
          checkoutStep ctx this None (Some n) (inner news)
        else
          checkoutStep ctx this (Some o) (Some n)
            (mergeWalk ctx this olds news)
    end.

Definition treeEntriesOf (t : option Tree) : list TreeEntry :=
  match t with Some t => tree_entries t | None => [] end.

(** [TreeInode::computeCheckoutActions] *)
Definition computeCheckoutActions (ctx : CheckoutMode) (this : InodeNumber)
    (fromTree toTree : option Tree)
  : M (list CheckoutAction * list IncompleteInodeLoad) :=
  let! contents := getContents this in
  let shortCircuit :=
    match treeHash contents with
    | Some h => canShortCircuitCheckout ctx h fromTree toTree
    | None => false
    end in
  if shortCircuit then ret ([], [])
  else mergeWalk ctx this (treeEntriesOf fromTree) (treeEntriesOf toTree).

(** The lambda [tryToDematerialize] of [saveOverlayPostCheckout]. *)
Definition tryToDematerialize (contents : Dir) (tree : option Tree)
  : option Hash :=
  match tree with
  | None => None
  | Some t =>
      let scmEntries := tree_entries t in
      if negb (Nat.eqb (length scmEntries) (PathMap.size (entries contents)))
      then None
      else if forallb
                (fun p : (PathComponent * Entry) * TreeEntry =>
                   negb (Entry.isMaterialized (snd (fst p)))
                   && bool_decide (hash_ (snd (fst p)) = Some (te_hash (snd p))))
                (combine (entries contents) scmEntries)
      then Some (tree_hash t)
      else None
  end.

(** [TreeInode::checkoutTryRemoveEmptyDir] *)
Definition checkoutTryRemoveEmptyDir (this : InodeNumber) : M bool :=
  let! location := getLocationInfo this in
  match parent location with
  | None => ret false (* We can't ever remove the root directory. *)
  | Some p =>
      let! errnoValue :=
        tryRemoveChild TreeKind p (name location) (Some this) true in
      ret (errnoValue =? 0)
  end.

(** [TreeInode::saveOverlayPostCheckout] *)
Definition saveOverlayPostCheckout (ctx : CheckoutMode) (this : InodeNumber)
    (tree : option Tree) : M unit :=
  if isDryRun ctx then ret tt
  else
    let! contents := getContents this in
    let deleteSelf :=
      match tree with
      | None => PathMap.empty (entries contents)
      | Some _ => false
      end in
    let oldHash := treeHash contents in
    let contents' := Dir.setTreeHash (tryToDematerialize contents tree) contents in
    let isMaterialized := Dir.isMaterialized contents' in
    let stateChanged := negb (bool_decide (oldHash = treeHash contents')) in
    putContents this contents' ;;;
    (if isMaterialized then saveOverlayDir this contents' else ret tt) ;;;
    let! removed :=
      if deleteSelf then checkoutTryRemoveEmptyDir this else ret false in
    if removed then ret tt
    else if stateChanged then
      (* If our state changed, tell our parent. *)
      let! loc := getLocationInfo this in
      match parent loc with
      | Some p =>
          if negb (unlinked loc) then
            if isMaterialized then
              let! budget := chainBudget in
              childMaterialized budget p (name loc) this
            else
              match tree with
              | Some t => childDematerialized p (name loc) (tree_hash t)
              | None => stuck DanglingPointer
              end
          else ret tt
      | None => ret tt
      end ;;;
      (* remove our overlay data only after updating our parent *)
      if negb isMaterialized then removeOverlayData this else ret tt
    else ret tt.

(** ** The dispatch adapter ([EdenDispatcher]) *)

Record fuse_attr := mkFuseAttr {
  fa_ino : Z; fa_size : Z; fa_blocks : Z;
  fa_atime : Z; fa_mtime : Z; fa_ctime : Z;
  fa_atimensec : Z; fa_mtimensec : Z; fa_ctimensec : Z;
  fa_mode : Z; fa_nlink : Z; fa_uid : Z; fa_gid : Z;
  fa_rdev : Z; fa_blksize : Z
}.

Record fuse_attr_out := mkFuseAttrOut {
  fao_attr_valid : Z;
  fao_attr_valid_nsec : Z;
  fao_attr : fuse_attr
}.

Record fuse_entry_out := mkFuseEntryOut {
  nodeid : Z;
  generation : Z;
  entry_valid : Z;
  attr_valid : Z;
  entry_valid_nsec : Z;
  attr_valid_nsec : Z;
  attr : fuse_attr
}.

(** [fuse_attr attr = {}] *)
Definition zero_fuse_attr : fuse_attr :=
  {| fa_ino := 0; fa_size := 0; fa_blocks := 0;
     fa_atime := 0; fa_mtime := 0; fa_ctime := 0;
     fa_atimensec := 0; fa_mtimensec := 0; fa_ctimensec := 0;
     fa_mode := 0; fa_nlink := 0; fa_uid := 0; fa_gid := 0;
     fa_rdev := 0; fa_blksize := 0 |}.

(** The reply to a lookup that found nothing: [fuse_entry_out entry = {}]
    with both validity periods at the maximum of their unsigned 64-bit
    type. *)
Definition negativeEntry : fuse_entry_out :=
  {| nodeid := 0; generation := 0;
     entry_valid := UINT64_MAX; attr_valid := UINT64_MAX;
     entry_valid_nsec := 0; attr_valid_nsec := 0;
     attr := zero_fuse_attr |}.

(** [.onError([](const std::system_error&) ...)]: the handler sees
    [std::system_error]s only; anything else passes through. *)
Definition onSystemError {A} (c : M A) (handler : ErrorCategory -> Z -> M A)
  : M A :=
  fun st =>
    match c st with
    | (Throw (system_error cat code), st') => handler cat code st'
    | other => other
    end.

Definition ErrorCategory_eqb (a b : ErrorCategory) : bool :=
  match a, b with
  | system_category, system_category => true
  | generic_category, generic_category => true
  | _, _ => false
  end.

Section Dispatcher.
(** Outside the sources at hand: the inode map's lookups, the attribute
    conversion, and the file inode's [getattr] and [prefetch]. *)
Variable lookupInode : InodeNumber -> M InodeNumber.
Variable lookupTreeInode : InodeNumber -> M InodeNumber.
Variable asFuseAttr : Attr -> fuse_attr_out.
Variable fileGetattr : Mount -> InodeNumber -> Outcome Attr.
Variable prefetch : InodeNumber -> Mount -> Mount.

(** [computeEntryParam] *)
Definition computeEntryParam (number : InodeNumber) (a : Attr)
  : fuse_entry_out :=
  let fuse_attr := asFuseAttr a in
  {| nodeid := number;
     generation := 1;
     entry_valid := fao_attr_valid fuse_attr;
     attr_valid := fao_attr_valid fuse_attr;
     entry_valid_nsec := fao_attr_valid_nsec fuse_attr;
     attr_valid_nsec := fao_attr_valid_nsec fuse_attr;
     attr := fao_attr fuse_attr |}.

(** [InodeBase::getattr], dispatched on the kind of inode. *)
Definition getattr (ino : InodeNumber) : M Attr :=
  let! o := getObject ino in
  match o with
  | TreeInode _ contents =>
      let! init := gets (fun st => initStatData (config st)) in
      ret (getAttrLocked init ino contents)
  | FileInode _ _ => getattrOfFile fileGetattr ino
  end.

(** The chain of continuations of [EdenDispatcher::lookup] before its
    error handler. *)
Definition lookupChain (parentIno : InodeNumber) (namepiece : PathComponent)
  : M fuse_entry_out :=
  let! tree := lookupTreeInode parentIno in
  let! inode := getOrLoadChild lookupInode tree namepiece in
  let! a := getattr inode in
  incFuseRefcount inode ;;;
  modify (prefetch inode) ;;;
  ret (computeEntryParam inode a).

(** [EdenDispatcher::lookup] *)
Definition lookup (parentIno : InodeNumber) (namepiece : PathComponent)
  : M fuse_entry_out :=
  onSystemError (lookupChain parentIno namepiece)
    (fun cat code =>
       (* Translate ENOENT into a successful response *)
       if ErrorCategory_eqb cat system_category && (code =? ENOENT)
       then ret negativeEntry
       else throw (system_error cat code)).
End Dispatcher.

(** ** Example data *)

Module Examples.
Definition file (nm : PathComponent) (h : Hash) : TreeEntry :=
  {| te_hash := h; te_name := nm; te_type := REGULAR_FILE |}.
Definition dir (nm : PathComponent) (h : Hash) : TreeEntry :=
  {| te_hash := h; te_name := nm; te_type := TREE |}.

(** A tree with two files [a], [b] and one subdirectory [d]. *)
Definition tree_abd : Tree :=
  {| tree_hash := 100;
     tree_entries := [file "a" 11; file "b" 12; dir "d" 13] |}.

Definition initStat : Attr :=
  {| st := {| st_ino := 0; st_mode := 0; st_nlink := 0;
              st_uid := 1000; st_gid := 1000;
              st_atim := zeroTime; st_ctim := zeroTime;
              st_mtim := zeroTime |};
     attr_timeout := 1 |}.

Definition mountTime : timespec := {| tv_sec := 1500000000; tv_nsec := 0 |}.

Definition exampleConfig (store : gmap Z Tree) : MountConfig :=
  {| objectStore := store;
     dotEdenInodeNumber := 2;
     lastCheckoutTime := mountTime;
     initStatData := initStat;
     hasFuseChannel := true;
     isFuseRequest := true;
     clock := fun n => {| tv_sec := 1500000000 + Z.of_nat n; tv_nsec := 0 |} |}.

(** A mount with the given loaded inodes and overlay and nothing else. *)
Definition mountOf (store : gmap Z Tree) (tbl : gmap Z InodeObject)
    (ov : gmap Z OverlayData) (next : InodeNumber) : Mount :=
  {| config := exampleConfig store; inodes := tbl; overlay := ov;
     nextInodeNumber := next; journal := [];
     fuseInvalidations := []; fuseRefcount := ∅; clockReads := 0;
     conflicts := []; events := []; history := [] |}.

Definition rootLocation : Location :=
  {| parent := None; name := ""; unlinked := false |}.
Definition childOf (p : InodeNumber) (nm : PathComponent) : Location :=
  {| parent := Some p; name := nm; unlinked := false |}.

(** The freshly mounted root of [tree_abd]. *)
Definition freshRoot : Dir := buildDirFromTree (Some tree_abd) mountTime.

Definition dirMode : mode_t := Z.lor S_IFDIR 493.
Definition fileMode644 : mode_t := Z.lor S_IFREG 420.

(** A loaded, materialized child entry. *)
Definition loadedEntry (m : mode_t) (n : InodeNumber) : Entry :=
  {| mode_ := m; hash_ := None; inodeNumber_ := Some n; inode_ := Some n |}.

Definition materializedDir (es : PathMap.t Entry) : Dir :=
  {| entries := es; timeStamps := setAll mountTime; treeHash := None |}.

(** Root (1) with the reserved directory [.eden] (2) and a directory
    [sub] (3); everything loaded and materialized. *)
Definition smallInodes : gmap Z InodeObject :=
  <[1 := TreeInode rootLocation
           (materializedDir [(".eden", loadedEntry dirMode 2);
                             ("sub", loadedEntry dirMode 3)])]>
  (<[2 := TreeInode (childOf 1 ".eden") (materializedDir [])]>
  (<[3 := TreeInode (childOf 1 "sub") (materializedDir [])]> ∅)).

Definition overlayOf (tbl : gmap Z InodeObject) : gmap Z OverlayData :=
  omap (fun o => match o with
                 | TreeInode _ d => Some (OverlayDir (persist d))
                 | FileInode _ _ => Some (OverlayFile "")
                 end) tbl.

Definition smallMount : Mount :=
  mountOf ∅ smallInodes (overlayOf smallInodes) 4.

(** A root that has no entry for the reserved name. *)
Definition bareRootInodes : gmap Z InodeObject :=
  <[1 := TreeInode rootLocation (materializedDir [])]> ∅.
Definition bareRootMount : Mount :=
  mountOf ∅ bareRootInodes (overlayOf bareRootInodes) 2.

(** Stand-ins for the collaborators that are outside the sources. *)
Definition lookupLoaded (n : InodeNumber) : M InodeNumber := ret n.
Definition noFuseAttr (a : Attr) : fuse_attr_out :=
  {| fao_attr_valid := attr_timeout a; fao_attr_valid_nsec := 0;
     fao_attr := zero_fuse_attr |}.
Definition fileAttrInit (st : Mount) (n : InodeNumber) : Outcome Attr :=
  Ok (initStatData (config st)).
Definition noPrefetch (n : InodeNumber) (st : Mount) : Mount := st.
Definition noInterference (attempt : Z) (tbl : gmap Z InodeObject)
  : gmap Z InodeObject := tbl.

(** A mount whose root was just built from [tree_abd]; nothing else is
    loaded and the overlay is empty. *)
Definition tree_d : Tree :=
  {| tree_hash := 13; tree_entries := [file "c" 14] |}.
Definition freshMount : Mount :=
  mountOf (<[100 := tree_abd]> (<[13 := tree_d]> ∅))
    (<[1 := TreeInode rootLocation freshRoot]> ∅) ∅ 2.

(** A root whose only file [a] (hash 11) was renamed to [b]: the entry
    moved with its hash, the directory is materialized. *)
Definition tree_a : Tree :=
  {| tree_hash := 200; tree_entries := [file "a" 11] |}.
Definition renamedDir : Dir :=
  materializedDir [("b", EntryOfHash fileMode644 11)].
Definition renamedInodes : gmap Z InodeObject :=
  <[1 := TreeInode rootLocation renamedDir]> ∅.
Definition renamedMount : Mount :=
  mountOf (<[200 := tree_a]> ∅) renamedInodes (overlayOf renamedInodes) 2.


(** [sub] (3) holds one materialized, loaded file [f] (4). *)
Definition fileInodes : gmap Z InodeObject :=
  <[1 := TreeInode rootLocation
           (materializedDir [(".eden", loadedEntry dirMode 2);
                             ("sub", loadedEntry dirMode 3)])]>
  (<[2 := TreeInode (childOf 1 ".eden") (materializedDir [])]>
  (<[3 := TreeInode (childOf 1 "sub")
            (materializedDir [("f", loadedEntry fileMode644 4)])]>
  (<[4 := FileInode (childOf 3 "f") fileMode644]> ∅))).
Definition fileMount : Mount :=
  mountOf ∅ fileInodes (overlayOf fileInodes) 5.
(** A chain of four directories: root (1), [a] (2) and [b] (3) are
    materialized and record their child as materialized; [c] (4) is as in
    source control (hash 40), and [b] records it so.  The overlay holds the
    materialized directories. *)
Definition scmDirEntry (h : Hash) (n : InodeNumber) : Entry :=
  {| mode_ := dirMode; hash_ := Some h; inodeNumber_ := Some n;
     inode_ := Some n |}.
Definition scmDir (h : Hash) (es : PathMap.t Entry) : Dir :=
  {| entries := es; timeStamps := setAll mountTime; treeHash := Some h |}.
Definition deepInodes : gmap Z InodeObject :=
  <[1 := TreeInode rootLocation
           (materializedDir [("a", loadedEntry dirMode 2)])]>
  (<[2 := TreeInode (childOf 1 "a")
            (materializedDir [("b", loadedEntry dirMode 3)])]>
  (<[3 := TreeInode (childOf 2 "b")
            (materializedDir [("c", scmDirEntry 40 4)])]>
  (<[4 := TreeInode (childOf 3 "c") (scmDir 40 [])]> ∅))).
Definition deepMount : Mount :=
  mountOf ∅ deepInodes (overlayOf (delete 4 deepInodes)) 5.
End Examples.

(** ** Predicates used by the statements *)

(** [wp c Q st]: running [c] from [st] ends in an outcome and a mount that
    satisfy [Q]. *)
Definition wp {A} (c : M A) (Q : Outcome A -> Mount -> Prop) (st : Mount)
  : Prop :=
  Q (fst (c st)) (snd (c st)).






(** *** Traces of a remove operation *)

Definition isRemoveEvent (e : Event) : bool :=
  match e with
  | EvRemoveAttempt _ _ _ _ | EvReloadChild _ _ _ => true
  | _ => false
  end.

(** The remove attempts and reloads among the logged events. *)
Definition removeEvents (evs : list Event) : list Event :=
  List.filter isRemoveEvent evs.

Definition isReload (e : Event) : bool :=
  match e with EvReloadChild _ _ _ => true | _ => false end.

Definition reloadsOf (evs : list Event) : list Event :=
  List.filter isReload evs.

(** The shapes a remove operation on [(this, nm)] can take from attempt
    number [a] on: the attempts and reloads it logs, and its outcome.
    - it fails before the attempt is made;
    - the attempt succeeds;
    - the attempt fails with an errno that is not the retry sentinel, which
      is the result;
    - the attempt hits the sentinel past the retry limit: [EIO];
    - the attempt hits the sentinel within the limit: the child is reloaded,
      and either the reload fails or the operation goes on with the next
      attempt. *)
Inductive removeTrace (this : InodeNumber) (nm : PathComponent)
  : Z -> list Event -> Outcome unit -> Prop :=
  | rt_before a o :
      o <> Ok tt -> removeTrace this nm a [] o
  | rt_removed a :
      removeTrace this nm a [EvRemoveAttempt this nm a 0] (Ok tt)
  | rt_error a e :
      e <> 0 -> e <> EBADF ->
      removeTrace this nm a [EvRemoveAttempt this nm a e]
        (Throw (InodeError e))
  | rt_give_up a :
      a > kMaxRemoveRetries ->
      removeTrace this nm a [EvRemoveAttempt this nm a EBADF]
        (Throw (InodeError EIO))
  | rt_reload_failed a o :
      a <= kMaxRemoveRetries -> o <> Ok tt ->
      removeTrace this nm a
        [EvRemoveAttempt this nm a EBADF; EvReloadChild this nm a] o
  | rt_retry a evs o :
      a <= kMaxRemoveRetries ->
      removeTrace this nm (a + 1) evs o ->
      removeTrace this nm a
        (EvRemoveAttempt this nm a EBADF :: EvReloadChild this nm a :: evs) o.

(** An interference that unloads the child named [nm] of [this] before
    every attempt. *)
Definition unloadBeforeAttempt (this : InodeNumber) (nm : PathComponent)
    (attempt : Z) (tbl : gmap Z InodeObject) : gmap Z InodeObject :=
  match tbl !! this with
  | Some (TreeInode l d) =>
      match PathMap.find nm (entries d) with
      | Some e =>
          <[this := TreeInode l
                      (Dir.setEntries
                         (PathMap.assign nm (Entry.clearInode e) (entries d))
                         d)]> tbl
      | None => tbl
      end
  | _ => tbl
  end.

(** A postcondition: the remove attempts and reloads logged so far are
    [E]. *)
Definition keepsRemoveEvents (E : list Event) {A}
  : Outcome A -> Mount -> Prop :=
  fun _ st' => removeEvents (events st') = E.

(** One unfolding of [removeImpl], the recursive call abstracted. *)
Definition removeStep (lookupInode : InodeNumber -> M InodeNumber)
    (interference : Z -> gmap Z InodeObject -> gmap Z InodeObject)
    (rec : InodeNumber -> Z -> M unit)
    (k : InodeKind) (this : InodeNumber)
    (nm : PathComponent) (childBasePtr : InodeNumber) (attemptNum : Z)
  : M unit :=
  let! o := getObject childBasePtr in
  if negb (hasKind k o) then throw (InodeError (WRONG_TYPE_ERRNO k))
  else
    let! checkResult := checkPreRemove k childBasePtr in
    if negb (checkResult =? 0) then throw (InodeError checkResult)
    else
      let! myPath := getPath this in
      match myPath with
      | None => throw (InodeError ENOENT)
      | Some myPath =>
          let targetName := myPath ++ [nm] in
          let! isFuse := gets (fun st => isFuseRequest (config st)) in
          let flushKernelCache := negb isFuse in
          modify (fun st =>
                    withInodes (interference attemptNum (inodes st)) st) ;;;
          let! errnoValue :=
            tryRemoveChild k this nm None flushKernelCache in
          logEvent (EvRemoveAttempt this nm attemptNum errnoValue) ;;;
          if errnoValue =? 0 then addDelta (REMOVED targetName)
          else if negb (errnoValue =? EBADF) then
            throw (InodeError errnoValue)
          else if attemptNum >? kMaxRemoveRetries then
            throw (InodeError EIO)
          else
            logEvent (EvReloadChild this nm attemptNum) ;;;
            let! loadedChild := getOrLoadChild lookupInode this nm in
            rec loadedChild (attemptNum + 1)
      end.

(** *** The parent chain *)

(** [chainFrom tbl x l]: [l] lists [x], its parent, the parent of its parent
    ... up to the first inode that has no parent or is unlinked. *)
Inductive chainFrom (tbl : gmap Z InodeObject)
  : InodeNumber -> list InodeNumber -> Prop :=
  | chain_top x o :
      tbl !! x = Some o ->
      parent (locationOf o) = None \/ unlinked (locationOf o) = true ->
      chainFrom tbl x [x]
  | chain_up x o p l :
      tbl !! x = Some o ->
      parent (locationOf o) = Some p ->
      unlinked (locationOf o) = false ->
      chainFrom tbl p l ->
      chainFrom tbl x (x :: l).

(** Two inode tables with the same objects at the same locations, contents
    apart. *)
Definition sameLocations (tbl tbl' : gmap Z InodeObject) : Prop :=
  forall x, locationOf <$> (tbl' !! x) = locationOf <$> (tbl !! x).

(** Two inode tables with the same objects, the same locations and, in
    every directory, the same names; the states of the entries and the
    source control hashes of the directories may differ. *)
Definition sameShapeObject (o o' : option InodeObject) : Prop :=
  match o, o' with
  | None, None => True
  | Some (FileInode l m), Some (FileInode l' m') => l' = l /\ m' = m
  | Some (TreeInode l d), Some (TreeInode l' d') =>
      l' = l /\ PathMap.keys (entries d') = PathMap.keys (entries d)
  | _, _ => False
  end.

Definition sameShape (tbl tbl' : gmap Z InodeObject) : Prop :=
  forall x, sameShapeObject (tbl !! x) (tbl' !! x).

(** Only the objects numbered in [s] may differ. *)
Definition onlyChanges (s : list InodeNumber) (tbl tbl' : gmap Z InodeObject)
  : Prop :=
  forall y, ~ In y s -> tbl' !! y = tbl !! y.

(** Everything but the inode table, the overlay and the ghost logs is the
    same. *)
Definition sameAux (st st' : Mount) : Prop :=
  config st' = config st
  /\ nextInodeNumber st' = nextInodeNumber st
  /\ journal st' = journal st
  /\ fuseInvalidations st' = fuseInvalidations st
  /\ fuseRefcount st' = fuseRefcount st
  /\ clockReads st' = clockReads st
  /\ conflicts st' = conflicts st.

(** The effect of a walk up the chain [s]. *)
Definition chainEffect (s : list InodeNumber) (st st' : Mount) : Prop :=
  onlyChanges s (inodes st) (inodes st')
  /\ sameShape (inodes st) (inodes st')
  /\ sameAux st st'.

(** *** Materialization monotonicity *)

(** The inode is a loaded directory that is materialized. *)
Definition isMaterializedInode (tbl : gmap Z InodeObject) (x : InodeNumber)
  : bool :=
  match tbl !! x with
  | Some (TreeInode _ d) => Dir.isMaterialized d
  | _ => false
  end.

(** A materialized directory that is linked below a parent has a
    materialized parent. *)
Definition parentMaterialized (tbl : gmap Z InodeObject) (x : InodeNumber)
  : Prop :=
  forall o p,
    tbl !! x = Some o ->
    parent (locationOf o) = Some p ->
    unlinked (locationOf o) = false ->
    isMaterializedInode tbl x = true ->
    isMaterializedInode tbl p = true.

(** A directory that lists a materialized child is materialized. *)
Definition entriesMonotone (tbl : gmap Z InodeObject) (x : InodeNumber)
  : Prop :=
  forall l d nm e,
    tbl !! x = Some (TreeInode l d) ->
    PathMap.find nm (entries d) = Some e ->
    Entry.isMaterialized e = true ->
    Dir.isMaterialized d = true.

Definition monotone (tbl : gmap Z InodeObject) : Prop :=
  forall x, parentMaterialized tbl x /\ entriesMonotone tbl x.

(** The state between the materialization of [c] and the update of its
    parent: monotone but for the link from [c] to its parent. *)
Definition monotoneExcept (c : InodeNumber) (tbl : gmap Z InodeObject)
  : Prop :=
  (forall x, x <> c -> parentMaterialized tbl x)
  /\ forall x, entriesMonotone tbl x.

(** The directory [x] or one of its entries is materialized. *)
Definition holdsMaterialized (tbl : gmap Z InodeObject) (x : InodeNumber)
  : Prop :=
  isMaterializedInode tbl x = true
  \/ exists l d nm e,
       tbl !! x = Some (TreeInode l d)
       /\ PathMap.find nm (entries d) = Some e
       /\ Entry.isMaterialized e = true.

(** Every linked inode is listed, under its name, by a loaded directory. *)
Definition parentsOk (tbl : gmap Z InodeObject) : Prop :=
  forall x o p,
    tbl !! x = Some o ->
    parent (locationOf o) = Some p ->
    unlinked (locationOf o) = false ->
    exists lp dp e,
      tbl !! p = Some (TreeInode lp dp)
      /\ PathMap.find (name (locationOf o)) (entries dp) = Some e.

(** If [c] is loaded and linked, it is linked below [p]. *)
Definition childAt (tbl : gmap Z InodeObject) (c p : InodeNumber) : Prop :=
  forall o q,
    tbl !! c = Some o ->
    parent (locationOf o) = Some q ->
    unlinked (locationOf o) = false ->
    q = p.

Definition keepsMaterialized (tbl tbl' : gmap Z InodeObject) : Prop :=
  forall x, isMaterializedInode tbl x = true ->
            isMaterializedInode tbl' x = true.

(** The directory [a] is as it was, in memory and in the overlay, or the
    overlay holds its present contents. *)
Definition untouchedOrPersisted (st st' : Mount) (a : InodeNumber) : Prop :=
  (inodes st' !! a = inodes st !! a /\ overlay st' !! a = overlay st !! a)
  \/ exists l d,
       inodes st' !! a = Some (TreeInode l d)
       /\ overlay st' !! a = Some (OverlayDir (persist d)).

(** What a walk up the chain [s] does to the overlay. *)
Definition walkPersists (s : list InodeNumber) (st st' : Mount) : Prop :=
  (forall y, ~ In y s -> overlay st' !! y = overlay st !! y)
  /\ forall a, In a s -> untouchedOrPersisted st st' a.

(** *** The order of the overlay writes *)

(** Every report of a child to its parent comes after a save of the child's
    own directory: [saved] lists the inodes saved so far. *)
Fixpoint toldAfterSaved (saved : list InodeNumber) (evs : list Event) : bool :=
  match evs with
  | [] => true
  | EvSaveOverlayDir c :: rest => toldAfterSaved (c :: saved) rest
  | EvChildMaterialized _ _ c :: rest =>
      existsb (Z.eqb c) saved && toldAfterSaved saved rest
  | _ :: rest => toldAfterSaved saved rest
  end.

(** A materialized entry that has an inode number names an inode that has
    overlay data. *)
Definition entryCovered (ov : gmap Z OverlayData) (e : Entry) : bool :=
  negb (Entry.isMaterialized e)
  || match inodeNumber_ e with
     | Some c => bool_decide (is_Some (ov !! c))
     | None => true
     end.

Definition dirCovered (ov : gmap Z OverlayData) (d : Dir) : bool :=
  forallb (fun kv => entryCovered ov (snd kv)) (entries d).

(** No directory, in memory or in the overlay, records as materialized a
    child that has no overlay data. *)
Definition consistent (snap : gmap Z InodeObject * gmap Z OverlayData)
  : Prop :=
  (forall p l d, fst snap !! p = Some (TreeInode l d) ->
                 dirCovered (snd snap) d = true)
  /\ (forall p d, snd snap !! p = Some (OverlayDir d) ->
                  dirCovered (snd snap) d = true).

(** The overlay loses no data. *)
Definition grows (ov ov' : gmap Z OverlayData) : Prop :=
  forall c, is_Some (ov !! c) -> is_Some (ov' !! c).

(** Every state gone through since [st] is consistent, and so is the last
    one; the overlay has lost no data. *)
Definition crashSafe (st : Mount) : Outcome unit -> Mount -> Prop :=
  fun _ st' =>
    exists new,
      history st' = new ++ history st
      /\ Forall consistent new
      /\ consistent (inodes st', overlay st')
      /\ grows (overlay st) (overlay st').

(** ** [TreeInode]: more operations *)

(** A failed [CHECK] aborts the process; the model renders the abort as an
    exceptional outcome that is no [InodeError]. *)
Definition CHECK_failed (msg : string) : Exception :=
  runtime_error ("CHECK failed: " ++ msg).

(** [TreeInode::getChildInodeNumber] *)
Definition getChildInodeNumber (this : InodeNumber) (nm : PathComponent)
  : M InodeNumber :=
  let! contents := getContents this in
  match PathMap.find nm (entries contents) with
  | None => throw (InodeError ENOENT)
  | Some ent =>
      match Entry.getInode ent with
      | Some p => ret p
      | None =>
          match inodeNumber_ ent with
          | Some n => ret n
          | None =>
              let! inodeNumber := allocateInodeNumber in
              putContents this
                (Dir.setEntries
                   (PathMap.assign nm (Entry.setInodeNumber inodeNumber ent)
                      (entries contents)) contents) ;;;
              ret inodeNumber
          end
      end
  end.

(** [TreeInode::mkdir] *)
Definition mkdir (this : InodeNumber) (nm : PathComponent) (mode : mode_t)
  : M InodeNumber :=
  materialize this false ;;;
  let! contents := getContents this in
  let! myPath := getPath this in
  match myPath with
  | None => throw (InodeError ENOENT)
  | Some myPath =>
      let targetName := myPath ++ [nm] in
      match PathMap.find nm (entries contents) with
      | Some _ => throw (InodeError EEXIST)
      | None =>
          (* Allocate an inode number *)
          let! childNumber := allocateInodeNumber in
          (* Ensure that we mark this as a directory. *)
          let mode := Z.lor S_IFDIR (Z.land 4095 mode) in
          let! now := getNow in
          let emptyDir :=
            {| entries := []; timeStamps := setAll now; treeHash := None |} in
          (* Store the overlay entry for this dir *)
          saveOverlayDir childNumber emptyDir ;;;
          let emplaceResult :=
            PathMap.emplace nm (EntryOfNumber mode childNumber)
              (entries contents) in
          if negb (snd emplaceResult) then
            throw (CHECK_failed
                     "directory contents should not have changed since the check above")
          else
            let contents' :=
              Dir.setChangeTimes now
                (Dir.setEntries
                   (PathMap.assign nm
                      (Entry.setInode childNumber
                         (EntryOfNumber mode childNumber))
                      (fst emplaceResult))
                   contents) in
            putContents this contents' ;;;
            (* TreeInodePtr::makeNew; InodeMap::inodeCreated *)
            putObject childNumber
              (TreeInode {| parent := Some this; name := nm;
                            unlinked := false |} emptyDir) ;;;
            (* Save our updated overlay data *)
            saveOverlayDir this contents' ;;;
            invalidateFuseCacheIfRequired this nm ;;;
            addDelta (CREATED targetName) ;;;
            ret childNumber
      end
  end.

(** [TreeInode::mknod]; the device number is not stored. *)
Definition mknod (this : InodeNumber) (nm : PathComponent) (mode : mode_t)
  : M InodeNumber :=
  if negb (S_ISSOCK mode) then throw (InodeError EPERM)
  else
    materialize this false ;;;
    let! contents := getContents this in
    let! myPath := getPath this in
    match myPath with
    | None => throw (InodeError ENOENT)
    | Some myPath =>
        let targetName := myPath ++ [nm] in
        match PathMap.find nm (entries contents) with
        | Some _ => throw (InodeError EEXIST)
        | None =>
            let! childNumber := allocateInodeNumber in
            let! currentTime := getNow in
            createOverlayFile childNumber ;;;
            let entry := EntryOfNumber mode childNumber in
            (* FileInodePtr::makeNew; entry.setInode; inodeCreated *)
            putObject childNumber
              (FileInode {| parent := Some this; name := nm;
                            unlinked := false |} (mode_ entry)) ;;;
            let contents' :=
              Dir.setChangeTimes currentTime
                (Dir.setEntries
                   (fst (PathMap.emplace nm
                           (Entry.setInode childNumber entry)
                           (entries contents)))
                   contents) in
            putContents this contents' ;;;
            saveOverlayDir this contents' ;;;
            invalidateFuseCacheIfRequired this nm ;;;
            addDelta (CREATED targetName) ;;;
            ret childNumber
        end
    end.

(** [Overlay]: the data written through the descriptor of an overlay
    file. *)
Definition writeOverlayFile (ino : InodeNumber) (data : string) : M unit :=
  modify (fun st => withOverlay (<[ino := OverlayFile data]> (overlay st)) st).

(** [::unlink(filePath)] of an overlay file. *)
Definition unlinkOverlayFile (ino : InodeNumber) : M unit :=
  modify (fun st => withOverlay (delete ino (overlay st)) st).

Section Symlink.
(** Outside the sources at hand: [folly::writeNoInt], the number of bytes
    it wrote to the overlay file of the inode or -1, and the [errno] that
    [folly::throwSystemError] reads. *)
Variable writeNoInt : InodeNumber -> string -> Z.
Variable errno : Z.

Definition throwSystemError {A} : M A :=
  throw (system_error system_category errno).

(** [TreeInode::symlink] *)
Definition symlink (this : InodeNumber) (nm : PathComponent)
    (symlinkTarget : string) : M InodeNumber :=
  materialize this false ;;;
  let! contents := getContents this in
  let! myPath := getPath this in
  match myPath with
  | None => throw (InodeError ENOENT)
  | Some myPath =>
      let targetName := myPath ++ [nm] in
      match PathMap.find nm (entries contents) with
      | Some _ => throw (InodeError EEXIST)
      | None =>
          let! childNumber := allocateInodeNumber in
          let! currentTime := getNow in
          createOverlayFile childNumber ;;;
          (* SCOPE_FAIL: remove the in-progress file from the overlay *)
          let scopeFail := unlinkOverlayFile childNumber in
          let wrote := writeNoInt childNumber symlinkTarget in
          if wrote =? -1 then scopeFail ;;; throwSystemError
          else if negb (wrote =? Z.of_nat (String.length symlinkTarget))
          then scopeFail ;;; throwSystemError
          else
            writeOverlayFile childNumber symlinkTarget ;;;
            let entry := EntryOfNumber (Z.lor S_IFLNK 504) childNumber in
            (* FileInodePtr::makeNew; entry.setInode; inodeCreated *)
            putObject childNumber
              (FileInode {| parent := Some this; name := nm;
                            unlinked := false |} (mode_ entry)) ;;;
            let entries' :=
              fst (PathMap.emplace nm (Entry.setInode childNumber entry)
                     (entries contents)) in
            (* Update mtime and ctime of the file *)
            let! now := getNow in
            let contents' :=
              Dir.setChangeTimes now (Dir.setEntries entries' contents) in
            putContents this contents' ;;;
            saveOverlayDir this contents' ;;;
            invalidateFuseCacheIfRequired this nm ;;;
            addDelta (CREATED targetName) ;;;
            ret childNumber
      end
  end.
End Symlink.

(** ** [TreeInode]: rename *)

(** [isAncestor]: is [a] among the parents of [b]?  [InodeBase::getParent],
    outside the sources at hand, is the parent of the location. *)
Fixpoint isAncestorFrom (budget : nat) (tbl : gmap Z InodeObject)
    (a : InodeNumber) (b : InodeNumber) : Outcome bool :=
  match budget with
  | O => Stuck OutOfBudget
  | S budget' =>
      match tbl !! b with
      | None => Stuck DanglingPointer
      | Some o =>
          match parent (locationOf o) with
          | None => Ok false
          | Some p =>
              if p =? a then Ok true else isAncestorFrom budget' tbl a p
          end
      end
  end.

Definition isAncestor (a b : InodeNumber) : M bool :=
  fun st => (isAncestorFrom (S (size (inodes st))) (inodes st) a b, st).

(** Modelled from the spec: [InodeBase::updateLocation] is outside the
    sources at hand; the inode gets its new parent and name. *)
Definition updateLocation (ino : InodeNumber) (newParent : InodeNumber)
    (newName : PathComponent) : M unit :=
  let! o := getObject ino in
  let l' := {| parent := Some newParent; name := newName;
               unlinked := unlinked (locationOf o) |} in
  putObject ino
    match o with
    | TreeInode _ d => TreeInode l' d
    | FileInode _ m => FileInode l' m
    end.

(** [TreeInode::doRename]: both the source and, if there is one, the
    destination child are loaded. *)
Definition doRename (this : InodeNumber) (srcName : PathComponent)
    (srcEntry : Entry) (destParent : InodeNumber)
    (destName : PathComponent) (destChildIter : option Entry) : M unit :=
  let sameFile :=
    match destChildIter with
    | Some destEntry =>
        bool_decide (Entry.getInode srcEntry = Entry.getInode destEntry)
    | None => false
    end in
  (* the source and destination refer to exactly the same file *)
  if sameFile then ret tt
  else
    match Entry.getInode srcEntry with
    | None => stuck DanglingPointer
    | Some childInode =>
        let! invalid :=
          if Entry.isDirectory srcEntry then
            if childInode =? destParent then ret true
            else isAncestor childInode destParent
          else ret false in
        if invalid then throw (InodeError EINVAL)
        else
          let! checked :=
            match destChildIter with
            | Some destEntry =>
                match Entry.getInode destEntry with
                | None => stuck DanglingPointer
                | Some destChild =>
                    markUnlinked destChild ;;;
                    (* Replace the destination contents entry *)
                    let! destContents := getContents destParent in
                    putContents destParent
                      (Dir.setEntries
                         (PathMap.assign destName srcEntry
                            (entries destContents)) destContents)
                end
            | None =>
                let! destContents := getContents destParent in
                let ret_ :=
                  PathMap.emplace destName srcEntry (entries destContents) in
                if negb (snd ret_) then throw (CHECK_failed "ret.second")
                else
                  putContents destParent
                    (Dir.setEntries (fst ret_) destContents)
            end in
          (* Inform the child inode that it has been moved *)
          updateLocation childInode destParent destName ;;;
          (* Now remove the source information *)
          let! srcContents := getContents this in
          putContents this
            (Dir.setEntries (PathMap.erase srcName (entries srcContents))
               srcContents) ;;;
          (* Save the overlay data *)
          let! srcContents := getContents this in
          saveOverlayDir this srcContents ;;;
          (if negb (destParent =? this) then
             let! destContents := getContents destParent in
             saveOverlayDir destParent destContents
           else ret tt) ;;;
          (* Add a journal entry *)
          let! srcPath := getPath this in
          let! destPath := getPath destParent in
          match srcPath, destPath with
          | Some sp, Some dp => addDelta (RENAME (sp ++ [srcName])
                                                 (dp ++ [destName]))
          | _, _ => ret tt
          end
    end.

(** Run a computation and hand back its outcome: a future that is waited
    for later. *)
Definition attempt {A} (c : M A) : M (Outcome A) :=
  fun st => (Ok (fst (c st)), snd (c st)).

(** Wait for a future. *)
Definition await {A} (o : Outcome A) : M A := fun st => (o, st).

Section Rename.
Variable lookupInode : InodeNumber -> M InodeNumber.

(** [TreeInode::rename].  [budget] bounds the re-runs after the loads. *)
Fixpoint rename (budget : nat) (this : InodeNumber) (nm : PathComponent)
    (destParent : InodeNumber) (destName : PathComponent) : M unit :=
  match budget with
  | O => stuck OutOfBudget
  | S budget' =>
      materialize this true ;;;
      (if negb (destParent =? this) then materialize destParent true
       else ret tt) ;;;
      let! srcContents := getContents this in
      let! destContents := getContents destParent in
      let destChildIter := PathMap.find destName (entries destContents) in
      match PathMap.find nm (entries srcContents) with
      | None => throw (InodeError ENOENT)
      | Some srcEntry =>
          (* Validate invalid file/directory replacement *)
          (if Entry.isDirectory srcEntry then
             match destChildIter with
             | Some destEntry =>
                 if negb (Entry.isDirectory destEntry)
                 then throw (InodeError ENOTDIR)
                 else if negb (bool_decide (Entry.getInode destEntry
                                            = Entry.getInode srcEntry))
                 then
                   (* destChildIsEmpty() reads the locked contents of the
                      destination child, which are only there when that
                      child is loaded *)
                   match Entry.getInode destEntry with
                   | None => stuck DanglingPointer
                   | Some destChild =>
                       let! destChildContents := getContents destChild in
                       if negb (PathMap.empty (entries destChildContents))
                       then throw (InodeError ENOTEMPTY)
                       else ret tt
                   end
                 else ret tt
             | None => ret tt
             end
           else
             match destChildIter with
             | Some destEntry =>
                 if Entry.isDirectory destEntry
                 then throw (InodeError EISDIR)
                 else ret tt
             | None => ret tt
             end) ;;;
          (* Make sure the destination directory is not unlinked. *)
          let! destLoc := getLocationInfo destParent in
          if unlinked destLoc then throw (InodeError ENOENT)
          else
            let needSrc :=
              match Entry.getInode srcEntry with
              | None => true | Some _ => false
              end in
            let needDest :=
              match destChildIter with
              | Some destEntry =>
                  match Entry.getInode destEntry with
                  | None => true | Some _ => false
                  end
              | None => false
              end in
            if negb needSrc && negb needDest then
              doRename this nm srcEntry destParent destName destChildIter
            else if needSrc && needDest then
              let! srcFuture := attempt (getOrLoadChild lookupInode this nm) in
              let! destFuture :=
                attempt (getOrLoadChild lookupInode destParent destName) in
              await srcFuture ;;;
              await destFuture ;;;
              rename budget' this nm destParent destName
            else if needSrc then
              getOrLoadChild lookupInode this nm ;;;
              rename budget' this nm destParent destName
            else
              getOrLoadChild lookupInode destParent destName ;;;
              rename budget' this nm destParent destName
      end
  end.
End Rename.

(** ** [EdenDispatcher]: more requests *)

(** A continuation that drops the future it is handed: the work is done,
    its result is not waited for and its error is lost. *)
Definition dropResult {A} (c : M A) : M unit :=
  fun st =>
    match fst (c st) with
    | Stuck w => (Stuck w, snd (c st))
    | _ => (Ok tt, snd (c st))
    end.

Section DispatcherMore.
Variable lookupInode : InodeNumber -> M InodeNumber.
Variable lookupTreeInode : InodeNumber -> M InodeNumber.
Variable asFuseAttr : Attr -> fuse_attr_out.
Variable fileGetattr : Mount -> InodeNumber -> Outcome Attr.
Variable interference : Z -> gmap Z InodeObject -> gmap Z InodeObject.

(** [EdenDispatcher::unlink]: the continuation calls [unlink] and returns
    nothing. *)
Definition dispatchUnlink (parentIno : InodeNumber) (nm : PathComponent)
  : M unit :=
  let! inode := lookupTreeInode parentIno in
  dropResult (unlink lookupInode interference inode nm).

(** [EdenDispatcher::rmdir]: the continuation returns the future of
    [rmdir]. *)
Definition dispatchRmdir (parentIno : InodeNumber) (nm : PathComponent)
  : M unit :=
  let! inode := lookupTreeInode parentIno in
  rmdir lookupInode interference inode nm.

(** [EdenDispatcher::mkdir] *)
Definition dispatchMkdir (parentIno : InodeNumber) (nm : PathComponent)
    (mode : mode_t) : M fuse_entry_out :=
  let! inode := lookupTreeInode parentIno in
  let! child := mkdir inode nm mode in
  let! a := getattr fileGetattr child in
  incFuseRefcount child ;;;
  ret (computeEntryParam asFuseAttr child a).

(** [EdenDispatcher::mknod] *)
Definition dispatchMknod (parentIno : InodeNumber) (nm : PathComponent)
    (mode : mode_t) : M fuse_entry_out :=
  let! inode := lookupTreeInode parentIno in
  let! child := mknod inode nm mode in
  let! a := getattr fileGetattr child in
  incFuseRefcount child ;;;
  ret (computeEntryParam asFuseAttr child a).

(** [EdenDispatcher::create]; of the reply, the entry is modelled, the file
    handle is not. *)
Definition dispatchCreate (parentIno : InodeNumber) (nm : PathComponent)
    (mode : mode_t) : M fuse_entry_out :=
  let! parentInode := lookupTreeInode parentIno in
  let! created := create fileGetattr parentInode nm mode in
  incFuseRefcount (cr_inode created) ;;;
  ret (computeEntryParam asFuseAttr (cr_inode created) (cr_attr created)).

End DispatcherMore.

(** ** Postconditions used by the statements about [mkdir] and the like *)

(** What a successful [mkdir] leaves behind. *)
Definition mkdirPost (this : Z) (nm : string) (mode : Z) (l : Location)
    (d : Dir) (path : list string) (st : Mount)
    (o : Outcome Z) (st' : Mount) : Prop :=
  let n := nextInodeNumber st in
  o = Ok n
  /\ nextInodeNumber st' = n + 1
  /\ (exists now,
        let emptyDir :=
          {| entries := []; timeStamps := setAll now; treeHash := None |} in
        inodes st' !! n =
          Some (TreeInode {| parent := Some this; name := nm;
                             unlinked := false |} emptyDir)
        /\ overlay st' !! n = Some (OverlayDir emptyDir))
  /\ (exists d1,
        inodes st' !! this = Some (TreeInode l d1)
        /\ treeHash d1 = None
        /\ PathMap.find nm (entries d1) =
             Some (Entry.setInode n
                     (EntryOfNumber (Z.lor S_IFDIR (Z.land 4095 mode)) n))
        /\ (forall nm', nm' <> nm ->
              PathMap.find nm' (entries d1) = PathMap.find nm' (entries d))
        /\ PathMap.erase nm (entries d1) = entries d
        /\ overlay st' !! this = Some (OverlayDir (persist d1)))
  /\ journal st' = journal st ++ [CREATED (path ++ [nm])]
  /\ config st' = config st
  /\ fuseRefcount st' = fuseRefcount st
  /\ fst (getPath this st') = Ok (Some path).

(** A failed creation in an unlinked directory: only the directory
    itself may have changed, and only by being materialized. *)
Definition untouchedButMaterialized (this : Z) (l : Location) (d : Dir)
    (st : Mount) {A} (o : Outcome A) (st' : Mount) : Prop :=
  o = Throw (InodeError ENOENT)
  /\ nextInodeNumber st' = nextInodeNumber st
  /\ journal st' = journal st
  /\ (exists d', inodes st' !! this = Some (TreeInode l d')
                 /\ entries d' = entries d)
  /\ (forall y, y <> this -> inodes st' !! y = inodes st !! y).

(** The entry [buildDirFromTree] makes of a tree entry. *)
Definition entryOfTreeEntry (te : TreeEntry) : PathComponent * Entry :=
  (te_name te,
   EntryOfHash (modeFromTreeEntryType (te_type te)) (te_hash te)).

(** The entries of a tree are in the order of their names, without
    duplicates. *)
Definition sortedTree (t : Tree) : Prop :=
  StronglySorted (fun a b => String.ltb (te_name a) (te_name b) = true)
    (tree_entries t).

(** What the successful creation of a file-like inode ([mknod],
    [symlink]) leaves behind. *)
Definition newFilePost (this : Z) (nm : string) (mode : Z) (data : string)
    (l : Location) (d : Dir) (path : list string) (st : Mount)
    (o : Outcome Z) (st' : Mount) : Prop :=
  let n := nextInodeNumber st in
  o = Ok n
  /\ nextInodeNumber st' = n + 1
  /\ inodes st' !! n =
       Some (FileInode {| parent := Some this; name := nm;
                          unlinked := false |} mode)
  /\ overlay st' !! n = Some (OverlayFile data)
  /\ (exists d1,
        inodes st' !! this = Some (TreeInode l d1)
        /\ treeHash d1 = None
        /\ PathMap.find nm (entries d1) =
             Some (Entry.setInode n (EntryOfNumber mode n))
        /\ (forall nm', nm' <> nm ->
              PathMap.find nm' (entries d1) = PathMap.find nm' (entries d))
        /\ PathMap.erase nm (entries d1) = entries d
        /\ overlay st' !! this = Some (OverlayDir (persist d1)))
  /\ journal st' = journal st ++ [CREATED (path ++ [nm])]
  /\ config st' = config st.

(** The kernel's reference counts are as in [st]. *)
Definition keepsRefcount (st : Mount) {A} (o : Outcome A) (st' : Mount)
  : Prop := fuseRefcount st' = fuseRefcount st.

(** The run [r] of a dispatcher request from [st1] took one reference on the
    inode of the entry it replied with, and none if it replied with an
    error. *)
Definition takesOneReference (st1 : Mount)
    (r : Outcome fuse_entry_out * Mount) : Prop :=
  match fst r with
  | Ok entry =>
      fuseRefcount (snd r)
      = <[nodeid entry := default 0 (fuseRefcount st1 !! nodeid entry) + 1]>
          (fuseRefcount st1)
  | _ => fuseRefcount (snd r) = fuseRefcount st1
  end.

(** The inode object after [updateLocation]. *)
Definition relocated (o : InodeObject) (p : Z) (nm : string) : InodeObject :=
  let l' := {| parent := Some p; name := nm;
               unlinked := unlinked (locationOf o) |} in
  match o with
  | TreeInode _ d => TreeInode l' d
  | FileInode _ m => FileInode l' m
  end.

(** What a successful [rename] within one directory, to a free name,
    leaves behind. *)
Definition renamePost (this : Z) (nm destName : string) (l : Location)
    (d : Dir) (e : Entry) (c : Z) (oc : InodeObject) (path : list string)
    (s : list Z) (st : Mount) (o : Outcome unit) (st' : Mount) : Prop :=
  o = Ok tt
  /\ (exists d1,
        inodes st' !! this = Some (TreeInode l d1)
        /\ treeHash d1 = None
        /\ entries d1 =
             PathMap.erase nm (fst (PathMap.emplace destName e (entries d)))
        /\ overlay st' !! this = Some (OverlayDir (persist d1)))
  /\ inodes st' !! c = Some (relocated oc this destName)
  /\ (forall y, ~ In y s -> y <> c -> inodes st' !! y = inodes st !! y)
  /\ journal st' = journal st ++ [RENAME (path ++ [nm]) (path ++ [destName])]
  /\ nextInodeNumber st' = nextInodeNumber st.

(** *** Who records an inode as a materialized child *)

(** The entry does not record [x] as a materialized child. *)
Definition avoids (x : InodeNumber) (e : Entry) : bool :=
  negb (Entry.isMaterialized e && bool_decide (inodeNumber_ e = Some x)).








(** *** The order of the reports and of the removal *)






(** *** The walk of [childMaterialized], directory by directory *)

(** The walk found the directory [a] or its entry [nm] not yet
    materialized: it has marked the entry materialized, with the number [c]
    of the child, and the directory materialized, and saved the listing. *)
Definition markedBy (st st' : Mount) (a : InodeNumber) (nm : PathComponent)
    (c : InodeNumber) : Prop :=
  exists l d e,
    inodes st !! a = Some (TreeInode l d)
    /\ PathMap.find nm (entries d) = Some e
    /\ Dir.isMaterialized d && Entry.isMaterialized e = false
    /\ let d' :=
         Dir.setMaterialized
           (Dir.setEntries
              (PathMap.assign nm (Entry.setMaterialized c e) (entries d))
              d) in
       inodes st' !! a = Some (TreeInode l d')
       /\ overlay st' !! a = Some (OverlayDir (persist d')).

(** The directory [a] is materialized and records the entry [nm] as
    materialized. *)
Definition nothingToDoAt (st : Mount) (a : InodeNumber) (nm : PathComponent)
  : Prop :=
  exists l d e,
    inodes st !! a = Some (TreeInode l d)
    /\ PathMap.find nm (entries d) = Some e
    /\ Dir.isMaterialized d && Entry.isMaterialized e = true.

(** The inode [a] is as it was, in memory and in the overlay. *)
Definition untouched (st st' : Mount) (a : InodeNumber) : Prop :=
  inodes st' !! a = inodes st !! a /\ overlay st' !! a = overlay st !! a.

(** [walkedUp st st' a nm c s]: between [st] and [st'] the walk went up the
    parent chain [s] of [a], told at [a] that the child [c] named [nm] is
    materialized:
    - at a directory where there is nothing to do it stops: that directory
      and those above are untouched;
    - otherwise it marks the directory, and goes on to the parent, if the
      directory is linked below one, with the name and the number of the
      directory itself. *)
Inductive walkedUp (st st' : Mount)
  : InodeNumber -> PathComponent -> InodeNumber -> list InodeNumber -> Prop :=
  | walk_stops a nm c s :
      nothingToDoAt st a nm ->
      Forall (untouched st st') (a :: s) ->
      walkedUp st st' a nm c (a :: s)
  | walk_ends a nm c o :
      markedBy st st' a nm c ->
      inodes st !! a = Some o ->
      parent (locationOf o) = None \/ unlinked (locationOf o) = true ->
      walkedUp st st' a nm c [a]
  | walk_goes_on a nm c o p s :
      markedBy st st' a nm c ->
      inodes st !! a = Some o ->
      parent (locationOf o) = Some p ->
      unlinked (locationOf o) = false ->
      walkedUp st st' p (name (locationOf o)) a s ->
      walkedUp st st' a nm c (a :: s).

(** Every state gone through between [st] and [st'] is monotone but for one
    link. *)
Definition monotoneButOneLink (st st' : Mount) : Prop :=
  exists new,
    history st' = new ++ history st
    /\ Forall (fun snap => exists c, monotoneExcept c (fst snap)) new.

(** An interference that replaces the child named [nm] of [this] by a
    different loaded file inode, [other], before an attempt: what a rename
    of another file over the name leaves in the directory. *)
Definition replaceBeforeAttempt (this : InodeNumber) (nm : PathComponent)
    (other : InodeNumber) (attempt : Z) (tbl : gmap Z InodeObject)
  : gmap Z InodeObject :=
  match tbl !! this with
  | Some (TreeInode l d) =>
      match PathMap.find nm (entries d) with
      | Some e =>
          <[other := FileInode {| parent := Some this; name := nm;
                                  unlinked := false |} (mode_ e)]>
            (<[this := TreeInode l
                         (Dir.setEntries
                            (PathMap.assign nm
                               {| mode_ := mode_ e; hash_ := None;
                                  inodeNumber_ := Some other;
                                  inode_ := Some other |}
                               (entries d))
                            d)]> tbl)
      | None => tbl
      end
  | _ => tbl
  end.

(** ** More example mounts *)



(** A root (1) without entries and a directory (3) that was removed from it
    while still referenced: loaded, materialized, unlinked. *)
Definition unlinkedInodes : gmap Z InodeObject :=
  <[1 := TreeInode Examples.rootLocation (Examples.materializedDir [])]>
  (<[3 := TreeInode {| parent := Some 1; name := "gone"; unlinked := true |}
            (Examples.materializedDir [])]> ∅).
Definition unlinkedMount : Mount :=
  Examples.mountOf ∅ unlinkedInodes (Examples.overlayOf unlinkedInodes) 4.

(** A root (1) with the loaded directory sub (2), both materialized; sub
    lists what [Examples.tree_a] lists: the file a with the hash 11. *)
Definition revertedInodes : gmap Z InodeObject :=
  <[1 := TreeInode Examples.rootLocation
           (Examples.materializedDir
              [("sub", Examples.loadedEntry Examples.dirMode 2)])]>
  (<[2 := TreeInode (Examples.childOf 1 "sub")
            (Examples.materializedDir
               [("a", EntryOfHash Examples.fileMode644 11)])]> ∅).
Definition revertedMount : Mount :=
  Examples.mountOf (<[200 := Examples.tree_a]> ∅) revertedInodes
    (Examples.overlayOf revertedInodes) 3.

(** A root that lists the reserved directory [.eden] (2) besides the
    entries [a], [b] and [d] of [tree_abd]. *)
Definition dotEdenRoot : Dir :=
  Examples.materializedDir
    (fst (PathMap.emplace ".eden"
            (Examples.loadedEntry Examples.dirMode 2)
            (entries Examples.freshRoot))).
Definition dotEdenInodes : gmap Z InodeObject :=
  <[1 := TreeInode Examples.rootLocation dotEdenRoot]>
  (<[2 := TreeInode (Examples.childOf 1 ".eden")
            (Examples.materializedDir [])]> ∅).
Definition dotEdenMount : Mount :=
  Examples.mountOf (<[100 := Examples.tree_abd]> ∅) dotEdenInodes
    (Examples.overlayOf dotEdenInodes) 3.

(** A chain of three directories as in source control: root (1), [a] (2)
    and [b] (3); the overlay is empty. *)
Definition scmChainInodes : gmap Z InodeObject :=
  <[1 := TreeInode Examples.rootLocation
           (Examples.scmDir 10 [("a", Examples.scmDirEntry 20 2)])]>
  (<[2 := TreeInode (Examples.childOf 1 "a")
            (Examples.scmDir 20 [("b", Examples.scmDirEntry 30 3)])]>
  (<[3 := TreeInode (Examples.childOf 2 "b") (Examples.scmDir 30 [])]> ∅)).
Definition scmChainMount : Mount :=
  Examples.mountOf ∅ scmChainInodes ∅ 4.

(** * Proofs *)

(** ** Facts about [PathMap] *)

Module PathMapFacts.
Import PathMap.

Section Facts.
Context {V : Type}.
Implicit Types (m : PathMap.t V) (n k : PathComponent) (v w : V).

Lemma eqb_same n : String.eqb n n = true.
Proof. apply String.eqb_refl. Qed.

Lemma eqb_diff n k : n <> k -> String.eqb n k = false.
Proof. intros H. by apply String.eqb_neq. Qed.

Lemma find_None_keys n m : find n m = None <-> ~ In n (keys m).
Proof.
  induction m as [|[k w] m IH]; simpl; [tauto|].
  destruct (String.eqb k n) eqn:E.
  - apply String.eqb_eq in E. split; [discriminate|]. intros H. tauto.
  - apply String.eqb_neq in E. rewrite IH. tauto.
Qed.

Lemma find_Some_keys n m v : find n m = Some v -> In n (keys m).
Proof.
  induction m as [|[k w] m IH]; simpl; [discriminate|].
  destruct (String.eqb k n) eqn:E.
  - apply String.eqb_eq in E. tauto.
  - intros H. right. by apply IH.
Qed.

Lemma find_insertSorted_same n v m :
  find n m = None -> find n (insertSorted n v m) = Some v.
Proof.
  induction m as [|[k w] m IH]; simpl.
  - by rewrite eqb_same.
  - destruct (String.eqb k n) eqn:E; [discriminate|]. intros Hnone.
    destruct (String.ltb n k); simpl.
    + by rewrite eqb_same.
    + rewrite E. by apply IH.
Qed.

Lemma find_insertSorted_other n k v m :
  n <> k -> find k (insertSorted n v m) = find k m.
Proof.
  intros Hne. induction m as [|[k' w] m IH]; simpl.
  - by rewrite eqb_diff.
  - destruct (String.ltb n k'); simpl.
    + by rewrite eqb_diff.
    + by rewrite IH.
Qed.

Lemma find_emplace_same n v m :
  find n (fst (emplace n v m)) =
  match find n m with Some w => Some w | None => Some v end.
Proof.
  unfold emplace. destruct (find n m) eqn:E; simpl; [done|].
  by apply find_insertSorted_same.
Qed.

Lemma find_emplace_other n k v m :
  n <> k -> find k (fst (emplace n v m)) = find k m.
Proof.
  intros Hne. unfold emplace. destruct (find n m); simpl; [done|].
  by apply find_insertSorted_other.
Qed.

Lemma snd_emplace n v m :
  snd (emplace n v m) = match find n m with Some _ => false | None => true end.
Proof. unfold emplace. by destruct (find n m). Qed.

Lemma size_insertSorted n v m : size (insertSorted n v m) = S (size m).
Proof.
  unfold size. induction m as [|[k w] m IH]; simpl; [done|].
  destruct (String.ltb n k); simpl; [done|]. by rewrite IH.
Qed.

Lemma size_emplace n v m :
  size (fst (emplace n v m)) =
  match find n m with Some _ => size m | None => S (size m) end.
Proof.
  unfold emplace. destruct (find n m); simpl; [done|].
  apply size_insertSorted.
Qed.

Lemma erase_insertSorted n v m :
  find n m = None -> erase n (insertSorted n v m) = m.
Proof.
  induction m as [|[k w] m IH]; simpl.
  - by rewrite eqb_same.
  - destruct (String.eqb k n) eqn:E; [discriminate|]. intros Hnone.
    destruct (String.ltb n k); simpl.
    + by rewrite eqb_same.
    + by rewrite E, IH.
Qed.

Lemma erase_emplace n v m :
  find n m = None -> erase n (fst (emplace n v m)) = m.
Proof.
  intros H. unfold emplace. rewrite H. simpl. by apply erase_insertSorted.
Qed.

Lemma erase_assign n v m : erase n (assign n v m) = erase n m.
Proof.
  induction m as [|[k w] m IH]; simpl; [done|].
  destruct (String.eqb k n) eqn:E; simpl; rewrite E; [done|].
  by rewrite IH.
Qed.

Lemma find_assign_same n v m :
  find n (assign n v m) = match find n m with Some _ => Some v | None => None end.
Proof.
  induction m as [|[k w] m IH]; simpl; [done|].
  destruct (String.eqb k n) eqn:E; simpl; by rewrite E.
Qed.

Lemma find_assign_other n k v m :
  n <> k -> find k (assign n v m) = find k m.
Proof.
  intros Hne. induction m as [|[k' w] m IH]; simpl; [done|].
  destruct (String.eqb k' n) eqn:E; simpl.
  - apply String.eqb_eq in E. subst k'. by rewrite !eqb_diff.
  - by rewrite IH.
Qed.

Lemma find_assign n k v m :
  find k (assign n v m) =
  if String.eqb n k
  then match find n m with Some _ => Some v | None => None end
  else find k m.
Proof.
  destruct (String.eqb n k) eqn:E.
  - apply String.eqb_eq in E. subst k. apply find_assign_same.
  - apply String.eqb_neq in E. by apply find_assign_other.
Qed.

Lemma keys_assign n v m : keys (assign n v m) = keys m.
Proof.
  unfold keys. induction m as [|[k w] m IH]; simpl; [done|].
  destruct (String.eqb k n); simpl; [done|]. by rewrite IH.
Qed.

Lemma size_assign n v m : size (assign n v m) = size m.
Proof.
  unfold size. rewrite <- (length_map fst (assign n v m)),
    <- (length_map fst m). f_equal. apply keys_assign.
Qed.

Lemma find_erase_other n k m : n <> k -> find k (erase n m) = find k m.
Proof.
  intros Hne. induction m as [|[k' w] m IH]; simpl; [done|].
  destruct (String.eqb k' n) eqn:E; simpl.
  - apply String.eqb_eq in E. subst k'. by rewrite eqb_diff.
  - by rewrite IH.
Qed.

End Facts.
End PathMapFacts.

(** ** Rules for [wp] *)

Section WpRules.
Context {A B : Type}.

Lemma wp_bind (c : M A) (k : A -> M B) (Q : Outcome B -> Mount -> Prop)
    (st : Mount) :
  wp c (fun o st' =>
          match o with
          | Ok a => wp (k a) Q st'
          | Throw e => Q (Throw e) st'
          | Stuck w => Q (Stuck w) st'
          end) st ->
  wp (bind c k) Q st.
Proof.
  unfold wp, bind. destruct (c st) as [[a|e|w] st']; simpl; done.
Qed.

Lemma wp_ret (a : A) (Q : Outcome A -> Mount -> Prop) (st : Mount) :
  Q (Ok a) st -> wp (ret a) Q st.
Proof. done. Qed.

Lemma wp_throw (e : Exception) (Q : Outcome A -> Mount -> Prop) (st : Mount) :
  Q (Throw e) st -> wp (throw e) Q st.
Proof. done. Qed.

Lemma wp_stuck (w : StuckReason) (Q : Outcome A -> Mount -> Prop)
    (st : Mount) :
  Q (Stuck w) st -> wp (stuck w) Q st.
Proof. done. Qed.

Lemma wp_gets (f : Mount -> A) (Q : Outcome A -> Mount -> Prop) (st : Mount) :
  Q (Ok (f st)) st -> wp (gets f) Q st.
Proof. done. Qed.

Lemma wp_consequence (c : M A) (Q Q' : Outcome A -> Mount -> Prop)
    (st : Mount) :
  wp c Q st -> (forall o st', Q o st' -> Q' o st') -> wp c Q' st.
Proof. unfold wp. auto. Qed.

Lemma wp_run (c : M A) (Q : Outcome A -> Mount -> Prop) (st st' : Mount)
    (o : Outcome A) :
  wp c Q st -> c st = (o, st') -> Q o st'.
Proof. unfold wp. intros H E. by rewrite E in H. Qed.
End WpRules.

Lemma wp_modify (f : Mount -> Mount) (Q : Outcome unit -> Mount -> Prop)
    (st : Mount) :
  Q (Ok tt) (f st) -> wp (modify f) Q st.
Proof. done. Qed.

Lemma wp_getObject (ino : InodeNumber) (Q : Outcome InodeObject -> Mount -> Prop)
    (st : Mount) :
  match inodes st !! ino with
  | Some o => Q (Ok o) st
  | None => Q (Stuck DanglingPointer) st
  end ->
  wp (getObject ino) Q st.
Proof. unfold wp, getObject. by destruct (inodes st !! ino). Qed.

Lemma wp_getTreeInode (ino : InodeNumber)
    (Q : Outcome (Location * Dir) -> Mount -> Prop) (st : Mount) :
  match inodes st !! ino with
  | Some (TreeInode l d) => Q (Ok (l, d)) st
  | _ => Q (Stuck DanglingPointer) st
  end ->
  wp (getTreeInode ino) Q st.
Proof.
  unfold wp, getTreeInode, getObject, bind.
  by destruct (inodes st !! ino) as [[l d|l m]|].
Qed.

Lemma wp_getContents (ino : InodeNumber) (Q : Outcome Dir -> Mount -> Prop)
    (st : Mount) :
  match inodes st !! ino with
  | Some (TreeInode l d) => Q (Ok d) st
  | _ => Q (Stuck DanglingPointer) st
  end ->
  wp (getContents ino) Q st.
Proof.
  unfold wp, getContents, getTreeInode, getObject, bind.
  by destruct (inodes st !! ino) as [[l d|l m]|].
Qed.

Lemma wp_getLocationInfo (ino : InodeNumber)
    (Q : Outcome Location -> Mount -> Prop) (st : Mount) :
  match inodes st !! ino with
  | Some o => Q (Ok (locationOf o)) st
  | None => Q (Stuck DanglingPointer) st
  end ->
  wp (getLocationInfo ino) Q st.
Proof.
  unfold wp, getLocationInfo, getObject, bind.
  by destruct (inodes st !! ino).
Qed.

Lemma wp_putContents (ino : InodeNumber) (d : Dir)
    (Q : Outcome unit -> Mount -> Prop) (st : Mount) :
  match inodes st !! ino with
  | Some (TreeInode l _) =>
      Q (Ok tt) (withInodes (<[ino := TreeInode l d]> (inodes st)) st)
  | _ => Q (Stuck DanglingPointer) st
  end ->
  wp (putContents ino d) Q st.
Proof.
  unfold wp, putContents, getTreeInode, getObject, bind.
  by destruct (inodes st !! ino) as [[l d0|l m]|].
Qed.

Lemma wp_putObject (ino : InodeNumber) (o : InodeObject)
    (Q : Outcome unit -> Mount -> Prop) (st : Mount) :
  Q (Ok tt) (withInodes (<[ino := o]> (inodes st)) st) ->
  wp (putObject ino o) Q st.
Proof. done. Qed.

Lemma wp_logEvent (e : Event) (Q : Outcome unit -> Mount -> Prop) (st : Mount) :
  Q (Ok tt) (withEvents (events st ++ [e]) st) -> wp (logEvent e) Q st.
Proof. done. Qed.

Lemma wp_saveOverlayDir (ino : InodeNumber) (d : Dir)
    (Q : Outcome unit -> Mount -> Prop) (st : Mount) :
  Q (Ok tt)
    (withOverlay (<[ino := OverlayDir (persist d)]> (overlay st))
       (withEvents (events st ++ [EvSaveOverlayDir ino]) st)) ->
  wp (saveOverlayDir ino d) Q st.
Proof. done. Qed.

Lemma wp_removeOverlayData (ino : InodeNumber)
    (Q : Outcome unit -> Mount -> Prop) (st : Mount) :
  Q (Ok tt)
    (withOverlay (delete ino (overlay st))
       (withEvents (events st ++ [EvRemoveOverlayData ino]) st)) ->
  wp (removeOverlayData ino) Q st.
Proof. done. Qed.

Lemma wp_createOverlayFile (ino : InodeNumber)
    (Q : Outcome unit -> Mount -> Prop) (st : Mount) :
  Q (Ok tt)
    (withOverlay (<[ino := OverlayFile ""]> (overlay st))
       (withEvents (events st ++ [EvCreateOverlayFile ino]) st)) ->
  wp (createOverlayFile ino) Q st.
Proof. done. Qed.

Lemma wp_loadOverlayDir (ino : InodeNumber)
    (Q : Outcome (option Dir) -> Mount -> Prop) (st : Mount) :
  Q (Ok match overlay st !! ino with
        | Some (OverlayDir d) => Some d
        | _ => None
        end) st ->
  wp (loadOverlayDir ino) Q st.
Proof. done. Qed.

Lemma wp_allocateInodeNumber (Q : Outcome InodeNumber -> Mount -> Prop)
    (st : Mount) :
  Q (Ok (nextInodeNumber st)) (withNextInodeNumber (nextInodeNumber st + 1) st) ->
  wp allocateInodeNumber Q st.
Proof. done. Qed.

Lemma wp_getNow (Q : Outcome timespec -> Mount -> Prop) (st : Mount) :
  Q (Ok (clock (config st) (clockReads st)))
    (withClockReads (S (clockReads st)) st) ->
  wp getNow Q st.
Proof. done. Qed.

Lemma wp_addDelta (d : JournalDelta) (Q : Outcome unit -> Mount -> Prop)
    (st : Mount) :
  Q (Ok tt) (withJournal (journal st ++ [d]) st) -> wp (addDelta d) Q st.
Proof. done. Qed.

Lemma wp_addConflict (t : ConflictType) (dir : InodeNumber)
    (nm : option PathComponent) (Q : Outcome unit -> Mount -> Prop)
    (st : Mount) :
  Q (Ok tt)
    (withConflicts
       (conflicts st ++
        [{| conflictType := t; conflictDir := dir; conflictName := nm |}]) st) ->
  wp (addConflict t dir nm) Q st.
Proof. done. Qed.

Lemma wp_invalidateFuseCache (this : InodeNumber) (nm : PathComponent)
    (Q : Outcome unit -> Mount -> Prop) (st : Mount) :
  Q (Ok tt)
    (if hasFuseChannel (config st)
     then withFuseInvalidations (fuseInvalidations st ++ [(this, nm)]) st
     else st) ->
  wp (invalidateFuseCache this nm) Q st.
Proof. done. Qed.

Lemma wp_getTree (h : Hash) (Q : Outcome Tree -> Mount -> Prop) (st : Mount) :
  match objectStore (config st) !! h with
  | Some t => Q (Ok t) st
  | None => Q (Throw (runtime_error "getTree: object not found")) st
  end ->
  wp (getTree h) Q st.
Proof. unfold wp, getTree. by destruct (objectStore (config st) !! h). Qed.

Lemma wp_chainBudget (Q : Outcome nat -> Mount -> Prop) (st : Mount) :
  Q (Ok (S (size (inodes st)))) st -> wp chainBudget Q st.
Proof. done. Qed.

(** One step: decompose a bind, or run a primitive. *)
Ltac wp_step :=
  lazymatch goal with
  | |- wp (bind _ _) _ _ => apply wp_bind
  | |- wp (ret _) _ _ => apply wp_ret
  | |- wp (throw _) _ _ => apply wp_throw
  | |- wp (stuck _) _ _ => apply wp_stuck
  | |- wp (gets _) _ _ => apply wp_gets
  | |- wp (modify _) _ _ => apply wp_modify
  | |- wp (getObject _) _ _ => apply wp_getObject
  | |- wp (getTreeInode _) _ _ => apply wp_getTreeInode
  | |- wp (getContents _) _ _ => apply wp_getContents
  | |- wp (getLocationInfo _) _ _ => apply wp_getLocationInfo
  | |- wp (putContents _ _) _ _ => apply wp_putContents
  | |- wp (putObject _ _) _ _ => apply wp_putObject
  | |- wp (logEvent _) _ _ => apply wp_logEvent
  | |- wp (saveOverlayDir _ _) _ _ => apply wp_saveOverlayDir
  | |- wp (removeOverlayData _) _ _ => apply wp_removeOverlayData
  | |- wp (createOverlayFile _) _ _ => apply wp_createOverlayFile
  | |- wp (loadOverlayDir _) _ _ => apply wp_loadOverlayDir
  | |- wp allocateInodeNumber _ _ => apply wp_allocateInodeNumber
  | |- wp getNow _ _ => apply wp_getNow
  | |- wp (addDelta _) _ _ => apply wp_addDelta
  | |- wp (addConflict _ _ _) _ _ => apply wp_addConflict
  | |- wp (invalidateFuseCache _ _) _ _ => apply wp_invalidateFuseCache
  | |- wp (getTree _) _ _ => apply wp_getTree
  | |- wp chainBudget _ _ => apply wp_chainBudget
  end; cbv beta iota.

(** Reduce the projections of the setters. *)
Ltac simpl_mount :=
  cbn [inodes overlay conflicts config nextInodeNumber journal
       fuseInvalidations fuseRefcount clockReads events history
       withInodes withOverlay withNextInodeNumber withJournal
       withFuseInvalidations withFuseRefcount withClockReads withConflicts
       withEvents locationOf fst snd] in *.

(** Case analysis on what the computation branches on. *)
Ltac wp_case :=
  lazymatch goal with
  | |- wp (match ?x with _ => _ end) _ _ => destruct x eqn:?
  | |- wp (if ?b then _ else _) _ _ => destruct b eqn:?
  | |- match ?x with _ => _ end => destruct x eqn:?
  end; simplify_eq.

Ltac wp_go :=
  repeat (first [wp_step | wp_case]; simpl_mount;
          rewrite ?lookup_insert_eq, ?negb_true_iff, ?negb_false_iff in * ).

Lemma wp_conj {A} (c : M A) (Q1 Q2 : Outcome A -> Mount -> Prop) (st : Mount) :
  wp c Q1 st -> wp c Q2 st -> wp c (fun o st' => Q1 o st' /\ Q2 o st') st.
Proof. unfold wp. tauto. Qed.

(** A run with a known outcome and a known final state. *)
Lemma wp_eq {A} (c : M A) (st st' : Mount) (o : Outcome A) :
  wp c (fun o' st'' => o' = o /\ st'' = st') st -> c st = (o, st').
Proof. unfold wp. intros [<- <-]. apply surjective_pairing. Qed.

(** A run is its outcome and its final state. *)
Lemma run_result {A} (c : M A) (st : Mount) (o : Outcome A) :
  fst (c st) = o -> c st = (o, snd (c st)).
Proof. intros <-. apply surjective_pairing. Qed.

(** A computation that leaves the mount as it is. *)
Lemma wp_pure {A} (c : M A) (Q : Outcome A -> Mount -> Prop) (st : Mount) :
  snd (c st) = st -> (forall o, Q o st) -> wp c Q st.
Proof. unfold wp. intros -> H. apply H. Qed.

Lemma startLoadingInodeNoThrow_state (this : InodeNumber) (e : Entry)
    (n : PathComponent) (num : InodeNumber) (st : Mount) :
  snd (startLoadingInodeNoThrow this e n num st) = st.
Proof.
  unfold startLoadingInodeNoThrow.
  destruct (negb (Entry.isDirectory e)); [done|].
  destruct (hash_ e) as [h|].
  - unfold getTree. by destruct (objectStore (config st) !! h).
  - unfold bind, loadOverlayDir, gets. simpl.
    by destruct (overlay st !! num) as [[d|s]|].
Qed.

(** ** [getattr] on a directory: the link count *)

Section LinkCount.
Import PathMap PathMapFacts.

Let step (es : PathMap.t Entry) (te : TreeEntry) : PathMap.t Entry :=
  fst (emplace (te_name te)
         (EntryOfHash (modeFromTreeEntryType (te_type te)) (te_hash te)) es).

Lemma fold_emplace_size (l : list TreeEntry) (acc : PathMap.t Entry) :
  List.NoDup (map te_name l) ->
  (forall te, In te l -> find (te_name te) acc = None) ->
  size (fold_left step l acc) = (size acc + length l)%nat.
Proof.
  revert acc. induction l as [|te l IH]; intros acc Hnd Hfresh; simpl.
  - lia.
  - inversion Hnd as [|? ? Hnotin Hnd']; subst.
    rewrite IH; [| done |].
    + unfold step. rewrite size_emplace, (Hfresh te); [lia | by left].
    + intros te' Hin. unfold step.
      rewrite find_emplace_other; [apply Hfresh; by right|].
      intros Heq. apply Hnotin. rewrite Heq. by apply in_map.
Qed.

(** A directory built from a tree has one entry per tree entry. *)
Lemma buildDirFromTree_size (t : Tree) (time : timespec) :
  List.NoDup (map te_name (tree_entries t)) ->
  size (entries (buildDirFromTree (Some t) time)) = length (tree_entries t).
Proof.
  intros Hnd. simpl. fold step.
  rewrite fold_emplace_size; [done | done | done].
Qed.

(** The link count is the number of entries plus two. *)
Lemma getAttrLocked_nlink (init : Attr) (ino : InodeNumber) (d : Dir) :
  Z.of_nat (size (entries d)) + 2 < 2 ^ 64 ->
  st_nlink (st (getAttrLocked init ino d)) = Z.of_nat (size (entries d)) + 2.
Proof.
  intros Hlt. simpl. unfold wrap64. apply Z.mod_small. lia.
Qed.
End LinkCount.

(** C8, the scenario as the spec words it: the root of a tree with entries
    [a], [b] and [d] does not report a link count of 4. *)
Lemma fresh_root_nlink_is_not_4 :
  st_nlink (st (getAttrLocked Examples.initStat kRootNodeId Examples.freshRoot))
  <> 4.
Proof. vm_compute. discriminate. Qed.

(** C8 (amended): [getattr] on a loaded directory succeeds, changes
    nothing, and reports as link count the number of entries of the
    directory plus two, for "." and ".."; every entry counts, files as well
    as subdirectories.  So a directory that lists the distinct names [names]
    reports at least as many links plus two, and a directory built from a
    source control tree reports the number of entries of the tree plus
    two. *)
Theorem getattr_nlink_counts_every_entry
    (fileGetattr : Mount -> InodeNumber -> Outcome Attr)
    (ino : InodeNumber) (l : Location) (d : Dir) (m : Mount) :
  inodes m !! ino = Some (TreeInode l d) ->
  Z.of_nat (PathMap.size (entries d)) + 2 < 2 ^ 64 ->
  let r := getattr fileGetattr ino m in
  exists a,
    fst r = Ok a
    /\ snd r = m
    /\ st_nlink (st a) = Z.of_nat (PathMap.size (entries d)) + 2
    /\ (forall names : list PathComponent,
          List.NoDup names ->
          (forall n, In n names -> is_Some (PathMap.find n (entries d))) ->
          Z.of_nat (length names) + 2 <= st_nlink (st a))
    /\ (forall (t : Tree) (time : timespec),
          List.NoDup (map te_name (tree_entries t)) ->
          d = buildDirFromTree (Some t) time ->
          st_nlink (st a) = Z.of_nat (length (tree_entries t)) + 2).
Proof.
  intros Hino Hlt r.
  assert (Hr : r = (Ok (getAttrLocked (initStatData (config m)) ino d), m)).
  { unfold r, getattr, bind, getObject, gets, ret. by rewrite Hino. }
  rewrite Hr. eexists. split; [reflexivity|]. split; [reflexivity|].
  rewrite getAttrLocked_nlink by done.
  split; [done|]. split.
  - intros names Hnd Hin.
    assert (length names <= PathMap.size (entries d))%nat; [|lia].
    unfold PathMap.size. rewrite <- (length_map fst).
    apply List.NoDup_incl_length; [done|].
    intros n Hn. destruct (Hin n Hn) as [e He].
    by apply PathMapFacts.find_Some_keys in He.
  - intros t time Hnd ->. by rewrite buildDirFromTree_size.
Qed.

(** A root that lists the reserved directory besides [a], [b] and [d]
    reports 6 links; the three names alone account for 5. *)
Lemma getattr_nlink_counts_every_entry_witness :
  let r := getattr Examples.fileAttrInit kRootNodeId dotEdenMount in
  exists a, fst r = Ok a /\ st_nlink (st a) = 6 /\ 5 <= st_nlink (st a).
Proof.
  intros r.
  destruct (getattr_nlink_counts_every_entry Examples.fileAttrInit
              kRootNodeId Examples.rootLocation dotEdenRoot dotEdenMount)
    as (a & Ha & _ & Hn & Hge & _).
  - vm_compute. reflexivity.
  - vm_compute. reflexivity.
  - exists a. split; [exact Ha|]. split; [exact Hn|].
    apply (Hge ["a"; "b"; "d"]%string).
    + repeat constructor; simpl; intuition discriminate.
    + intros n [<-|[<-|[<-|[]]]]; vm_compute; eexists; reflexivity.
Defined.

(** ** [getOrLoadChild] on a name without entry *)

(** C6, as the spec words it, fails at both ends: at the root the reserved
    name without entry is [NotFound]; in another directory it resolves to the
    reserved inode. *)
Lemma dot_eden_exception_is_not_at_root :
  fst (getOrLoadChild Examples.lookupLoaded kRootNodeId kDotEdenName
         Examples.bareRootMount) = Throw (InodeError ENOENT)
  /\ fst (getOrLoadChild Examples.lookupLoaded 3 kDotEdenName
            Examples.smallMount) = Ok 2.
Proof. split; vm_compute; reflexivity. Qed.

(** C6 (amended): a name without entry fails with [NotFound], except the
    reserved name looked up in a directory other than the root, which
    resolves through the inode map to the reserved inode. *)
Theorem getOrLoadChild_missing_entry
    (lookupInode : InodeNumber -> M InodeNumber) (st : Mount)
    (this : InodeNumber) (nm : PathComponent) (loc : Location) (d : Dir) :
  inodes st !! this = Some (TreeInode loc d) ->
  PathMap.find nm (entries d) = None ->
  getOrLoadChild lookupInode this nm st =
    if String.eqb nm kDotEdenName && negb (this =? kRootNodeId)
    then lookupInode (dotEdenInodeNumber (config st)) st
    else (Throw (InodeError ENOENT), st).
Proof.
  intros Hthis Hfind.
  unfold getOrLoadChild, getContents, getTreeInode, getObject, bind, ret.
  rewrite Hthis. simpl. rewrite Hfind.
  destruct (String.eqb nm kDotEdenName && negb (this =? kRootNodeId)); done.
Qed.

Lemma getOrLoadChild_missing_entry_witness :
  getOrLoadChild Examples.lookupLoaded 3 "nope" Examples.smallMount
  = (Throw (InodeError ENOENT), Examples.smallMount)
  /\ getOrLoadChild Examples.lookupLoaded 3 kDotEdenName Examples.smallMount
     = (Ok 2, Examples.smallMount).
Proof.
  split.
  - apply (getOrLoadChild_missing_entry Examples.lookupLoaded
             Examples.smallMount 3 "nope" (Examples.childOf 1 "sub")
             (Examples.materializedDir [])); reflexivity.
  - apply (getOrLoadChild_missing_entry Examples.lookupLoaded
             Examples.smallMount 3 kDotEdenName (Examples.childOf 1 "sub")
             (Examples.materializedDir [])); reflexivity.
Defined.

(** ** The negative lookup reply *)

Section NegativeLookup.
Variable lookupInode : InodeNumber -> M InodeNumber.
Variable lookupTreeInode : InodeNumber -> M InodeNumber.
Variable asFuseAttr : Attr -> fuse_attr_out.
Variable fileGetattr : Mount -> InodeNumber -> Outcome Attr.
Variable prefetch : InodeNumber -> Mount -> Mount.

Let chain := lookupChain lookupInode lookupTreeInode asFuseAttr fileGetattr
               prefetch.
Let run := lookup lookupInode lookupTreeInode asFuseAttr fileGetattr
             prefetch.

(** A successful chain is replied as it is. *)
Lemma lookup_success (parentIno : InodeNumber) (nm : PathComponent)
    (st st' : Mount) (r : fuse_entry_out) :
  chain parentIno nm st = (Ok r, st') -> run parentIno nm st = (Ok r, st').
Proof.
  unfold run, lookup, onSystemError, chain. by intros ->.
Qed.

(** C7: when the lookup fails with [NotFound] the adapter replies with
    success, inode number 0 and both validity periods at the maximum of
    their type; any other failure propagates as the same error. *)
Theorem lookup_translates_not_found (parentIno : InodeNumber)
    (nm : PathComponent) (st st' : Mount) (e : Exception) :
  chain parentIno nm st = (Throw e, st') ->
  (e = InodeError ENOENT ->
     run parentIno nm st = (Ok negativeEntry, st')
     /\ nodeid negativeEntry = 0
     /\ attr_valid negativeEntry = UINT64_MAX
     /\ entry_valid negativeEntry = UINT64_MAX)
  /\ (e <> InodeError ENOENT -> run parentIno nm st = (Throw e, st')).
Proof.
  intros Hchain. unfold run, lookup, onSystemError. fold chain.
  rewrite Hchain. split.
  - intros ->. simpl. done.
  - intros Hne. destruct e as [cat code | what]; [|done].
    destruct cat; simpl; [|done].
    destruct (code =? ENOENT) eqn:E; [|done].
    apply Z.eqb_eq in E. subst code. done.
Qed.
End NegativeLookup.

(** Scenario 6 of the spec: [lookup("nope")] on a directory without that
    entry. *)
Lemma lookup_translates_not_found_witness :
  lookup Examples.lookupLoaded Examples.lookupLoaded Examples.noFuseAttr
    Examples.fileAttrInit Examples.noPrefetch 3 "nope" Examples.smallMount
  = (Ok negativeEntry, Examples.smallMount).
Proof.
  apply (lookup_translates_not_found Examples.lookupLoaded
           Examples.lookupLoaded Examples.noFuseAttr Examples.fileAttrInit
           Examples.noPrefetch 3 "nope" Examples.smallMount
           Examples.smallMount (InodeError ENOENT)); reflexivity.
Defined.

(** ** The checkout short circuit *)

(** The dry-run rule: with a [fromTree], return iff the directory is at the
    [fromTree]; without one, return iff [toTree] is absent or matches. *)
Lemma canShortCircuitCheckout_dry_run (h : Hash) (fromTree toTree : option Tree) :
  canShortCircuitCheckout DRY_RUN h fromTree toTree =
  match fromTree with
  | Some f => h =? tree_hash f
  | None => match toTree with None => true | Some t => h =? tree_hash t end
  end.
Proof. reflexivity. Qed.

(** The rule of the other modes: [toTree] must match, and [fromTree], when
    there is one, must match as well. *)
Lemma canShortCircuitCheckout_apply (ctx : CheckoutMode) (h : Hash)
    (fromTree toTree : option Tree) :
  isDryRun ctx = false ->
  canShortCircuitCheckout ctx h fromTree toTree =
  match toTree with
  | None => false
  | Some t =>
      (h =? tree_hash t)
      && match fromTree with None => true | Some f => h =? tree_hash f end
  end.
Proof.
  intros Hdry. unfold canShortCircuitCheckout. rewrite Hdry.
  destruct toTree as [t|]; [|done].
  by destruct (h =? tree_hash t).
Qed.

(** C4, as the spec words it: a normal checkout of a directory that is at
    [toTree] returns early although there is no [fromTree] whose hash could
    equal [treeHash]; had it continued, the merge walk would have reported
    conflicts. *)
Lemma normal_checkout_without_fromTree_returns_early :
  computeCheckoutActions NORMAL 1 None (Some Examples.tree_abd)
    Examples.freshMount = (Ok ([], []), Examples.freshMount)
  /\ (tree_hash <$> (None : option Tree))
     <> Some (tree_hash Examples.tree_abd)
  /\ conflicts
       (snd (mergeWalk NORMAL 1 [] (tree_entries Examples.tree_abd)
               Examples.freshMount)) <> [].
Proof. repeat split; vm_compute; discriminate. Qed.

(** C4 (amended): for a directory that is not materialized and whose
    [treeHash] equals [toTree]'s hash, checkout returns early, with no
    actions, no loads and the mount (so also its conflicts) unchanged, exactly
    when there is no [fromTree] or [fromTree]'s hash equals [treeHash], in
    every mode; otherwise it continues with the merge walk. *)
Theorem checkout_short_circuit (ctx : CheckoutMode) (st : Mount)
    (this : InodeNumber) (loc : Location) (d : Dir) (h : Hash)
    (fromTree : option Tree) (toTree : Tree) :
  inodes st !! this = Some (TreeInode loc d) ->
  treeHash d = Some h ->
  tree_hash toTree = h ->
  computeCheckoutActions ctx this fromTree (Some toTree) st =
    if match fromTree with None => true | Some f => h =? tree_hash f end
    then (Ok ([], []), st)
    else mergeWalk ctx this (treeEntriesOf fromTree) (tree_entries toTree) st.
Proof.
  intros Hthis Hhash Hto.
  unfold computeCheckoutActions, getContents, getTreeInode, getObject, bind, ret.
  rewrite Hthis. simpl. rewrite Hhash.
  assert (Hself : (h =? tree_hash toTree) = true) by (apply Z.eqb_eq; done).
  assert (Hcan : canShortCircuitCheckout ctx h fromTree (Some toTree) =
                 match fromTree with None => true | Some f => h =? tree_hash f end).
  { destruct (isDryRun ctx) eqn:Hdry.
    - destruct ctx; try discriminate. rewrite canShortCircuitCheckout_dry_run.
      destruct fromTree; done.
    - rewrite canShortCircuitCheckout_apply by done. by rewrite Hself. }
  rewrite Hcan. by destruct (match fromTree with None => true | Some f => _ end).
Qed.

Lemma checkout_short_circuit_witness :
  computeCheckoutActions NORMAL 1 (Some Examples.tree_abd)
    (Some Examples.tree_abd) Examples.freshMount
  = (Ok ([], []), Examples.freshMount).
Proof.
  apply (checkout_short_circuit NORMAL Examples.freshMount 1
           Examples.rootLocation Examples.freshRoot 100
           (Some Examples.tree_abd) Examples.tree_abd); reflexivity.
Defined.

(** A materialized directory never takes the short circuit. *)
Lemma checkout_materialized_continues (ctx : CheckoutMode) (st : Mount)
    (this : InodeNumber) (loc : Location) (d : Dir)
    (fromTree toTree : option Tree) :
  inodes st !! this = Some (TreeInode loc d) ->
  treeHash d = None ->
  computeCheckoutActions ctx this fromTree toTree st =
    mergeWalk ctx this (treeEntriesOf fromTree) (treeEntriesOf toTree) st.
Proof.
  intros Hthis Hhash.
  unfold computeCheckoutActions, getContents, getTreeInode, getObject, bind, ret.
  rewrite Hthis. simpl. by rewrite Hhash.
Qed.

(** ** Dematerialization after checkout *)

(** What [tryToDematerialize] checks: as many entries as the tree has, and
    pairwise, in order, an unmaterialized entry with the hash of the tree
    entry.  Names are not compared. *)
Lemma tryToDematerialize_Some (d : Dir) (tree : option Tree) (h : Hash) :
  tryToDematerialize d tree = Some h <->
  exists t, tree = Some t /\ h = tree_hash t
    /\ length (tree_entries t) = length (entries d)
    /\ Forall2 (fun (kv : PathComponent * Entry) te =>
                  hash_ (snd kv) = Some (te_hash te))
         (entries d) (tree_entries t).
Proof.
  unfold tryToDematerialize, PathMap.size. destruct tree as [t|].
  2:{ split; [discriminate|]. intros (t & ? & _); discriminate. }
  destruct (Nat.eqb (length (tree_entries t)) (length (entries d))) eqn:Hlen;
    simpl.
  2:{ apply Nat.eqb_neq in Hlen. split; [discriminate|].
      intros (t' & [= <-] & _ & Hl & _). done. }
  apply Nat.eqb_eq in Hlen.
  assert (Hall : forall (es : PathMap.t Entry) (scm : list TreeEntry),
             length scm = length es ->
             forallb (fun p : (PathComponent * Entry) * TreeEntry =>
                        negb (Entry.isMaterialized (snd (fst p)))
                        && bool_decide (hash_ (snd (fst p))
                                        = Some (te_hash (snd p))))
               (combine es scm) = true
             <-> Forall2 (fun (kv : PathComponent * Entry) te =>
                            hash_ (snd kv) = Some (te_hash te)) es scm).
  { induction es as [|[k e] es IH]; intros [|te scm] Hl; simpl in *;
      try discriminate.
    - split; [constructor | done].
    - rewrite andb_true_iff, andb_true_iff, IH by lia.
      rewrite bool_decide_eq_true. unfold Entry.isMaterialized.
      split.
      + intros [[_ Hh] Hrest]. by constructor.
      + intros H. inversion H; subst. simpl in *.
        repeat split; try done. by rewrite H3. }
  specialize (Hall (entries d) (tree_entries t) Hlen).
  destruct (forallb _ _) eqn:Hfb.
  - split.
    + intros [= <-]. exists t. repeat split; try done. by apply Hall.
    + intros (t' & [= <-] & -> & _). done.
  - split; [discriminate|].
    intros (t' & [= <-] & _ & _ & HF). apply Hall in HF. discriminate.
Qed.

(** Whenever the directory is dematerialized, none of its entries is
    materialized. *)
Lemma tryToDematerialize_no_materialized_entry (d : Dir) (tree : option Tree)
    (h : Hash) (nm : PathComponent) (e : Entry) :
  tryToDematerialize d tree = Some h ->
  PathMap.find nm (entries d) = Some e ->
  Entry.isMaterialized e = false.
Proof.
  intros Hsome Hfind. apply tryToDematerialize_Some in Hsome.
  destruct Hsome as (t & _ & _ & _ & HF).
  revert Hfind. induction HF as [|[k e'] te es scm Hh HF IH]; simpl;
    [discriminate|].
  destruct (String.eqb k nm); [|done].
  intros [= <-]. unfold Entry.isMaterialized. simpl in Hh. by rewrite Hh.
Qed.

(** C3, the failing input: the directory lists [b] where the tree lists
    [a], with the same hash; after a normal checkout the directory is
    dematerialized to the hash of the tree and its overlay record is gone. *)
Lemma saveOverlayPostCheckout_does_not_compare_names :
  let st' := snd (saveOverlayPostCheckout NORMAL 1 (Some Examples.tree_a)
                    Examples.renamedMount) in
  PathMap.keys (entries Examples.renamedDir) = ["b"]
  /\ map te_name (tree_entries Examples.tree_a) = ["a"]
  /\ inodes st' !! 1 =
       Some (TreeInode Examples.rootLocation
               (Dir.setTreeHash (Some (tree_hash Examples.tree_a))
                  Examples.renamedDir))
  /\ overlay st' !! 1 = None.
Proof. repeat split; vm_compute; reflexivity. Qed.

(** ** The merge walk leaves untracked entries alone *)

Section MergeWalkFrame.
Import PathMapFacts.
Variable nm : PathComponent.
Variable this : InodeNumber.

Implicit Types (tbl : gmap Z InodeObject) (cs : list Conflict).












End MergeWalkFrame.



(** ** Remove: bounded retries *)

Lemma removeEvents_app (a b : list Event) :
  removeEvents (a ++ b) = removeEvents a ++ removeEvents b.
Proof. apply List.filter_app. Qed.

Ltac ev_leaf :=
  unfold keepsRemoveEvents in *; simpl_mount;
  rewrite ?removeEvents_app; simpl; rewrite ?app_nil_r; try done.

(** Run a called function by a lemma about it, then go on. *)
Ltac wp_call lem :=
  first [ apply wp_bind; eapply wp_consequence; [eapply lem|]
        | eapply wp_consequence; [eapply lem|] ].

Section RemoveRetries.

Lemma childMaterialized_events (E : list Event) (budget : nat) (this : InodeNumber)
    (nm : PathComponent) (child : InodeNumber) (st : Mount) :
  removeEvents (events st) = E ->
  wp (childMaterialized budget this nm child) (keepsRemoveEvents E) st.
Proof.
  revert this nm child st. induction budget as [|b IH];
    intros this nm child st H0; simpl.
  - wp_go. ev_leaf.
  - wp_go; try solve [ev_leaf].
    apply IH. ev_leaf.
Qed.

Lemma notifyParentMaterialized_events (E : list Event) (this : InodeNumber) (st : Mount) :
  removeEvents (events st) = E ->
  wp (notifyParentMaterialized this) (keepsRemoveEvents E) st.
Proof.
  intros H0. unfold notifyParentMaterialized.
  wp_go; try solve [ev_leaf]. by apply childMaterialized_events.
Qed.

Lemma materialize_events (E : list Event) (this : InodeNumber) (lock : bool) (st : Mount) :
  removeEvents (events st) = E ->
  wp (materialize this lock) (keepsRemoveEvents E) st.
Proof.
  intros H0. unfold materialize.
  wp_go; try solve [ev_leaf].
  all: apply notifyParentMaterialized_events; ev_leaf.
Qed.

Lemma checkPreRemove_events (E : list Event) k (child : InodeNumber) (st : Mount) :
  removeEvents (events st) = E ->
  wp (checkPreRemove k child) (keepsRemoveEvents E) st.
Proof.
  intros H0. unfold checkPreRemove. destruct k; wp_go; ev_leaf.
Qed.

Lemma markUnlinked_events (E : list Event) (child : InodeNumber) (st : Mount) :
  removeEvents (events st) = E ->
  wp (markUnlinked child) (keepsRemoveEvents E) st.
Proof.
  intros H0. unfold markUnlinked. wp_go; ev_leaf.
Qed.

Lemma tryRemoveChild_events (E : list Event) k (this : InodeNumber)
    (nm : PathComponent) (child : option InodeNumber) (flush : bool)
    (st : Mount) :
  removeEvents (events st) = E ->
  wp (tryRemoveChild k this nm child flush) (keepsRemoveEvents E) st.
Proof.
  intros H0. unfold tryRemoveChild, checkPreRemove, markUnlinked.
  wp_call materialize_events; [done|].
  intros [[]|e|w] st1 H1; [|ev_leaf..].
  destruct k; wp_go; try solve [ev_leaf].
  all: destruct (hasFuseChannel (config st1)); ev_leaf.
Qed.

Variable lookupInode : InodeNumber -> M InodeNumber.
Hypothesis lookupInode_events :
  forall n st,
    removeEvents (events (snd (lookupInode n st))) = removeEvents (events st).

Lemma getOrLoadChild_events (E : list Event) (this : InodeNumber)
    (nm : PathComponent) (st : Mount) :
  removeEvents (events st) = E ->
  wp (getOrLoadChild lookupInode this nm) (keepsRemoveEvents E) st.
Proof.
  intros H0. unfold getOrLoadChild.
  wp_go; try solve [ev_leaf].
  - apply wp_pure; [apply startLoadingInodeNoThrow_state|].
    intros [r|e0|w]; wp_go; ev_leaf.
  - apply wp_pure; [apply startLoadingInodeNoThrow_state|].
    intros [r|e0|w]; wp_go; ev_leaf.
  - unfold wp, keepsRemoveEvents. by rewrite lookupInode_events.
Qed.

Variable interference : Z -> gmap Z InodeObject -> gmap Z InodeObject.

Lemma removeImpl_trace (budget : nat) (k : InodeKind) (this : InodeNumber)
    (nm : PathComponent) (child : InodeNumber) (a : Z) (st : Mount) :
  wp (removeImpl lookupInode interference budget k this nm child a)
    (fun o st' =>
       exists new,
         removeEvents (events st') = removeEvents (events st) ++ new
         /\ removeTrace this nm a new o) st.
Proof.
  revert child a st. induction budget as [|b IH]; intros child a st; simpl.
  - wp_go. exists []. rewrite app_nil_r. split; [done|]. by constructor.
  - unfold checkPreRemove.
    assert (Hbefore : forall (o : Outcome unit) st', o <> Ok tt ->
              removeEvents (events st') = removeEvents (events st) ->
              exists new,
                removeEvents (events st') = removeEvents (events st) ++ new
                /\ removeTrace this nm a new o).
    { intros o st' Ho He. exists []. rewrite app_nil_r. split; [done|].
      by constructor. }
    assert (Hrest : forall st1,
      removeEvents (events st1) = removeEvents (events st) ->
      wp (let! myPath := getPath this in
          match myPath with
          | None => throw (InodeError ENOENT)
          | Some myPath =>
              let targetName := myPath ++ [nm] in
              let! isFuse := gets (fun st => isFuseRequest (config st)) in
              let flushKernelCache := negb isFuse in
              modify (fun st =>
                        withInodes (interference a (inodes st)) st) ;;;
              let! errnoValue :=
                tryRemoveChild k this nm None flushKernelCache in
              logEvent (EvRemoveAttempt this nm a errnoValue) ;;;
              if errnoValue =? 0 then addDelta (REMOVED targetName)
              else if negb (errnoValue =? EBADF) then
                throw (InodeError errnoValue)
              else if a >? kMaxRemoveRetries then
                throw (InodeError EIO)
              else
                logEvent (EvReloadChild this nm a) ;;;
                let! loadedChild := getOrLoadChild lookupInode this nm in
                removeImpl lookupInode interference b k this nm loadedChild
                  (a + 1)
          end)
        (fun o st' =>
           exists new,
             removeEvents (events st') = removeEvents (events st) ++ new
             /\ removeTrace this nm a new o) st1).
    { intros st1 H1. apply wp_bind. apply wp_pure; [done|].
      intros [[p|]|e|w]; try solve [apply Hbefore; done].
      cbv zeta. wp_go.
      wp_call tryRemoveChild_events; [simpl_mount; exact H1|].
      intros [errno|e|w] st2 H2; try solve [apply Hbefore; done].
      unfold keepsRemoveEvents in H2.
      wp_go.
      - (* removed *)
        apply Z.eqb_eq in Heqb0. subst errno.
        exists [EvRemoveAttempt this nm a 0]. split; [|constructor].
        ev_leaf. by rewrite H2.
      - (* another error *)
        apply Z.eqb_neq in Heqb0. apply Z.eqb_neq in Heqb1.
        exists [EvRemoveAttempt this nm a errno]. split; [|by constructor].
        ev_leaf. by rewrite H2.
      - (* the sentinel, past the limit *)
        apply Z.eqb_eq in Heqb1. subst errno.
        exists [EvRemoveAttempt this nm a EBADF].
        split; [|constructor; lia]. ev_leaf. by rewrite H2.
      - (* the sentinel, within the limit: reload and retry *)
        apply Z.eqb_eq in Heqb1. subst errno.
        assert (Hle : a <= kMaxRemoveRetries) by lia.
        wp_call getOrLoadChild_events; [reflexivity|].
        intros [loaded|e|w] st3 H3; unfold keepsRemoveEvents in H3;
          simpl_mount; rewrite !removeEvents_app, H2 in H3; simpl in H3.
        + eapply wp_consequence; [apply (IH loaded (a + 1) st3)|].
          intros o st4 (new & Hnew & Htr).
          exists (EvRemoveAttempt this nm a EBADF
                    :: EvReloadChild this nm a :: new).
          split; [|by constructor].
          rewrite Hnew, H3, <- !app_assoc. done.
        + eexists. split; [rewrite H3, <- app_assoc; reflexivity|].
          simpl. by constructor.
        + eexists. split; [rewrite H3, <- app_assoc; reflexivity|].
          simpl. by constructor. }
    destruct k;
      repeat (lazymatch goal with
              | |- wp (bind (getPath _) _) _ _ => fail
              | _ => first [wp_step | wp_case]
              end; simpl_mount);
      try solve [apply Hbefore; [done|ev_leaf]].
    all: by apply Hrest.
Qed.

Lemma removeImpl_unfold b k this nm child a :
  removeImpl lookupInode interference (S b) k this nm child a =
  removeStep lookupInode interference
    (removeImpl lookupInode interference b k this nm) k this nm child a.
Proof. reflexivity. Qed.

Lemma bind_ext {A B} (c : M A) (k1 k2 : A -> M B) (st : Mount) :
  (forall x st', k1 x st' = k2 x st') -> bind c k1 st = bind c k2 st.
Proof.
  intros H. unfold bind. destruct (c st) as [[x|e|w] st']; [apply H|done..].
Qed.

Lemma removeStep_ext (rec1 rec2 : InodeNumber -> Z -> M unit)
    k this nm child a st :
  (a <= kMaxRemoveRetries ->
   forall c st', rec1 c (a + 1) st' = rec2 c (a + 1) st') ->
  removeStep lookupInode interference rec1 k this nm child a st =
  removeStep lookupInode interference rec2 k this nm child a st.
Proof.
  intros H. unfold removeStep.
  repeat first
    [ progress cbv zeta
    | apply bind_ext; intros
    | match goal with
      | |- (if ?b then _ else _) _ = (if ?b then _ else _) _ =>
          destruct b eqn:?
      | |- (match ?x with _ => _ end) _ = (match ?x with _ => _ end) _ =>
          destruct x eqn:?
      end
    | reflexivity ].
  apply H. lia.
Qed.

(** A budget beyond what the attempts left can use changes nothing. *)
Lemma removeImpl_budget b k this nm child a st :
  1 <= a -> kMaxRemoveRetries + 1 <= a + Z.of_nat b ->
  removeImpl lookupInode interference (S (S b)) k this nm child a st =
  removeImpl lookupInode interference (S b) k this nm child a st.
Proof.
  revert child a st. induction b as [|b IH]; intros child a st Ha Hb.
  - rewrite !removeImpl_unfold. apply removeStep_ext.
    unfold kMaxRemoveRetries in *. lia.
  - rewrite (removeImpl_unfold (S (S b))), (removeImpl_unfold (S b)).
    apply removeStep_ext. intros Hle c st'. apply IH; lia.
Qed.

Lemma removeImpl_enough_budget b k this nm child st :
  (removeBudget <= b)%nat ->
  removeImpl lookupInode interference b k this nm child 1 st =
  removeImpl lookupInode interference removeBudget k this nm child 1 st.
Proof.
  intros Hb. induction Hb as [|b Hb IH]; [done|].
  rewrite <- IH. unfold removeBudget in Hb.
  destruct b as [|b]; [simpl in Hb; lia|].
  apply removeImpl_budget; [lia|].
  unfold kMaxRemoveRetries in *. simpl in Hb. lia.
Qed.

Lemma removeTrace_reloads this nm a new o :
  removeTrace this nm a new o -> 1 <= a ->
  (length (reloadsOf new) <= Z.to_nat (kMaxRemoveRetries + 1 - a))%nat.
Proof.
  unfold kMaxRemoveRetries.
  induction 1 as [ | | | | a o Hle Ho | a evs o Hle Htr IH]; intros Ha;
    simpl; try lia.
  - unfold kMaxRemoveRetries in Hle. lia.
  - unfold kMaxRemoveRetries in Hle. specialize (IH ltac:(lia)). lia.
Qed.

(** The sentinel as the last attempt means the limit was exhausted and the
    result is [EIO]; any other errno is the result as it is. *)
Lemma removeTrace_last this nm a new o b e :
  removeTrace this nm a new o ->
  last new = Some (EvRemoveAttempt this nm b e) ->
  (e = 0 -> o = Ok tt)
  /\ (e <> 0 -> e <> EBADF -> o = Throw (InodeError e))
  /\ (e = EBADF -> b > kMaxRemoveRetries /\ o = Throw (InodeError EIO)).
Proof.
  induction 1 as [ | | | | | a evs o Hle Htr IH]; simpl; intros Hlast;
    try discriminate; try (injection Hlast as <- <-).
  - repeat split; intros; first [done | discriminate].
  - repeat split; intros; first [done | congruence].
  - repeat split; intros; first [done | discriminate | lia].
  - apply IH. destruct evs; done.
Qed.



Lemma removeTrace_other_is_last this nm a new o b e :
  removeTrace this nm a new o ->
  In (EvRemoveAttempt this nm b e) new -> e <> EBADF ->
  last new = Some (EvRemoveAttempt this nm b e).
Proof.
  induction 1 as [ | | | | | a evs o Hle Htr IH]; simpl; intros Hin Hne.
  - done.
  - destruct Hin as [[= <- <-]|[]]. done.
  - destruct Hin as [[= <- <-]|[]]. done.
  - destruct Hin as [[= <- <-]|[]]. done.
  - destruct Hin as [[= <- <-]|[[=]|[]]]. done.
  - destruct Hin as [[= <- <-]|[[=]|Hin]]; [done|].
    specialize (IH Hin Hne). destruct evs; [done|]. exact IH.
Qed.

(** A larger budget gives the same run, from any attempt on. *)
Lemma removeImpl_any_budget b b' k this nm child a st :
  1 <= a -> kMaxRemoveRetries + 1 <= a + Z.of_nat b -> (b <= b')%nat ->
  removeImpl lookupInode interference (S b') k this nm child a st =
  removeImpl lookupInode interference (S b) k this nm child a st.
Proof.
  intros Ha Hb Hle. induction Hle as [|b' Hle IH]; [done|].
  rewrite <- IH. apply removeImpl_budget; [done|lia].
Qed.
End RemoveRetries.

(** The child is unloaded before every attempt: three reloads, then [EIO]. *)
Lemma unlink_gives_up_after_three_reloads :
  let r := unlink Examples.lookupLoaded (unloadBeforeAttempt 3 "f") 3 "f"
             Examples.fileMount in
  fst r = Throw (InodeError EIO)
  /\ removeEvents (events (snd r)) =
       [EvRemoveAttempt 3 "f" 1 EBADF; EvReloadChild 3 "f" 1;
        EvRemoveAttempt 3 "f" 2 EBADF; EvReloadChild 3 "f" 2;
        EvRemoveAttempt 3 "f" 3 EBADF; EvReloadChild 3 "f" 3;
        EvRemoveAttempt 3 "f" 4 EBADF].
Proof. split; vm_compute; reflexivity. Qed.

(** ** The parent chain *)

Section Chain.
Implicit Types (tbl : gmap Z InodeObject) (l : list InodeNumber).

Lemma chainFrom_head tbl x l : chainFrom tbl x l -> exists l', l = x :: l'.
Proof. destruct 1; eauto. Qed.

Lemma chainFrom_det tbl x l1 l2 :
  chainFrom tbl x l1 -> chainFrom tbl x l2 -> l1 = l2.
Proof.
  intros H1. revert l2. induction H1 as [x o Ho Hend | x o p l Ho Hp Hu H1 IH];
    intros l2 H2; destruct H2 as [x o' Ho' Hend' | x o' p' l' Ho' Hp' Hu' H2'];
    simplify_eq; try done.
  - destruct Hend as [?|?]; congruence.
  - destruct Hend' as [?|?]; congruence.
  - f_equal. by apply IH.
Qed.

Lemma chainFrom_in_table tbl x l y :
  chainFrom tbl x l -> In y l -> is_Some (tbl !! y).
Proof.
  induction 1 as [x o Ho Hend | x o p l Ho Hp Hu H1 IH]; simpl.
  - intros [<-|[]]. eauto.
  - intros [<-|Hin]; eauto.
Qed.

(** Every member of a chain heads a suffix of it. *)
Lemma chainFrom_suffix tbl x l y :
  chainFrom tbl x l -> In y l ->
  exists l1 l2, l = l1 ++ l2 /\ chainFrom tbl y l2.
Proof.
  induction 1 as [x o Ho Hend | x o p l Ho Hp Hu H1 IH]; simpl.
  - intros [<-|[]]. exists [], [x]. split; [done|]. by econstructor.
  - intros [<-|Hin].
    + exists [], (x :: l). split; [done|]. by econstructor.
    + destruct (IH Hin) as (l1 & l2 & -> & H2).
      exists (x :: l1), l2. done.
Qed.

Lemma chainFrom_NoDup tbl x l : chainFrom tbl x l -> List.NoDup l.
Proof.
  induction 1 as [x o Ho Hend | x o p l Ho Hp Hu H1 IH].
  - constructor; [simpl; tauto | constructor].
  - constructor; [|done]. intros Hin.
    destruct (chainFrom_suffix _ _ _ _ H1 Hin) as (l1 & l2 & -> & H2).
    assert (Hx : chainFrom tbl x (x :: l1 ++ l2)) by (by econstructor).
    pose proof (chainFrom_det _ _ _ _ H2 Hx) as E.
    apply (f_equal (@length _)) in E. simpl in E.
    rewrite length_app in E. lia.
Qed.

Lemma chainFrom_locations tbl tbl' x l :
  sameLocations tbl tbl' -> chainFrom tbl x l -> chainFrom tbl' x l.
Proof.
  intros Hs. unfold sameLocations in Hs.
  induction 1 as [x o Ho Hend | x o p l Ho Hp Hu H1 IH].
  - specialize (Hs x). rewrite Ho in Hs. simpl in Hs.
    destruct (tbl' !! x) as [o'|] eqn:E; [|done]. simpl in Hs.
    injection Hs as Hs. eapply chain_top; [done|]. by rewrite Hs.
  - specialize (Hs x). rewrite Ho in Hs. simpl in Hs.
    destruct (tbl' !! x) as [o'|] eqn:E; [|done]. simpl in Hs.
    injection Hs as Hs. eapply chain_up; [done| | |done]; by rewrite Hs.
Qed.

Lemma chainFrom_length tbl x l :
  chainFrom tbl x l -> (length l <= size tbl)%nat.
Proof.
  intros H.
  assert (Hsub : list_to_set l ⊆ dom tbl).
  { intros y Hy. apply elem_of_list_to_set in Hy.
    apply elem_of_dom. eapply chainFrom_in_table; [done|].
    by apply list_elem_of_In. }
  apply subseteq_size in Hsub.
  rewrite size_dom in Hsub.
  rewrite size_list_to_set in Hsub; [done|].
  apply NoDup_ListNoDup. by eapply chainFrom_NoDup.
Qed.
End Chain.

(** ** What a walk up the parent chain changes *)

Section Shape.
Import PathMapFacts.
Implicit Types (tbl : gmap Z InodeObject) (s : list Z).

Lemma sameShapeObject_refl o : sameShapeObject o o.
Proof. destruct o as [[l d|l m]|]; simpl; done. Qed.

Lemma sameShapeObject_trans o1 o2 o3 :
  sameShapeObject o1 o2 -> sameShapeObject o2 o3 -> sameShapeObject o1 o3.
Proof.
  destruct o1 as [[l1 d1|l1 m1]|], o2 as [[l2 d2|l2 m2]|],
    o3 as [[l3 d3|l3 m3]|]; simpl; try done.
  - intros [-> ->] [-> ->]. done.
  - intros [-> ->] [-> ->]. done.
Qed.

Lemma sameShape_refl tbl : sameShape tbl tbl.
Proof. intros x. apply sameShapeObject_refl. Qed.

Lemma sameShape_trans tbl1 tbl2 tbl3 :
  sameShape tbl1 tbl2 -> sameShape tbl2 tbl3 -> sameShape tbl1 tbl3.
Proof. intros H1 H2 x. eapply sameShapeObject_trans; [apply H1|apply H2]. Qed.

Lemma sameShape_locations tbl tbl' :
  sameShape tbl tbl' -> sameLocations tbl tbl'.
Proof.
  intros H x. specialize (H x).
  destruct (tbl !! x) as [[l d|l m]|], (tbl' !! x) as [[l' d'|l' m']|];
    simpl in *; try done; destruct H as [-> _]; done.
Qed.

Lemma sameShape_put tbl x l d d' :
  tbl !! x = Some (TreeInode l d) ->
  PathMap.keys (entries d') = PathMap.keys (entries d) ->
  sameShape tbl (<[x := TreeInode l d']> tbl).
Proof.
  intros Hx Hk y. destruct (decide (x = y)) as [<-|Hne].
  - rewrite lookup_insert_eq, Hx. simpl. done.
  - rewrite lookup_insert_ne by done. apply sameShapeObject_refl.
Qed.

Lemma onlyChanges_refl s tbl : onlyChanges s tbl tbl.
Proof. by intros y _. Qed.

Lemma onlyChanges_trans s tbl1 tbl2 tbl3 :
  onlyChanges s tbl1 tbl2 -> onlyChanges s tbl2 tbl3 ->
  onlyChanges s tbl1 tbl3.
Proof. intros H1 H2 y Hy. rewrite H2, H1; done. Qed.

Lemma onlyChanges_mono s s' tbl tbl' :
  (forall y, In y s -> In y s') ->
  onlyChanges s tbl tbl' -> onlyChanges s' tbl tbl'.
Proof. intros Hsub H y Hy. apply H. intros Hin. apply Hy. by apply Hsub. Qed.

Lemma onlyChanges_put s tbl x o :
  In x s -> onlyChanges s tbl (<[x := o]> tbl).
Proof.
  intros Hx y Hy. rewrite lookup_insert_ne; [done|]. intros ->. done.
Qed.

Lemma sameAux_refl st : sameAux st st.
Proof. by repeat split. Qed.

Lemma sameAux_trans st1 st2 st3 :
  sameAux st1 st2 -> sameAux st2 st3 -> sameAux st1 st3.
Proof.
  unfold sameAux. intros (?&?&?&?&?&?&?) (?&?&?&?&?&?&?).
  repeat split; congruence.
Qed.

Lemma chainEffect_refl s st : chainEffect s st st.
Proof.
  split; [apply onlyChanges_refl|].
  split; [apply sameShape_refl|apply sameAux_refl].
Qed.

Lemma chainEffect_trans s st1 st2 st3 :
  chainEffect s st1 st2 -> chainEffect s st2 st3 -> chainEffect s st1 st3.
Proof.
  intros (H1 & H2 & H3) (H4 & H5 & H6). split; [|split].
  - by eapply onlyChanges_trans.
  - by eapply sameShape_trans.
  - by eapply sameAux_trans.
Qed.

Lemma chainEffect_mono s s' st st' :
  (forall y, In y s -> In y s') ->
  chainEffect s st st' -> chainEffect s' st st'.
Proof.
  intros Hsub (H1 & H2 & H3). split; [|done].
  by eapply onlyChanges_mono.
Qed.

Lemma chainFrom_step tbl x o p s :
  chainFrom tbl x s -> tbl !! x = Some o ->
  parent (locationOf o) = Some p -> unlinked (locationOf o) = false ->
  exists s', s = x :: s' /\ chainFrom tbl p s'.
Proof.
  intros H Hx Hp Hu. destruct H as [x o' Ho' Hend | x o' p' l' Ho' Hp' Hu' H'];
    simplify_eq.
  - destruct Hend; congruence.
  - eauto.
Qed.

Ltac effect_leaf :=
  unfold chainEffect, sameAux; simpl_mount;
  repeat split;
  first [ done
        | apply onlyChanges_refl
        | apply sameShape_refl
        | apply onlyChanges_put; simpl; tauto
        | eapply sameShape_put; [eassumption|];
          simpl; rewrite ?keys_assign; done ].

Lemma childMaterialized_effect (budget : nat) (this : Z) (nm : string)
    (child : Z) (s : list Z) (st : Mount) :
  chainFrom (inodes st) this s ->
  wp (childMaterialized budget this nm child)
    (fun _ st' => chainEffect s st st') st.
Proof.
  revert this nm child s st. induction budget as [|b IH];
    intros this nm child s st Hchain; simpl.
  - wp_go. apply chainEffect_refl.
  - destruct (chainFrom_head _ _ _ Hchain) as (s' & ->).
    wp_go; try solve [effect_leaf].
    lazymatch goal with
    | Hx : inodes st !! this = Some (TreeInode ?l _),
      Hp : parent ?l = Some ?z, Hu : unlinked ?l = false |- _ =>
        destruct (chainFrom_step _ _ _ _ _ Hchain Hx Hp Hu)
          as (s2 & [= <-] & Hz)
    end.
    eapply wp_consequence.
    + apply (IH _ _ _ s'). simpl_mount.
      eapply chainFrom_locations; [|exact Hz].
      apply sameShape_locations. eapply sameShape_put; [eassumption|].
      simpl. by rewrite keys_assign.
    + intros o st' Hst'. simpl in Hst'.
      eapply chainEffect_trans; [|eapply chainEffect_mono; [|exact Hst']].
      * effect_leaf.
      * simpl. tauto.
Qed.

Lemma notifyParentMaterialized_effect (this : Z) (s' : list Z)
    (st : Mount) :
  chainFrom (inodes st) this (this :: s') ->
  wp (notifyParentMaterialized this)
    (fun _ st' => chainEffect s' st st') st.
Proof.
  intros Hchain. unfold notifyParentMaterialized.
  wp_go; try solve [effect_leaf].
  lazymatch goal with
  | Hx : inodes st !! this = Some ?o,
    Hp : parent _ = Some ?z, Hu : unlinked _ = false |- _ =>
      destruct (chainFrom_step _ _ _ _ _ Hchain Hx Hp Hu)
        as (s2 & [= <-] & Hz)
  end.
  by apply childMaterialized_effect.
Qed.

(** [materialize] changes the directory itself only in that it becomes
    materialized, and what else it changes lies on its parent chain. *)
Lemma materialize_effect (this : Z) (lock : bool) (s : list Z)
    (l : Location) (d : Dir) (st : Mount) :
  chainFrom (inodes st) this s ->
  inodes st !! this = Some (TreeInode l d) ->
  wp (materialize this lock)
    (fun o st' =>
       chainEffect s st st'
       /\ exists d',
            inodes st' !! this = Some (TreeInode l d')
            /\ entries d' = entries d
            /\ (o = Ok tt -> treeHash d' = None)) st.
Proof.
  intros Hchain Hthis. unfold materialize.
  destruct (chainFrom_head _ _ _ Hchain) as (s' & ->).
  assert (Hnd : ~ In this s').
  { apply chainFrom_NoDup in Hchain. by inversion Hchain. }
  assert (Hmat : forall dd, Dir.isMaterialized dd = true -> treeHash dd = None).
  { intros dd. unfold Dir.isMaterialized. by destruct (treeHash dd). }
  wp_go;
    try solve [split; [effect_leaf
                      | exists d; repeat split; try done;
                        first [ by intros [=]
                              | intros _; apply Hmat;
                                first [ assumption
                                      | apply andb_true_iff in Heqb;
                                        tauto ] ] ] ].
  all: eapply wp_consequence;
    [ apply (notifyParentMaterialized_effect this s'); simpl_mount;
      eapply chainFrom_locations; [|exact Hchain];
      apply sameShape_locations; eapply sameShape_put; [eassumption|done]
    | intros o st' Hst'; split;
      [ eapply chainEffect_trans;
        [|eapply chainEffect_mono; [|exact Hst']; simpl; tauto];
        effect_leaf
      | destruct Hst' as (Honly & _ & _); simpl_mount;
        rewrite (Honly this Hnd), lookup_insert_eq;
        eexists; repeat split; done ] ].
Qed.
End Shape.

(** ** Create followed by unlink *)


(** A path computed within budget stays the same under a larger budget and
    in any table that has the same objects at the same locations. *)
Lemma getPathFrom_stable (b b' : nat) (tbl tbl' : gmap Z InodeObject)
    (x : Z) (r : option (list string)) :
  getPathFrom b tbl x = Ok r ->
  (forall y o, tbl !! y = Some o ->
     exists o', tbl' !! y = Some o' /\ locationOf o' = locationOf o) ->
  (b <= b')%nat ->
  getPathFrom b' tbl' x = Ok r.
Proof.
  revert b' x r. induction b as [|b IH]; intros b' x r Hget Hloc Hle;
    [discriminate|].
  destruct b' as [|b']; [lia|]. simpl in *.
  destruct (tbl !! x) as [o|] eqn:Hx; [|discriminate].
  destruct (Hloc _ _ Hx) as (o' & -> & ->).
  destruct (parent (locationOf o)) as [p|]; [|done].
  destruct (unlinked (locationOf o)); [done|].
  destruct (getPathFrom b tbl p) as [[path|]|e|w] eqn:Hp; try discriminate.
  - rewrite (IH b' p (Some path)); [done|done|done|lia].
  - rewrite (IH b' p None); [done|done|done|lia].
Qed.

Lemma size_insert_le (tbl : gmap Z InodeObject) (k : Z) (o : InodeObject) :
  (size tbl <= size (<[k:=o]> tbl))%nat.
Proof. rewrite map_size_insert. destruct (tbl !! k); simpl; lia. Qed.

Section CreateUnlink.
Import PathMapFacts.
Variable fileGetattr : Mount -> Z -> Outcome Attr.
Variable lookupInode : Z -> M Z.

(** What a successful [create] leaves behind. *)
Lemma create_ok (this : Z) (nm : string) (mode : Z) (s : list Z)
    (l : Location) (d : Dir) (st : Mount) :
  chainFrom (inodes st) this s ->
  inodes st !! this = Some (TreeInode l d) ->
  inodes st !! nextInodeNumber st = None ->
  PathMap.find nm (entries d) = None ->
  wp (create fileGetattr this nm mode)
    (fun o st1 =>
       match o with
       | Ok r =>
           let n := nextInodeNumber st in
           config st1 = config st
           /\ n <> this
           /\ inodes st1 !! n =
                Some (FileInode {| parent := Some this; name := nm;
                                   unlinked := false |}
                   (Z.lor S_IFREG (Z.land 4095 mode)))
           /\ (exists d1,
                 inodes st1 !! this = Some (TreeInode l d1)
                 /\ treeHash d1 = None
                 /\ entries d1 =
                      let e :=
                        EntryOfNumber (Z.lor S_IFREG (Z.land 4095 mode)) n in
                      PathMap.assign nm (Entry.setInode n e)
                        (fst (PathMap.emplace nm e (entries d))))
           /\ (exists path, fst (getPath this st1) = Ok (Some path))
       | _ => True
       end) st.
Proof.
  intros Hchain Hthis Hfresh Hfind. unfold create.
  apply wp_bind. eapply wp_consequence;
    [apply (materialize_effect this false s l d st Hchain Hthis)|].
  intros [[]|e|w] stm (Heff & dm & Hdm & Hentries & Hmat); [|done..].
  specialize (Hmat eq_refl). destruct Heff as (Honly & Hshape & Haux).
  apply wp_bind. wp_step. rewrite Hdm. cbv beta iota.
  apply wp_bind. unfold wp at 1. unfold getPath. cbn [fst snd].
  destruct (getPathFrom (S (size (inodes stm))) (inodes stm) this)
    as [[path|]|e|w] eqn:Hpath; try (by wp_go).
  assert (Hn : nextInodeNumber st <> this) by (intros E; congruence).
  assert (Hnm : inodes stm !! nextInodeNumber st = None).
  { specialize (Hshape (nextInodeNumber st)). rewrite Hfresh in Hshape.
    simpl in Hshape. by destruct (inodes stm !! nextInodeNumber st). }
  destruct Haux as (Hcfg & Hnext & Hrest).
  unfold invalidateFuseCacheIfRequired.
  wp_go; try done.
  all: unfold wp, getattrOfFile, bind, ret; cbn [fst snd];
    try destruct (hasFuseChannel (config stm)); simpl_mount.
  all: rewrite Hnext in *; rewrite lookup_insert_ne in Heqo by done;
    rewrite Hdm in Heqo; simplify_eq.
  all: match goal with |- match ?x with _ => _ end => destruct x; [|done..] end.
  all: repeat split;
    [ done | done
    | by rewrite lookup_insert_ne, lookup_insert_eq
    | eexists; rewrite lookup_insert_eq; repeat split; [done|];
      cbn; by rewrite Hentries
    | exists path; eapply getPathFrom_stable; [exact Hpath| |] ].
  all: try (apply le_n_S; etransitivity; [|apply size_insert_le];
            apply size_insert_le).
  all: intros y o Hy; destruct (decide (y = this)) as [->|Hy1];
    [ rewrite lookup_insert_eq; eexists; split; [done|];
      rewrite Hdm in Hy; by simplify_eq
    | rewrite lookup_insert_ne by done;
      destruct (decide (y = nextInodeNumber st)) as [->|Hy2];
      [ congruence | rewrite lookup_insert_ne by done; by exists o ] ].
Qed.

(** Unlinking a loaded regular file from a materialized, linked directory
    other than .eden succeeds at the first attempt when no other thread
    interferes. *)
Lemma unlink_loaded_file (this : Z) (nm : string) (n : Z) (e : Entry)
    (l ln : Location) (d1 : Dir) (m : Z) (path : list string)
    (st1 : Mount) :
  inodes st1 !! this = Some (TreeInode l d1) ->
  treeHash d1 = None ->
  PathMap.find nm (entries d1) = Some e ->
  Entry.getInode e = Some n ->
  inodes st1 !! n = Some (FileInode ln m) ->
  n <> this ->
  this <> dotEdenInodeNumber (config st1) ->
  fst (getPath this st1) = Ok (Some path) ->
  wp (unlink lookupInode (fun _ tbl => tbl) this nm)
    (fun o st2 =>
       o = Ok tt
       /\ exists d2, inodes st2 !! this = Some (TreeInode l d2)
            /\ entries d2 = PathMap.erase nm (entries d1)) st1.
Proof.
  intros Hthis Hmat Hfind Hinode Hn Hne Hdot Hpath.
  unfold unlink, getOrLoadChild.
  assert (Hm : Dir.isMaterialized d1 = true)
    by (unfold Dir.isMaterialized; by rewrite Hmat).
  apply Z.eqb_neq in Hdot.
  assert (Hp : getPath this st1 = (Ok (Some path), st1))
    by (unfold getPath in *; simpl in *; by rewrite Hpath).
  repeat (wp_step; simpl_mount;
          rewrite ?Hthis, ?Hn, ?Hfind, ?Hinode; cbv beta iota).
  unfold removeBudget. rewrite removeImpl_unfold.
  unfold removeStep, tryRemoveChild, materialize, checkPreRemove,
    markUnlinked.
  repeat (first [ wp_step
                | match goal with
                  | |- wp (getPath _) _ _ => unfold wp at 1; rewrite Hp
                  end ];
          simpl_mount;
          rewrite ?lookup_insert_eq; rewrite ?lookup_insert_ne by done;
          rewrite ?Hthis, ?Hn, ?Hfind, ?Hinode, ?Hm, ?Hdot;
          cbn [hasKind negb andb Z.eqb]; cbv beta iota).
  destruct (isFuseRequest (config st1)); cbn [negb].
  all: repeat (wp_step; simpl_mount; cbn [Z.eqb]; cbv beta iota).
  all: try destruct (hasFuseChannel (config st1)); simpl_mount.
  all: rewrite lookup_insert_eq; split; [done|]; by eexists.
Qed.
End CreateUnlink.

(** C9, counterexample: in the reserved directory .eden of the example mount
    (inode 2, empty), [create] of f succeeds, the following [unlink] of f is
    refused with EPERM, and the listing keeps the new entry. *)
Lemma create_unlink_in_dot_eden_keeps_entry :
  let r1 := create Examples.fileAttrInit 2 "f" 420 Examples.smallMount in
  let r2 := unlink Examples.lookupLoaded Examples.noInterference 2 "f"
              (snd r1) in
  fst r1 = Ok {| cr_inode := 4; cr_attr := Examples.initStat |}
  /\ fst r2 = Throw (InodeError EPERM)
  /\ inodes Examples.smallMount !! 2
     = Some (TreeInode (Examples.childOf 1 ".eden")
               (Examples.materializedDir []))
  /\ match inodes (snd r2) !! 2 with
     | Some (TreeInode _ d) => PathMap.keys (entries d)
     | _ => []
     end = ["f"].
Proof. repeat split; vm_compute; reflexivity. Qed.

Section CreateThenUnlink.
Import PathMapFacts.
Variable fileGetattr : Mount -> Z -> Outcome Attr.
Variable lookupInode : Z -> M Z.

(** C9, amended: in a loaded directory other than the reserved .eden
  directory, whose parent chain is well formed, for a name that has no
  entry, when the next inode number is unused and no other thread
  interferes: if [create] of the name succeeds, the following [unlink] of
  the name succeeds too and leaves the directory with the entries it had
  before the [create]. *)
Theorem create_then_unlink_restores_listing
  (this : Z) (nm : string) (mode : Z) (chain : list Z)
  (loc : Location) (d : Dir) (st st1 : Mount) (r : CreateResult) :
inodes st !! this = Some (TreeInode loc d) ->
chainFrom (inodes st) this chain ->
inodes st !! nextInodeNumber st = None ->
PathMap.find nm (entries d) = None ->
this <> dotEdenInodeNumber (config st) ->
create fileGetattr this nm mode st = (Ok r, st1) ->
exists st2 d2,
  unlink lookupInode Examples.noInterference this nm st1 = (Ok tt, st2)
  /\ inodes st2 !! this = Some (TreeInode loc d2)
  /\ entries d2 = entries d.
Proof.
intros Hthis Hchain Hfresh Hfind Hdot Hcreate.
pose proof (wp_run _ _ _ _ _
              (create_ok fileGetattr this nm mode chain loc d st
                 Hchain Hthis Hfresh Hfind) Hcreate) as Hc.
cbv beta iota zeta in Hc.
destruct Hc as (Hcfg & Hn & Hfile & (d1 & Hd1 & Hmat & Hent) & path & Hpath).
destruct (unlink lookupInode Examples.noInterference this nm st1)
  as [o st2] eqn:Hunlink.
assert (Hfound :
  PathMap.find nm (entries d1)
  = Some (Entry.setInode (nextInodeNumber st)
            (EntryOfNumber (Z.lor S_IFREG (Z.land 4095 mode))
               (nextInodeNumber st)))).
{ rewrite Hent. cbv zeta. by rewrite find_assign_same, find_emplace_same, Hfind. }
pose proof (wp_run _ _ _ _ _
              (unlink_loaded_file lookupInode this nm (nextInodeNumber st)
                 _ loc _ d1 _ path st1 Hd1 Hmat Hfound eq_refl Hfile Hn
                 ltac:(by rewrite Hcfg) Hpath) Hunlink) as Hu.
cbv beta in Hu. destruct Hu as (-> & d2 & Hd2 & Hent2).
exists st2, d2. repeat split; [done|].
rewrite Hent2, Hent, erase_assign. by apply erase_emplace.
Qed.
End CreateThenUnlink.

(** The directory sub (3) of the example mount: f is created and unlinked,
    and sub is empty again. *)
Lemma create_then_unlink_restores_listing_witness :
  exists st2 d2,
    unlink Examples.lookupLoaded Examples.noInterference 3 "f"
      (snd (create Examples.fileAttrInit 3 "f" 420 Examples.smallMount))
    = (Ok tt, st2)
    /\ inodes st2 !! 3 = Some (TreeInode (Examples.childOf 1 "sub") d2)
    /\ entries d2 = [].
Proof.
  apply (create_then_unlink_restores_listing Examples.fileAttrInit
           Examples.lookupLoaded 3 "f" 420 [3; 1]
           (Examples.childOf 1 "sub")
           (Examples.materializedDir []) Examples.smallMount
           (snd (create Examples.fileAttrInit 3 "f" 420 Examples.smallMount))
           {| cr_inode := 4; cr_attr := Examples.initStat |}).
  - vm_compute; reflexivity.
  - eapply chain_up; [vm_compute; reflexivity|reflexivity|reflexivity|].
    eapply chain_top; [vm_compute; reflexivity|]. by left.
  - vm_compute; reflexivity.
  - reflexivity.
  - vm_compute; discriminate.
  - apply run_result. vm_compute; reflexivity.
Defined.

(** ** Materialization monotonicity *)

Section Monotone.
Import PathMapFacts.
Implicit Types (tbl : gmap Z InodeObject).

Lemma isMaterializedInode_put tbl x l d y :
  isMaterializedInode (<[x := TreeInode l d]> tbl) y =
  if decide (x = y) then Dir.isMaterialized d else isMaterializedInode tbl y.
Proof.
  unfold isMaterializedInode. rewrite lookup_insert.
  by destruct (decide (x = y)).
Qed.

Lemma monotoneExcept_close tbl c :
  monotoneExcept c tbl -> parentMaterialized tbl c -> monotone tbl.
Proof.
  intros [Hl He] Hc x. split; [|apply He].
  destruct (decide (x = c)) as [->|Hne]; [done|by apply Hl].
Qed.

Lemma monotone_except tbl c : monotone tbl -> monotoneExcept c tbl.
Proof. intros H. split; intros x; [intros _|]; apply H. Qed.

(** The descendant form: above a materialized directory, every directory
    of the chain is materialized. *)
Lemma monotone_chain tbl x s :
  monotone tbl -> chainFrom tbl x s -> isMaterializedInode tbl x = true ->
  forall a, In a s -> isMaterializedInode tbl a = true.
Proof.
  intros Hm. induction 1 as [x o Ho Hend | x o p l Ho Hp Hu H1 IH];
    intros Hx a.
  - intros [<-|[]]. done.
  - intros [<-|Hin]; [done|]. apply IH; [|done].
    by apply (proj1 (Hm x) o p).
Qed.

Lemma monotone_put_step tbl this l d d' child :
  tbl !! this = Some (TreeInode l d) ->
  Dir.isMaterialized d' = true ->
  monotoneExcept child tbl ->
  childAt tbl child this ->
  monotoneExcept this (<[this := TreeInode l d']> tbl).
Proof.
  intros Hthis Hmat [Hl He] Hat. split.
  - intros x Hx o p Ho Hp Hu Hm.
    rewrite lookup_insert_ne in Ho by done.
    rewrite isMaterializedInode_put in *.
    destruct (decide (this = x)) as [|_]; [done|].
    destruct (decide (this = p)) as [|Hp']; [done|].
    destruct (decide (x = child)) as [->|Hc].
    + by destruct Hp'; symmetry; apply (Hat o p).
    + by apply (Hl x Hc o p).
  - intros x l0 d0 nm e Hx Hfind Hm.
    destruct (decide (this = x)) as [<-|Hne].
    + rewrite lookup_insert_eq in Hx. by simplify_eq.
    + rewrite lookup_insert_ne in Hx by done. by eapply He.
Qed.

Lemma keepsMaterialized_refl tbl : keepsMaterialized tbl tbl.
Proof. by intros x. Qed.

Lemma keepsMaterialized_trans tbl1 tbl2 tbl3 :
  keepsMaterialized tbl1 tbl2 -> keepsMaterialized tbl2 tbl3 ->
  keepsMaterialized tbl1 tbl3.
Proof. intros H1 H2 x Hx. by apply H2, H1. Qed.

Lemma keepsMaterialized_put tbl x l d :
  Dir.isMaterialized d = true ->
  keepsMaterialized tbl (<[x := TreeInode l d]> tbl).
Proof.
  intros Hd y Hy. rewrite isMaterializedInode_put. by destruct (decide (x = y)).
Qed.

Lemma find_keys {A} (m1 m2 : PathMap.t A) (n : string) :
  PathMap.keys m1 = PathMap.keys m2 ->
  is_Some (PathMap.find n m1) -> is_Some (PathMap.find n m2).
Proof.
  intros Hk [v Hv]. destruct (PathMap.find n m2) eqn:E; [by eexists|].
  apply find_None_keys in E. apply find_Some_keys in Hv. congruence.
Qed.

Lemma parentsOk_sameShape tbl tbl' :
  sameShape tbl tbl' -> parentsOk tbl -> parentsOk tbl'.
Proof.
  intros Hs Hok x o' p Hx Hp Hu.
  pose proof (Hs x) as Hsx. rewrite Hx in Hsx.
  destruct (tbl !! x) as [o|] eqn:Ho; [|by destruct o' in Hsx].
  assert (Hloc : locationOf o' = locationOf o).
  { destruct o, o'; simpl in *; tauto. }
  rewrite Hloc in *.
  destruct (Hok x o p Ho Hp Hu) as (lp & dp & e & Hpp & Hfind).
  pose proof (Hs p) as Hsp. rewrite Hpp in Hsp.
  destruct (tbl' !! p) as [[lp' dp'|]|] eqn:Hp'; simpl in Hsp; try done.
  destruct Hsp as [-> Hkeys].
  destruct (find_keys (entries dp) (entries dp') (name (locationOf o)))
    as [e' He']; [done|by eexists|].
  by exists lp, dp', e'.
Qed.

(** The walk up the parent chain that [childMaterialized] starts. *)
Lemma childMaterialized_monotone (b : nat) :
  forall (this : Z) (nm : string) (child : Z) (s : list Z) (st : Mount)
         (l : Location) (d : Dir) (e : Entry),
  chainFrom (inodes st) this s ->
  (length s <= b)%nat ->
  parentsOk (inodes st) ->
  monotoneExcept child (inodes st) ->
  childAt (inodes st) child this ->
  inodes st !! this = Some (TreeInode l d) ->
  PathMap.find nm (entries d) = Some e ->
  wp (childMaterialized b this nm child)
    (fun o st' =>
       o = Ok tt
       /\ monotone (inodes st')
       /\ (forall a, In a s -> isMaterializedInode (inodes st') a = true)
       /\ keepsMaterialized (inodes st) (inodes st')
       /\ walkPersists s st st'
       /\ inodes st' !! this =
            Some (TreeInode l
                    (if Dir.isMaterialized d && Entry.isMaterialized e then d
                     else Dir.setMaterialized
                            (Dir.setEntries
                               (PathMap.assign nm
                                  (Entry.setMaterialized child e)
                                  (entries d)) d)))) st.
Proof.
  induction b as [|b IH]; intros this nm child s st l d e Hchain Hlen Hok
    Hmono Hat Hthis Hfind.
  { destruct (chainFrom_head _ _ _ Hchain) as [s' ->]. simpl in Hlen. lia. }
  destruct (chainFrom_head _ _ _ Hchain) as [s' ->].
  pose proof (chainFrom_NoDup _ _ _ Hchain) as Hnd.
  apply List.NoDup_cons_iff in Hnd as [Hnotin Hnd].
  simpl childMaterialized.
  repeat (wp_step; simpl_mount; rewrite ?Hthis, ?Hfind; cbv beta iota).
  destruct (Dir.isMaterialized d && Entry.isMaterialized e) eqn:Hboth.
  - wp_step. simpl_mount.
    apply andb_true_iff in Hboth as [Hd He].
    assert (Hm : isMaterializedInode (inodes st) this = true)
      by (unfold isMaterializedInode; by rewrite Hthis).
    assert (Hall : monotone (inodes st)).
    { apply (monotoneExcept_close _ child); [done|].
      intros o p Ho Hp Hu _. by rewrite (Hat o p Ho Hp Hu). }
    split; [done|]. split; [done|].
    split; [by apply (monotone_chain _ this)|].
    split; [apply keepsMaterialized_refl|].
    split; [split; [done|intros a _; by left]|].
    done.
  - clear Hboth.
    set (e' := Entry.setMaterialized child e).
    set (d' := Dir.setMaterialized
                 (Dir.setEntries (PathMap.assign nm e' (entries d)) d)).
    repeat (wp_step; simpl_mount; rewrite ?Hthis, ?lookup_insert_eq;
            cbv beta iota).
    set (st1 := withOverlay _ _).
    assert (Hshape : sameShape (inodes st) (inodes st1)).
    { eapply sameShape_put; [exact Hthis|]. simpl. by rewrite keys_assign. }
    assert (Hmono1 : monotoneExcept this (inodes st1))
      by (by eapply monotone_put_step).
    assert (Hkeep1 : keepsMaterialized (inodes st) (inodes st1))
      by (by apply keepsMaterialized_put).
    assert (Hthis1 : isMaterializedInode (inodes st1) this = true)
      by (simpl; by rewrite isMaterializedInode_put, decide_True).
    assert (Hlook1 : inodes st1 !! this = Some (TreeInode l d'))
      by (simpl; by rewrite lookup_insert_eq).
    assert (Hov1 : overlay st1 = <[this := OverlayDir (persist d')]> (overlay st))
      by done.
    assert (Hin1 : inodes st1 = <[this := TreeInode l d']> (inodes st))
      by done.
    clearbody st1. simpl locationOf.
    destruct (parent l) as [p|] eqn:Hp;
      [destruct (unlinked l) eqn:Hu; simpl negb; cbv iota|].
    2: {
      (* a linked parent: the walk goes on *)
      destruct (chainFrom_step _ _ _ _ _ Hchain Hthis Hp Hu)
        as (s2 & [= <-] & Hz).
      assert (Hz1 : chainFrom (inodes st1) p s').
      { eapply chainFrom_locations; [|exact Hz].
        by apply sameShape_locations. }
      assert (Hok1 : parentsOk (inodes st1))
        by (by eapply parentsOk_sameShape).
      destruct (Hok1 this _ p Hlook1 Hp Hu) as (lp & dp & ep & Hlp & Hep).
      eapply wp_consequence.
      - apply wp_conj.
        + apply (IH p (name l) this s' st1 lp dp ep); try done.
          * simpl in Hlen. lia.
          * intros o q Ho Hq Hu'. rewrite Hlook1 in Ho.
            injection Ho as <-. simpl in Hq. congruence.
        + apply (childMaterialized_effect b p (name l) this s' st1 Hz1).
      - cbv beta.
        intros o st2 ((-> & Hmono2 & Hall2 & Hkeep2 & [Hov2 Hper2] & _)
                      & Honly2 & _ & _).
        assert (Hlook2 : inodes st2 !! this = Some (TreeInode l d'))
          by (by rewrite (Honly2 this Hnotin)).
        split; [done|]. split; [done|].
        split.
        { intros a [<-|Ha]; [by apply Hkeep2|by apply Hall2]. }
        split; [by eapply keepsMaterialized_trans|].
        split.
        { split.
          - intros y Hy. simpl in Hy.
            rewrite Hov2 by tauto. rewrite Hov1.
            apply lookup_insert_ne. tauto.
          - intros a [<-|Ha].
            + right. exists l, d'. split; [done|].
              rewrite Hov2 by done. rewrite Hov1. apply lookup_insert_eq.
            + assert (Hne : this <> a) by (by intros ->).
              destruct (Hper2 a Ha) as [[E1 E2]|Hright]; [left|by right].
              rewrite E1, E2, Hin1, Hov1.
              by rewrite !lookup_insert_ne. }
        done. }
    all: assert (Hs : this :: s' = [this])
      by (eapply chainFrom_det; [exact Hchain|];
          eapply chain_top; [exact Hthis|]; simpl; auto).
    all: injection Hs as ->.
    all: wp_step.
    all: split; [done|].
    all: split;
      [ apply (monotoneExcept_close _ this); [done|];
        intros o q Ho Hq Hu'; rewrite Hlook1 in Ho; injection Ho as <-;
        simpl in Hq, Hu'; congruence |].
    all: split; [by intros a [<-|[]]|].
    all: split; [done|].
    all: split; [|done].
    all: split;
      [ intros y Hy; rewrite Hov1; apply lookup_insert_ne; simpl in Hy; tauto
      | intros a [<-|[]]; right; exists l, d'; split; [done|];
        rewrite Hov1; apply lookup_insert_eq ].
Qed.
End Monotone.

Section WalkedUp.
Import PathMapFacts.
Implicit Types (tbl : gmap Z InodeObject).

Lemma markedBy_ext st0 st st' a nm c :
  inodes st !! a = inodes st0 !! a ->
  markedBy st st' a nm c -> markedBy st0 st' a nm c.
Proof.
  intros Hi (l & d & e & H1 & H2). exists l, d, e. by rewrite <- Hi.
Qed.

Lemma untouched_ext st0 st st' a :
  untouched st0 st a -> untouched st st' a -> untouched st0 st' a.
Proof. intros [H1 H2] [H3 H4]. split; congruence. Qed.

(** The walk reads the starting state at the directories of the chain
    only. *)
Lemma walkedUp_ext st0 st st' a nm c s :
  Forall (untouched st0 st) s ->
  walkedUp st st' a nm c s -> walkedUp st0 st' a nm c s.
Proof.
  intros Hs Hw. induction Hw as [a nm c s Hn Hu | a nm c o Hm Ho Hend
                                | a nm c o p s Hm Ho Hp Hl Hw IH].
  - apply walk_stops.
    + destruct Hn as (l & d & e & H1 & H2). exists l, d, e.
      apply Forall_cons in Hs as [[Hi _] _]. by rewrite <- Hi.
    + rewrite Forall_forall in *. intros x Hx.
      eapply untouched_ext; [by apply Hs|by apply Hu].
  - apply Forall_cons in Hs as [[Hi _] _].
    apply (walk_ends st0 st' a nm c o); [|by rewrite <- Hi|done].
    by eapply markedBy_ext.
  - apply Forall_cons in Hs as [[Hi _] Hs].
    apply (walk_goes_on st0 st' a nm c o p s); [|by rewrite <- Hi|done..|].
    + by eapply markedBy_ext.
    + by apply IH.
Qed.

Lemma monotoneButOneLink_refl st st' :
  history st' = history st -> monotoneButOneLink st st'.
Proof. intros H. exists []. by split. Qed.

(** The walk that [childMaterialized] starts, directory by directory, and
    the states it goes through. *)
Lemma childMaterialized_walkedUp (b : nat) :
  forall (this : Z) (nm : string) (child : Z) (s : list Z) (st : Mount)
         (l : Location) (d : Dir) (e : Entry),
  chainFrom (inodes st) this s ->
  (length s <= b)%nat ->
  parentsOk (inodes st) ->
  monotoneExcept child (inodes st) ->
  childAt (inodes st) child this ->
  inodes st !! this = Some (TreeInode l d) ->
  PathMap.find nm (entries d) = Some e ->
  wp (childMaterialized b this nm child)
    (fun _ st' =>
       walkedUp st st' this nm child s
       /\ (forall y, ~ In y s -> untouched st st' y)
       /\ monotoneButOneLink st st') st.
Proof.
  induction b as [|b IH]; intros this nm child s st l d e Hchain Hlen Hok
    Hmono Hat Hthis Hfind.
  { destruct (chainFrom_head _ _ _ Hchain) as [s' ->]. simpl in Hlen. lia. }
  destruct (chainFrom_head _ _ _ Hchain) as [s' ->].
  pose proof (chainFrom_NoDup _ _ _ Hchain) as Hnd.
  apply List.NoDup_cons_iff in Hnd as [Hnotin Hnd].
  simpl childMaterialized.
  repeat (wp_step; simpl_mount; rewrite ?Hthis, ?Hfind; cbv beta iota).
  destruct (Dir.isMaterialized d && Entry.isMaterialized e) eqn:Hboth.
  - wp_step. simpl_mount.
    split; [|split; [done|by apply monotoneButOneLink_refl]].
    apply walk_stops; [by exists l, d, e|].
    apply Forall_forall. by intros x _.
  - set (e' := Entry.setMaterialized child e).
    set (d' := Dir.setMaterialized
                 (Dir.setEntries (PathMap.assign nm e' (entries d)) d)).
    repeat (wp_step; simpl_mount; rewrite ?Hthis, ?lookup_insert_eq;
            cbv beta iota).
    set (st1 := withOverlay _ _).
    assert (Hshape : sameShape (inodes st) (inodes st1)).
    { eapply sameShape_put; [exact Hthis|]. simpl. by rewrite keys_assign. }
    assert (Hmono1 : monotoneExcept this (inodes st1))
      by (by eapply monotone_put_step).
    assert (Hlook1 : inodes st1 !! this = Some (TreeInode l d'))
      by (simpl; by rewrite lookup_insert_eq).
    assert (Hov1 : overlay st1 = <[this := OverlayDir (persist d')]> (overlay st))
      by done.
    assert (Hin1 : inodes st1 = <[this := TreeInode l d']> (inodes st))
      by done.
    assert (Hhist1 : history st1
                     = [(inodes st1, overlay st1); (inodes st1, overlay st)]
                       ++ history st) by done.
    assert (Hmark : forall st2, untouched st1 st2 this ->
              markedBy st st2 this nm child).
    { intros st2 [Hi Ho]. exists l, d, e. split; [done|]. split; [done|].
      split; [done|]. cbv zeta. fold e' d'. rewrite Hi, Ho, Hlook1, Hov1.
      split; [done|apply lookup_insert_eq]. }
    assert (Hout : forall y, y <> this -> untouched st st1 y).
    { intros y Hy. unfold untouched. rewrite Hin1, Hov1.
      split; by apply lookup_insert_ne. }
    assert (Hone : forall st2, monotoneButOneLink st1 st2 ->
              monotoneButOneLink st st2).
    { intros st2 (new & Hh & Hall). rewrite Hhist1, app_assoc in Hh.
      eexists. split; [exact Hh|].
      apply Forall_app. split; [done|].
      repeat constructor; by exists this. }
    clearbody st1. simpl locationOf.
    destruct (parent l) as [p|] eqn:Hp;
      [destruct (unlinked l) eqn:Hu; simpl negb; cbv iota|].
    2: {
      destruct (chainFrom_step _ _ _ _ _ Hchain Hthis Hp Hu)
        as (s2 & [= <-] & Hz).
      assert (Hz1 : chainFrom (inodes st1) p s').
      { eapply chainFrom_locations; [|exact Hz].
        by apply sameShape_locations. }
      assert (Hok1 : parentsOk (inodes st1))
        by (by eapply parentsOk_sameShape).
      destruct (Hok1 this _ p Hlook1 Hp Hu) as (lp & dp & ep & Hlp & Hep).
      eapply wp_consequence.
      - apply (IH p (name l) this s' st1 lp dp ep); try done.
        + simpl in Hlen. lia.
        + intros o q Ho Hq Hu'. rewrite Hlook1 in Ho.
          injection Ho as <-. simpl in Hq. congruence.
      - cbv beta. intros _ st2 (Hw2 & Hout2 & Hone2).
        split; [|split].
        + apply (walk_goes_on st st2 this nm child (TreeInode l d) p s');
            [by apply Hmark, Hout2|done|done|done|].
          eapply walkedUp_ext; [|exact Hw2].
          apply Forall_forall. intros x Hx. apply Hout.
          intros ->. apply Hnotin. by apply list_elem_of_In.
        + intros y Hy. simpl in Hy.
          eapply untouched_ext;
            [apply Hout; intros ->; tauto|apply Hout2; tauto].
        + by apply Hone. }
    all: assert (Hs : this :: s' = [this])
      by (eapply chainFrom_det; [exact Hchain|];
          eapply chain_top; [exact Hthis|]; simpl; auto).
    all: injection Hs as ->.
    all: wp_step.
    all: split;
      [ apply (walk_ends st st1 this nm child (TreeInode l d));
        [by apply Hmark|done|simpl; auto]
      | split;
        [ intros y Hy; apply Hout; simpl in Hy; intros ->; tauto
        | by apply Hone, monotoneButOneLink_refl ] ].
Qed.
End WalkedUp.

Section MonotoneWalk.
Import PathMapFacts.
Implicit Types (tbl : gmap Z InodeObject).

(** If any directory has a materialized descendant, it is materialized. *)
Lemma monotone_descendants tbl x s a :
  monotone tbl -> chainFrom tbl x s -> holdsMaterialized tbl x ->
  In a s -> isMaterializedInode tbl a = true.
Proof.
  intros Hm Hchain Hx. apply (monotone_chain tbl x); [done|done|].
  destruct Hx as [Hx|(l & d & nm & e & Hl & Hfind & He)]; [done|].
  unfold isMaterializedInode. rewrite Hl.
  by apply (proj2 (Hm x) l d nm e).
Qed.

(** The parent is materialized and records the child as materialized:
    nothing is written. *)
Lemma childMaterialized_nothing_to_do (b : nat) (this : Z) (nm : string)
    (child : Z) (l : Location) (d : Dir) (e : Entry) (st : Mount) :
  inodes st !! this = Some (TreeInode l d) ->
  PathMap.find nm (entries d) = Some e ->
  Dir.isMaterialized d && Entry.isMaterialized e = true ->
  wp (childMaterialized (S b) this nm child)
    (fun o st' => o = Ok tt /\ inodes st' = inodes st
                  /\ overlay st' = overlay st
                  /\ events st' =
                       events st ++ [EvChildMaterialized this nm child]) st.
Proof.
  intros Hthis Hfind Hboth. simpl childMaterialized.
  repeat (wp_step; simpl_mount; rewrite ?Hthis, ?Hfind, ?Hboth;
          cbv beta iota).
  done.
Qed.

(** C2, amended: [childMaterialized], called for a child that was just
    materialized below [this], from a state that is monotone but for that
    link, succeeds within a budget of the length of the parent chain.  It
    goes up the chain: at every directory it reaches it marks the entry
    named after the inode below materialized, with the number of that
    inode, marks the directory materialized and saves its listing; it goes
    on with the name and the number of the directory itself, and stops at
    an unlinked or parentless directory, or before at the first directory
    that is materialized and records the entry as materialized, where it
    writes nothing.  Inodes off the chain are untouched.  Every state it
    goes through is monotone but for one link; the last one is monotone: a
    directory that has a materialized descendant is materialized, and so is
    every directory of the chain. *)
Theorem childMaterialized_keeps_ancestors_materialized
    (this : Z) (nm : string) (child : Z) (s : list Z) (l : Location)
    (d : Dir) (e : Entry) (st : Mount) (b : nat) :
  chainFrom (inodes st) this s ->
  parentsOk (inodes st) ->
  monotoneExcept child (inodes st) ->
  childAt (inodes st) child this ->
  inodes st !! this = Some (TreeInode l d) ->
  PathMap.find nm (entries d) = Some e ->
  (length s <= b)%nat ->
  let r := childMaterialized b this nm child st in
  let nothingToDo := Dir.isMaterialized d && Entry.isMaterialized e in
  fst r = Ok tt
  /\ walkedUp st (snd r) this nm child s
  /\ (forall y, ~ In y s -> untouched st (snd r) y)
  /\ monotoneButOneLink st (snd r)
  /\ monotone (inodes (snd r))
  /\ parentsOk (inodes (snd r))
  /\ (forall x sx a,
        chainFrom (inodes (snd r)) x sx ->
        holdsMaterialized (inodes (snd r)) x ->
        In a sx -> isMaterializedInode (inodes (snd r)) a = true)
  /\ (forall a, In a s -> isMaterializedInode (inodes (snd r)) a = true)
  /\ inodes (snd r) !! this =
       Some (TreeInode l
               (if nothingToDo then d
                else Dir.setMaterialized
                       (Dir.setEntries
                          (PathMap.assign nm (Entry.setMaterialized child e)
                             (entries d)) d)))
  /\ walkPersists s st (snd r)
  /\ (nothingToDo = true ->
      inodes (snd r) = inodes st /\ overlay (snd r) = overlay st).
Proof.
  intros Hchain Hok Hmono Hat Hthis Hfind Hlen r nothingToDo.
  pose proof (childMaterialized_monotone b this nm child s st l d e
                Hchain Hlen Hok Hmono Hat Hthis Hfind) as H1.
  pose proof (childMaterialized_effect b this nm child s st Hchain) as H2.
  pose proof (childMaterialized_walkedUp b this nm child s st l d e
                Hchain Hlen Hok Hmono Hat Hthis Hfind) as H4.
  unfold wp in H1, H2, H4. fold r in H1, H2, H4.
  destruct H1 as (Hr & Hm & Hall & _ & Hper & Hfinal).
  destruct H2 as (_ & Hshape & _).
  destruct H4 as (Hwalk & Hout & Hone).
  split; [done|]. split; [done|]. split; [done|]. split; [done|].
  split; [done|].
  split; [by eapply parentsOk_sameShape|].
  split; [intros x sx a Hx Hh Ha; by eapply monotone_descendants|].
  split; [done|]. split; [done|]. split; [done|].
  intros Hnothing.
  destruct b as [|b'].
  { destruct (chainFrom_head _ _ _ Hchain) as [s' ->]. simpl in Hlen. lia. }
  pose proof (childMaterialized_nothing_to_do b' this nm child l d e st
                Hthis Hfind Hnothing) as H3.
  unfold wp in H3. fold r in H3. tauto.
Qed.
End MonotoneWalk.

Section MaterializeMonotone.
Implicit Types (tbl : gmap Z InodeObject).

Lemma monotone_put_self tbl this l d d' :
  tbl !! this = Some (TreeInode l d) ->
  Dir.isMaterialized d' = true ->
  monotone tbl ->
  monotoneExcept this (<[this := TreeInode l d']> tbl).
Proof.
  intros Hthis Hmat Hm. split.
  - intros x Hx o p Ho Hp Hu Hx'.
    rewrite lookup_insert_ne in Ho by done.
    rewrite isMaterializedInode_put in *.
    destruct (decide (this = x)) as [|_]; [done|].
    destruct (decide (this = p)) as [|_]; [done|].
    by apply (proj1 (Hm x) o p).
  - intros x l0 d0 nm e Hx Hfind He.
    destruct (decide (this = x)) as [<-|Hne].
    + rewrite lookup_insert_eq in Hx. by simplify_eq.
    + rewrite lookup_insert_ne in Hx by done. by eapply (proj2 (Hm x)).
Qed.

(** [materialize] keeps a monotone state monotone, and leaves the directory
    and all its ancestors materialized and every directory it changed
    persisted. *)
Lemma materialize_keeps_monotone (this : Z) (lock : bool) (s : list Z)
    (l : Location) (d : Dir) (st : Mount) :
  chainFrom (inodes st) this s ->
  parentsOk (inodes st) ->
  monotone (inodes st) ->
  inodes st !! this = Some (TreeInode l d) ->
  wp (materialize this lock)
    (fun o st' =>
       o = Ok tt
       /\ monotone (inodes st')
       /\ (forall a, In a s -> isMaterializedInode (inodes st') a = true)
       /\ walkPersists s st st') st.
Proof.
  intros Hchain Hok Hm Hthis. unfold materialize.
  destruct (chainFrom_head _ _ _ Hchain) as [s' ->].
  pose proof (chainFrom_NoDup _ _ _ Hchain) as Hnd.
  apply List.NoDup_cons_iff in Hnd as [Hnotin Hnd].
  destruct (Dir.isMaterialized d) eqn:Hd.
  - assert (Hx : isMaterializedInode (inodes st) this = true)
      by (unfold isMaterializedInode; by rewrite Hthis).
    assert (Q : forall st', st' = st ->
      Ok tt = Ok tt /\ monotone (inodes st')
      /\ (forall a, In a (this :: s') ->
            isMaterializedInode (inodes st') a = true)
      /\ walkPersists (this :: s') st st').
    { intros st' ->. split; [done|]. split; [done|].
      split; [by apply (monotone_chain _ this)|].
      split; [done|]. intros a _. by left. }
    destruct lock;
      repeat (wp_step; simpl_mount; rewrite ?Hthis, ?Hd; cbn [negb andb];
              cbv beta iota); by apply Q.
  - repeat (wp_step; simpl_mount;
            rewrite ?Hthis, ?Hd, ?andb_false_r, ?lookup_insert_eq;
            cbv beta iota).
    set (d' := Dir.setMaterialized d).
    set (st1 := withOverlay _ _).
    assert (Hshape : sameShape (inodes st) (inodes st1))
      by (by eapply sameShape_put).
    assert (Hmono1 : monotoneExcept this (inodes st1))
      by (by eapply monotone_put_self).
    assert (Hthis1 : isMaterializedInode (inodes st1) this = true)
      by (simpl; by rewrite isMaterializedInode_put, decide_True).
    assert (Hlook1 : inodes st1 !! this = Some (TreeInode l d'))
      by (simpl; by rewrite lookup_insert_eq).
    assert (Hov1 : overlay st1
                   = <[this := OverlayDir (persist d')]> (overlay st))
      by done.
    assert (Hin1 : inodes st1 = <[this := TreeInode l d']> (inodes st))
      by done.
    clearbody st1. unfold notifyParentMaterialized.
    repeat (wp_step; simpl_mount; rewrite ?Hlook1; cbv beta iota).
    simpl locationOf.
    destruct (parent l) as [p|] eqn:Hp;
      [destruct (unlinked l) eqn:Hu; simpl negb; cbv iota|].
    2: {
      destruct (chainFrom_step _ _ _ _ _ Hchain Hthis Hp Hu)
        as (s2 & [= <-] & Hz).
      assert (Hz1 : chainFrom (inodes st1) p s').
      { eapply chainFrom_locations; [|exact Hz].
        by apply sameShape_locations. }
      assert (Hok1 : parentsOk (inodes st1))
        by (by eapply parentsOk_sameShape).
      destruct (Hok1 this _ p Hlook1 Hp Hu) as (lp & dp & ep & Hlp & Hep).
      repeat (wp_step; simpl_mount; cbv beta iota).
      eapply wp_consequence.
      - apply wp_conj.
        + apply (childMaterialized_monotone _ p (name l) this s' st1
                   lp dp ep); try done.
          * apply Nat.le_le_succ_r. by eapply chainFrom_length.
          * intros o q Ho Hq Hu'. rewrite Hlook1 in Ho.
            injection Ho as <-. simpl in Hq. congruence.
        + apply (childMaterialized_effect _ p (name l) this s' st1 Hz1).
      - cbv beta.
        intros o st2 ((-> & Hmono2 & Hall2 & Hkeep2 & [Hov2 Hper2] & _)
                      & Honly2 & _ & _).
        assert (Hlook2 : inodes st2 !! this = Some (TreeInode l d'))
          by (by rewrite (Honly2 this Hnotin)).
        split; [done|]. split; [done|].
        split.
        { intros a [<-|Ha]; [by apply Hkeep2|by apply Hall2]. }
        split.
        + intros y Hy. simpl in Hy.
          rewrite Hov2 by tauto. rewrite Hov1.
          apply lookup_insert_ne. tauto.
        + intros a [<-|Ha].
          * right. exists l, d'. split; [done|].
            rewrite Hov2 by done. rewrite Hov1. apply lookup_insert_eq.
          * assert (Hne : this <> a) by (by intros ->).
            destruct (Hper2 a Ha) as [[E1 E2]|Hright]; [left|by right].
            rewrite E1, E2, Hin1, Hov1.
            by rewrite !lookup_insert_ne. }
    all: assert (Hs : this :: s' = [this])
      by (eapply chainFrom_det; [exact Hchain|];
          eapply chain_top; [exact Hthis|]; simpl; auto).
    all: injection Hs as ->.
    all: wp_step.
    all: split; [done|].
    all: split;
      [ apply (monotoneExcept_close _ this); [done|];
        intros o q Ho Hq Hu'; rewrite Hlook1 in Ho; injection Ho as <-;
        simpl in Hq, Hu'; congruence |].
    all: split; [by intros a [<-|[]]|].
    all: split;
      [ intros y Hy; rewrite Hov1; apply lookup_insert_ne; simpl in Hy; tauto
      | intros a [<-|[]]; right; exists l, d'; split; [done|];
        rewrite Hov1; apply lookup_insert_eq ].
Qed.
End MaterializeMonotone.

(** C2, counterexample.  First, [c] (4) becomes materialized below three
    materialized directories: the walk updates and persists [b] (3) and
    ends at [a] (2), which is linked below the root: [a] is not persisted
    and the root is not visited.  Second, [b] (3) becomes materialized
    below two directories that are as in source control: the walk goes
    through a state in which [b] is materialized and [a] (2), its parent,
    is not, and through one in which [a] is materialized and the root is
    not. *)
Lemma materialize_walk_stops_below_the_root :
  let r := materialize 4 false Examples.deepMount in
  let r' := materialize 3 false scmChainMount in
  (fst r = Ok tt
   /\ events (snd r) =
        [EvSaveOverlayDir 4; EvChildMaterialized 3 "c" 4;
         EvSaveOverlayDir 3; EvChildMaterialized 2 "b" 3]
   /\ (locationOf <$> inodes Examples.deepMount !! 2)
      = Some {| parent := Some 1; name := "a"; unlinked := false |})
  /\ (fst r' = Ok tt
      /\ (locationOf <$> inodes scmChainMount !! 3)
         = Some {| parent := Some 2; name := "b"; unlinked := false |}
      /\ existsb (fun snap => isMaterializedInode (fst snap) 3
                              && negb (isMaterializedInode (fst snap) 2))
           (history (snd r')) = true
      /\ existsb (fun snap => isMaterializedInode (fst snap) 2
                              && negb (isMaterializedInode (fst snap) 1))
           (history (snd r')) = true).
Proof. repeat split; vm_compute; reflexivity. Qed.

(** Case analysis on the key of a lookup in a table given by inserts. *)
Ltac by_table H :=
  repeat lazymatch type of H with
  | (<[?k := _]> _) !! ?x = _ =>
      destruct (decide (k = x)) as [<-|?];
      [ rewrite lookup_insert_eq in H
      | rewrite lookup_insert_ne in H by done ]
  | ∅ !! _ = _ => rewrite lookup_empty in H; discriminate
  end.

Lemma deepInodes_parentsOk : parentsOk Examples.deepInodes.
Proof.
  intros x o p Ho Hp Hu. unfold Examples.deepInodes in Ho. by_table Ho.
  all: injection Ho as <-; simpl in Hp; try discriminate.
  all: injection Hp as <-; eexists _, _, _.
  all: split; [vm_compute; reflexivity|reflexivity].
Qed.

Lemma deepInodes_monotone : monotone Examples.deepInodes.
Proof.
  intros x. split.
  - intros o p Ho Hp Hu Hm. unfold Examples.deepInodes in Ho. by_table Ho.
    all: injection Ho as <-; simpl in Hp; try discriminate.
    all: injection Hp as <-; vm_compute; reflexivity.
  - intros l d nm e Hx Hfind He. unfold Examples.deepInodes in Hx.
    by_table Hx.
    all: injection Hx as <- <-; try reflexivity.
    discriminate.
Qed.

Lemma deepInodes_chain : chainFrom Examples.deepInodes 3 [3; 2; 1].
Proof.
  eapply chain_up; [vm_compute; reflexivity|reflexivity|reflexivity|].
  eapply chain_up; [vm_compute; reflexivity|reflexivity|reflexivity|].
  eapply chain_top; [vm_compute; reflexivity|]. by left.
Qed.

(** [c] (4) of the four-directory chain is reported to [b] (3): the walk
    marks [b] and stops at [a] (2). *)
Lemma childMaterialized_keeps_ancestors_materialized_witness :
  let r := childMaterialized 3 3 "c" 4 Examples.deepMount in
  fst r = Ok tt
  /\ walkedUp Examples.deepMount (snd r) 3 "c" 4 [3; 2; 1]
  /\ monotone (inodes (snd r))
  /\ (forall a, In a [3; 2; 1] ->
        isMaterializedInode (inodes (snd r)) a = true).
Proof.
  intros r.
  destruct (childMaterialized_keeps_ancestors_materialized
              3 "c" 4 [3; 2; 1] (Examples.childOf 2 "b")
              (Examples.materializedDir [("c", Examples.scmDirEntry 40 4)])
              (Examples.scmDirEntry 40 4) Examples.deepMount 3)
    as (H1 & H2 & _ & _ & H5 & _ & _ & H8 & _).
  - exact deepInodes_chain.
  - exact deepInodes_parentsOk.
  - apply monotone_except. exact deepInodes_monotone.
  - intros o q Ho Hp Hu. vm_compute in Ho. injection Ho as <-.
    simpl in Hp. congruence.
  - vm_compute. reflexivity.
  - reflexivity.
  - simpl. lia.
  - split; [exact H1|]. split; [exact H2|]. split; [exact H5|exact H8].
Defined.
(** ** Remove: what an attempt decides *)

Section RemoveAttempt.
Import PathMapFacts.
Variable lookupInode : InodeNumber -> M InodeNumber.
Hypothesis lookupInode_events :
  forall n st,
    removeEvents (events (snd (lookupInode n st))) = removeEvents (events st).
Variable interference : Z -> gmap Z InodeObject -> gmap Z InodeObject.

Lemma checkPreRemove_state (k : InodeKind) (c : InodeNumber) (st : Mount) :
  snd (checkPreRemove k c st) = st.
Proof.
  destruct k; [done|].
  unfold checkPreRemove, getContents, getTreeInode, getObject, bind, ret.
  destruct (inodes st !! c) as [[l d|l m]|]; [|done..].
  simpl. by destruct (negb (PathMap.empty (entries d))).
Qed.

(** What [removeImpl] does with the result of the removal attempt, once the
    checks before the attempt have passed. *)
Lemma removeImpl_attempt (b : nat) (k : InodeKind) (this : InodeNumber)
    (nm : PathComponent) (child : InodeNumber) (a : Z) (o : InodeObject)
    (path : list PathComponent) (st : Mount) :
  inodes st !! child = Some o ->
  hasKind k o = true ->
  fst (checkPreRemove k child st) = Ok 0 ->
  fst (getPath this st) = Ok (Some path) ->
  let att :=
    tryRemoveChild k this nm None (negb (isFuseRequest (config st)))
      (withInodes (interference a (inodes st)) st) in
  let logged e :=
    withEvents (events (snd att) ++ [EvRemoveAttempt this nm a e])
      (snd att) in
  removeImpl lookupInode interference (S b) k this nm child a st =
  match fst att with
  | Ok e =>
      if e =? 0 then
        (Ok tt,
         withJournal (journal (snd att) ++ [REMOVED (path ++ [nm])])
           (logged 0))
      else if negb (e =? EBADF) then (Throw (InodeError e), logged e)
      else if a >? kMaxRemoveRetries then
        (Throw (InodeError EIO), logged EBADF)
      else
        (let! loadedChild := getOrLoadChild lookupInode this nm in
         removeImpl lookupInode interference b k this nm loadedChild (a + 1))
          (withEvents
             (events (snd att)
              ++ [EvRemoveAttempt this nm a EBADF; EvReloadChild this nm a])
             (snd att))
  | Throw x => (Throw x, snd att)
  | Stuck w => (Stuck w, snd att)
  end.
Proof.
  intros Hchild Hkind Hcheck Hpath att logged.
  assert (Hc : checkPreRemove k child st = (Ok 0, st)).
  { rewrite (run_result _ _ _ Hcheck). by rewrite checkPreRemove_state. }
  assert (Hp : getPath this st = (Ok (Some path), st)).
  { by rewrite (run_result _ _ _ Hpath). }
  rewrite removeImpl_unfold. unfold removeStep.
  unfold bind at 1. unfold getObject at 1. rewrite Hchild, Hkind.
  cbn [negb]. unfold bind at 1. rewrite Hc. cbn [Z.eqb negb].
  unfold bind at 1. rewrite Hp. cbv zeta.
  unfold bind at 1. unfold gets at 1.
  unfold bind at 1. unfold modify at 1.
  unfold bind at 1. fold att.
  destruct att as [[e|x|w] sa] eqn:Hatt; cbn [fst snd]; [|done..].
  unfold logged. cbn [snd].
  unfold bind at 1. unfold logEvent at 1, modify at 1.
  destruct (e =? 0) eqn:He0.
  { apply Z.eqb_eq in He0. by subst e. }
  destruct (e =? EBADF) eqn:Heb; cbn [negb]; [|done].
  apply Z.eqb_eq in Heb. subst e.
  destruct (a >? kMaxRemoveRetries); [done|].
  unfold bind at 1. unfold logEvent at 1, modify at 1.
  simpl_mount. by rewrite <- app_assoc.
Qed.

(** The removal attempt that [removeImpl] makes answers the sentinel exactly
    when the directory is not .eden and the entry is there but its inode
    is not loaded. *)
Lemma tryRemoveChild_sentinel (k : InodeKind) (this : InodeNumber)
    (nm : PathComponent) (flush : bool) (s : list InodeNumber)
    (l : Location) (d : Dir) (st : Mount) :
  chainFrom (inodes st) this s ->
  parentsOk (inodes st) ->
  monotone (inodes st) ->
  inodes st !! this = Some (TreeInode l d) ->
  fst (tryRemoveChild k this nm None flush st) = Ok EBADF
  <-> (this <> dotEdenInodeNumber (config st)
       /\ exists ent, PathMap.find nm (entries d) = Some ent
                      /\ Entry.getInode ent = None).
Proof.
  intros Hchain Hok Hmono Hthis.
  change (wp (tryRemoveChild k this nm None flush)
            (fun o _ =>
               o = Ok EBADF
               <-> (this <> dotEdenInodeNumber (config st)
                    /\ exists ent, PathMap.find nm (entries d) = Some ent
                                   /\ Entry.getInode ent = None)) st).
  unfold tryRemoveChild. wp_step.
  eapply wp_consequence;
    [apply wp_conj;
     [apply (materialize_effect this true s l d); done
     |apply (materialize_keeps_monotone this true s l d); done]|].
  cbv beta.
  intros o stm (((Honly & Hshape & Haux) & dm & Hdm & Hent & Hmat)
                & -> & _).
  destruct Haux as (Hcfg & _).
  wp_step. wp_step. rewrite Hcfg.
  destruct (this =? dotEdenInodeNumber (config st)) eqn:Hdot.
  { apply Z.eqb_eq in Hdot. wp_step. split; [discriminate|tauto]. }
  apply Z.eqb_neq in Hdot.
  wp_step. wp_step. rewrite Hdm, Hent.
  destruct (PathMap.find nm (entries d)) as [ent|] eqn:Hfind.
  2: { wp_step. split; [discriminate|]. by intros [_ (? & ? & _)]. }
  destruct (Entry.getInode ent) as [p|] eqn:Hp.
  2: { wp_step. split; [|done]. intros _. split; [done|]. by exists ent. }
  assert (Hno : forall (o : Outcome Z), o <> Ok EBADF ->
            o = Ok EBADF
            <-> this <> dotEdenInodeNumber (config st)
                /\ (exists ent0, Some ent = Some ent0
                                 /\ Entry.getInode ent0 = None)).
  { intros o Ho. split; [done|]. intros [_ (e0 & [= <-] & He0)]. congruence. }
  unfold checkPreRemove, markUnlinked.
  destruct k; wp_go; try (apply Hno; discriminate).
  all: try destruct (hasFuseChannel (config _)); apply Hno; discriminate.
Qed.

(** Without an expected child, the removal attempt in a materialized
    directory removes the loaded inode that the entry names. *)
Lemma tryRemoveChild_removes_what_it_finds (k : InodeKind)
    (this : InodeNumber) (nm : PathComponent) (flush : bool) (l : Location)
    (d : Dir) (ent : Entry) (p : InodeNumber) (o : InodeObject)
    (st : Mount) :
  inodes st !! this = Some (TreeInode l d) ->
  Dir.isMaterialized d = true ->
  this <> dotEdenInodeNumber (config st) ->
  PathMap.find nm (entries d) = Some ent ->
  Entry.getInode ent = Some p ->
  inodes st !! p = Some o ->
  p <> this ->
  hasKind k o = true ->
  fst (checkPreRemove k p st) = Ok 0 ->
  let att := tryRemoveChild k this nm None flush st in
  fst att = Ok 0
  /\ (locationOf <$> inodes (snd att) !! p)
     = Some {| parent := parent (locationOf o); name := name (locationOf o);
               unlinked := true |}
  /\ exists d2,
       inodes (snd att) !! this = Some (TreeInode l d2)
       /\ entries d2 = PathMap.erase nm (entries d)
       /\ overlay (snd att) !! this = Some (OverlayDir (persist d2)).
Proof.
  intros Hthis Hmat Hdot Hfind Hinode Hp Hne Hkind Hcheck att.
  apply Z.eqb_neq in Hdot.
  assert (Hc : checkPreRemove k p st = (Ok 0, st)).
  { rewrite (run_result _ _ _ Hcheck). by rewrite checkPreRemove_state. }
  change (wp (tryRemoveChild k this nm None flush)
            (fun r st' =>
               r = Ok 0
               /\ (locationOf <$> inodes st' !! p)
                  = Some {| parent := parent (locationOf o);
                            name := name (locationOf o); unlinked := true |}
               /\ exists d2,
                    inodes st' !! this = Some (TreeInode l d2)
                    /\ entries d2 = PathMap.erase nm (entries d)
                    /\ overlay st' !! this = Some (OverlayDir (persist d2)))
            st).
  unfold tryRemoveChild, materialize, markUnlinked.
  repeat (first [ wp_step
                | match goal with
                  | |- wp (checkPreRemove _ _) _ _ =>
                      unfold wp at 1; rewrite Hc; cbn [fst snd]
                  end ];
          simpl_mount;
          rewrite ?Hthis, ?Hmat, ?Hdot, ?Hfind, ?Hinode, ?Hp, ?Hkind;
          cbn [negb andb Z.eqb]; cbv beta iota).
  rewrite lookup_insert_ne, Hthis by done.
  destruct flush;
    repeat (wp_step; simpl_mount; cbv beta iota).
  all: try destruct (hasFuseChannel (config st)); simpl_mount.
  all: split; [done|].
  all: split;
    [ rewrite lookup_insert_ne, lookup_insert_eq by congruence;
      by destruct o |].
  all: eexists; rewrite !lookup_insert_eq; done.
Qed.

(** C5 (amended): a remove operation, from attempt [a] on, reloads the child
    at most as often as the retry limit leaves attempts (3 times from the
    first attempt), and the budget that [unlink] and [rmdir] pass is enough.
    Once the checks before the attempt have passed, the result of the
    removal attempt decides: on success the removal is recorded in the
    journal; on an errno other than the sentinel the operation fails with
    it at once; on the sentinel past the retry limit it fails with [EIO];
    on the sentinel within the limit the child is reloaded by name and the
    operation is run again, as the next attempt, on what the reload gives,
    and a failure of the reload is the result.  The attempt answers the
    sentinel exactly when the directory is not .eden and the entry is there
    but its inode is not loaded: an entry that names another loaded inode
    is not a case for the sentinel, and in a materialized directory the
    attempt removes the loaded inode that the entry names, whichever it
    is. *)
Theorem remove_retries_on_an_unloaded_entry_up_to_the_limit
    (k : InodeKind) (this : InodeNumber) (nm : PathComponent)
    (child : InodeNumber) (a : Z) (b : nat) (st : Mount) :
  1 <= a ->
  kMaxRemoveRetries + 1 <= a + Z.of_nat b ->
  let r := removeImpl lookupInode interference (S b) k this nm child a st in
  (exists new,
     removeEvents (events (snd r)) = removeEvents (events st) ++ new
     /\ removeTrace this nm a new (fst r)
     /\ (length (reloadsOf new) <= Z.to_nat (kMaxRemoveRetries + 1 - a))%nat)
  /\ (forall b', (b <= b')%nat ->
        removeImpl lookupInode interference (S b') k this nm child a st = r)
  /\ (forall (o : InodeObject) (path : list PathComponent),
        inodes st !! child = Some o ->
        hasKind k o = true ->
        fst (checkPreRemove k child st) = Ok 0 ->
        fst (getPath this st) = Ok (Some path) ->
        let att :=
          tryRemoveChild k this nm None (negb (isFuseRequest (config st)))
            (withInodes (interference a (inodes st)) st) in
        let logged e :=
          withEvents (events (snd att) ++ [EvRemoveAttempt this nm a e])
            (snd att) in
        (fst att = Ok 0 ->
         r = (Ok tt,
              withJournal (journal (snd att) ++ [REMOVED (path ++ [nm])])
                (logged 0)))
        /\ (forall e, fst att = Ok e -> e <> 0 -> e <> EBADF ->
              r = (Throw (InodeError e), logged e))
        /\ (fst att = Ok EBADF -> a > kMaxRemoveRetries ->
              r = (Throw (InodeError EIO), logged EBADF))
        /\ (fst att = Ok EBADF -> a <= kMaxRemoveRetries ->
              let reload :=
                getOrLoadChild lookupInode this nm
                  (withEvents
                     (events (snd att)
                      ++ [EvRemoveAttempt this nm a EBADF;
                          EvReloadChild this nm a])
                     (snd att)) in
              match fst reload with
              | Ok loadedChild =>
                  r = removeImpl lookupInode interference b k this nm
                        loadedChild (a + 1) (snd reload)
              | Throw x => r = (Throw x, snd reload)
              | Stuck w => r = (Stuck w, snd reload)
              end))
  /\ (forall (flush : bool) (s : list InodeNumber) (l : Location) (d : Dir)
             (st1 : Mount),
        chainFrom (inodes st1) this s ->
        parentsOk (inodes st1) ->
        monotone (inodes st1) ->
        inodes st1 !! this = Some (TreeInode l d) ->
        fst (tryRemoveChild k this nm None flush st1) = Ok EBADF
        <-> (this <> dotEdenInodeNumber (config st1)
             /\ exists ent, PathMap.find nm (entries d) = Some ent
                            /\ Entry.getInode ent = None))
  /\ (forall (flush : bool) (l : Location) (d : Dir) (ent : Entry)
             (p : InodeNumber) (o : InodeObject) (st1 : Mount),
        inodes st1 !! this = Some (TreeInode l d) ->
        Dir.isMaterialized d = true ->
        this <> dotEdenInodeNumber (config st1) ->
        PathMap.find nm (entries d) = Some ent ->
        Entry.getInode ent = Some p ->
        inodes st1 !! p = Some o ->
        p <> this ->
        hasKind k o = true ->
        fst (checkPreRemove k p st1) = Ok 0 ->
        let att := tryRemoveChild k this nm None flush st1 in
        fst att = Ok 0
        /\ (locationOf <$> inodes (snd att) !! p)
           = Some {| parent := parent (locationOf o);
                     name := name (locationOf o); unlinked := true |}
        /\ exists d2,
             inodes (snd att) !! this = Some (TreeInode l d2)
             /\ entries d2 = PathMap.erase nm (entries d)
             /\ overlay (snd att) !! this = Some (OverlayDir (persist d2))).
Proof.
  intros Ha Hb r. split; [|split; [|split; [|split]]].
  - destruct (removeImpl_trace lookupInode lookupInode_events interference
                (S b) k this nm child a st) as (new & Hev & Htr).
    fold r in Hev, Htr. exists new. split; [done|]. split; [done|].
    by eapply removeTrace_reloads.
  - intros b' Hle. by apply removeImpl_any_budget.
  - intros o path Hchild Hkind Hcheck Hpath att logged.
    pose proof (removeImpl_attempt b k this nm child a o path st
                  Hchild Hkind Hcheck Hpath) as Hr.
    cbv zeta in Hr. fold att in Hr. fold r in Hr.
    split; [|split; [|split]].
    + intros He. by rewrite He in Hr.
    + intros e He Hne0 Hneb. rewrite He in Hr.
      apply Z.eqb_neq in Hne0, Hneb. by rewrite Hne0, Hneb in Hr.
    + intros He Hgt. rewrite He in Hr. cbn [Z.eqb EBADF negb] in Hr.
      apply Z.gtb_gt in Hgt. by rewrite Hgt in Hr.
    + intros He Hle reload. rewrite He in Hr. cbn [Z.eqb EBADF negb] in Hr.
      assert (Hgt : (a >? kMaxRemoveRetries) = false)
        by (rewrite Z.gtb_ltb; apply Z.ltb_ge; lia).
      rewrite Hgt in Hr. unfold bind in Hr. fold reload in Hr.
      rewrite Hr. rewrite (surjective_pairing reload).
      cbn [fst snd]. by destruct (fst reload).
  - intros flush s l d st1 Hchain Hok Hmono Hthis.
    by apply (tryRemoveChild_sentinel k this nm flush s l d st1).
  - intros flush l d ent p o st1.
    apply (tryRemoveChild_removes_what_it_finds k this nm flush l d ent p o
             st1).
Qed.
End RemoveAttempt.

(** C5, counterexample: between the lookup of the file [f] (4) in [sub] (3)
    and the removal attempt, the entry comes to name another loaded inode
    (9).  The attempt does not answer the sentinel: [unlink] succeeds at the
    first attempt, without a reload, and what it removes and marks unlinked
    is the other inode; the inode that was looked up is left as it was. *)
Lemma unlink_removes_a_replaced_child_without_retry :
  let r := unlink Examples.lookupLoaded (replaceBeforeAttempt 3 "f" 9) 3 "f"
             Examples.fileMount in
  fst r = Ok tt
  /\ removeEvents (events (snd r)) = [EvRemoveAttempt 3 "f" 1 0]
  /\ (locationOf <$> inodes (snd r) !! 9)
     = Some {| parent := Some 3; name := "f"; unlinked := true |}
  /\ (locationOf <$> inodes (snd r) !! 4)
     = Some {| parent := Some 3; name := "f"; unlinked := false |}
  /\ journal (snd r) = [REMOVED ["sub"; "f"]].
Proof. repeat split; vm_compute; reflexivity. Qed.

(** The table of the example mount after the file [f] of [sub] (3) was
    unloaded. *)
Lemma fileInodes_unloaded :
  unloadBeforeAttempt 3 "f" 1 Examples.fileInodes
  = <[3 := TreeInode (Examples.childOf 1 "sub")
             (Examples.materializedDir
                [("f", EntryOfNumber Examples.fileMode644 4)])]>
      Examples.fileInodes.
Proof. vm_compute. reflexivity. Qed.

Lemma fileInodes_unloaded_parentsOk :
  parentsOk (unloadBeforeAttempt 3 "f" 1 Examples.fileInodes).
Proof.
  rewrite fileInodes_unloaded.
  intros x o p Ho Hp Hu. unfold Examples.fileInodes in Ho. by_table Ho.
  all: injection Ho as <-; simpl in Hp; try discriminate.
  all: injection Hp as <-; eexists _, _, _.
  all: split; [vm_compute; reflexivity|reflexivity].
Qed.

Lemma fileInodes_unloaded_monotone :
  monotone (unloadBeforeAttempt 3 "f" 1 Examples.fileInodes).
Proof.
  rewrite fileInodes_unloaded.
  intros x. split.
  - intros o p Ho Hp Hu Hm. unfold Examples.fileInodes in Ho. by_table Ho.
    all: injection Ho as <-; simpl in Hp; try discriminate.
    all: injection Hp as <-; vm_compute; reflexivity.
  - intros l d nm e Hx Hfind He. unfold Examples.fileInodes in Hx.
    by_table Hx.
    all: try discriminate.
    all: injection Hx as <- <-; reflexivity.
Qed.

Lemma fileInodes_unloaded_chain :
  chainFrom (unloadBeforeAttempt 3 "f" 1 Examples.fileInodes) 3 [3; 1].
Proof.
  eapply chain_up; [vm_compute; reflexivity|reflexivity|reflexivity|].
  eapply chain_top; [vm_compute; reflexivity|]. by left.
Qed.

(** The file [f] (4) of [sub] (3) is unloaded before every attempt: the
    first attempt answers the sentinel, the child is reloaded, and the
    operation goes on as attempt 2 on the reloaded child. *)
Lemma remove_retries_on_an_unloaded_entry_up_to_the_limit_witness :
  let unload := unloadBeforeAttempt 3 "f" in
  let r := removeImpl Examples.lookupLoaded unload 4 FileKind 3 "f" 4 1
             Examples.fileMount in
  let att :=
    tryRemoveChild FileKind 3 "f" None false
      (withInodes (unload 1 (inodes Examples.fileMount))
         Examples.fileMount) in
  let reload :=
    getOrLoadChild Examples.lookupLoaded 3 "f"
      (withEvents
         (events (snd att)
          ++ [EvRemoveAttempt 3 "f" 1 EBADF; EvReloadChild 3 "f" 1])
         (snd att)) in
  (exists new,
     removeEvents (events (snd r))
     = removeEvents (events Examples.fileMount) ++ new
     /\ (length (reloadsOf new) <= 3)%nat)
  /\ fst att = Ok EBADF
  /\ r = removeImpl Examples.lookupLoaded unload 3 FileKind 3 "f" 4 2
           (snd reload).
Proof.
  intros unload r att reload.
  destruct (remove_retries_on_an_unloaded_entry_up_to_the_limit
              Examples.lookupLoaded ltac:(reflexivity) unload FileKind 3 "f"
              4 1 3 Examples.fileMount)
    as ((new & H1 & _ & H2) & _ & H3 & H4 & _).
  - lia.
  - unfold kMaxRemoveRetries. lia.
  - assert (Hatt : fst att = Ok EBADF).
    { apply (H4 false [3; 1] (Examples.childOf 1 "sub")
               (Examples.materializedDir
                  [("f", EntryOfNumber Examples.fileMode644 4)])).
      - exact fileInodes_unloaded_chain.
      - exact fileInodes_unloaded_parentsOk.
      - exact fileInodes_unloaded_monotone.
      - vm_compute. reflexivity.
      - split; [discriminate|]. eexists. split; reflexivity. }
    split; [by exists new|]. split; [exact Hatt|].
    destruct (H3 (FileInode (Examples.childOf 3 "f") Examples.fileMode644)
                ["sub"]) as (_ & _ & _ & H5).
    + vm_compute. reflexivity.
    + reflexivity.
    + reflexivity.
    + vm_compute. reflexivity.
    + specialize (H5 Hatt ltac:(unfold kMaxRemoveRetries; lia)).
      cbv zeta in H5.
      change (match fst reload with
              | Ok loadedChild =>
                  r = removeImpl Examples.lookupLoaded unload 3 FileKind 3
                        "f" loadedChild 2 (snd reload)
              | Throw x => r = (Throw x, snd reload)
              | Stuck w => r = (Stuck w, snd reload)
              end) in H5.
      assert (Hre : fst reload = Ok 4) by (vm_compute; reflexivity).
      rewrite Hre in H5. exact H5.
Defined.

(** ** More about materialization *)

Section MaterializeExtras.
Import PathMapFacts.

(** X1: [materialize] changes no inode outside the parent chain of the
    directory; it changes no location and no set of names, and leaves the
    journal, the inode counter, the configuration, the FUSE bookkeeping and
    the conflicts as they are. *)
Theorem materialize_touches_only_the_parent_chain (this : Z) (lock : bool)
    (s : list Z) (l : Location) (d : Dir) (st : Mount) :
  chainFrom (inodes st) this s ->
  inodes st !! this = Some (TreeInode l d) ->
  let st' := snd (materialize this lock st) in
  (forall y, ~ In y s -> inodes st' !! y = inodes st !! y)
  /\ (forall y, sameShapeObject (inodes st !! y) (inodes st' !! y))
  /\ (exists d', inodes st' !! this = Some (TreeInode l d')
                 /\ entries d' = entries d)
  /\ journal st' = journal st
  /\ nextInodeNumber st' = nextInodeNumber st
  /\ config st' = config st
  /\ fuseInvalidations st' = fuseInvalidations st
  /\ fuseRefcount st' = fuseRefcount st
  /\ conflicts st' = conflicts st.
Proof.
  intros Hchain Hthis st'.
  pose proof (materialize_effect this lock s l d st Hchain Hthis) as H.
  unfold wp in H. fold st' in H.
  destruct H as ((Honly & Hshape & Haux) & d' & Hd' & He & _).
  unfold sameAux in Haux.
  split; [exact Honly|]. split; [exact Hshape|].
  split; [by exists d'|]. tauto.
Qed.

(** X2: from a monotone state in which every linked inode is listed by its
    parent, [materialize] succeeds; afterwards the directory and all its
    ancestors are materialized, the state is monotone again, and every
    directory it changed is persisted in the overlay with its new
    contents. *)
Theorem materialize_materializes_all_ancestors (this : Z) (lock : bool)
    (s : list Z) (l : Location) (d : Dir) (st : Mount) :
  chainFrom (inodes st) this s ->
  parentsOk (inodes st) ->
  monotone (inodes st) ->
  inodes st !! this = Some (TreeInode l d) ->
  let r := materialize this lock st in
  fst r = Ok tt
  /\ monotone (inodes (snd r))
  /\ (forall a, In a s -> isMaterializedInode (inodes (snd r)) a = true)
  /\ walkPersists s st (snd r).
Proof.
  intros Hchain Hok Hm Hthis r.
  exact (materialize_keeps_monotone this lock s l d st Hchain Hok Hm Hthis).
Qed.

(** X3: a second [materialize] after a successful one does nothing: it
    succeeds and leaves the mount, the ghost logs included, as it is. *)
Theorem materialize_twice_is_materialize_once (this : Z) (lock lock' : bool)
    (s : list Z) (l : Location) (d : Dir) (st : Mount) :
  chainFrom (inodes st) this s ->
  inodes st !! this = Some (TreeInode l d) ->
  let r := materialize this lock st in
  fst r = Ok tt ->
  materialize this lock' (snd r) = (Ok tt, snd r).
Proof.
  intros Hchain Hthis r Hr.
  pose proof (materialize_effect this lock s l d st Hchain Hthis) as H.
  unfold wp in H. fold r in H.
  destruct H as (_ & d' & Hd' & _ & Hmat). specialize (Hmat Hr).
  assert (Hm : Dir.isMaterialized d' = true)
    by (unfold Dir.isMaterialized; by rewrite Hmat).
  apply wp_eq. unfold materialize.
  destruct lock';
    repeat (wp_step; simpl_mount; rewrite ?Hd', ?Hm; cbn [negb andb];
            cbv beta iota); done.
Qed.
End MaterializeExtras.

Lemma deepMount_lookup4 :
  inodes Examples.deepMount !! 4
  = Some (TreeInode (Examples.childOf 3 "c") (Examples.scmDir 40 [])).
Proof. vm_compute. reflexivity. Qed.

Lemma deepInodes_chain4 :
  chainFrom (inodes Examples.deepMount) 4 [4; 3; 2; 1].
Proof.
  eapply chain_up; [exact deepMount_lookup4|reflexivity|reflexivity|].
  exact deepInodes_chain.
Qed.

Lemma materialize_touches_only_the_parent_chain_witness :
  let st' := snd (materialize 4 false Examples.deepMount) in
  (forall y, ~ In y [4; 3; 2; 1] ->
             inodes st' !! y = inodes Examples.deepMount !! y)
  /\ journal st' = journal Examples.deepMount.
Proof.
  intros st'.
  destruct (materialize_touches_only_the_parent_chain 4 false [4; 3; 2; 1]
              (Examples.childOf 3 "c") (Examples.scmDir 40 [])
              Examples.deepMount) as (H & _ & _ & Hj & _).
  - exact deepInodes_chain4.
  - exact deepMount_lookup4.
  - split; [exact H|exact Hj].
Defined.

Lemma materialize_materializes_all_ancestors_witness :
  let r := materialize 4 false Examples.deepMount in
  fst r = Ok tt
  /\ forall a, In a [4; 3; 2; 1] ->
               isMaterializedInode (inodes (snd r)) a = true.
Proof.
  intros r.
  destruct (materialize_materializes_all_ancestors 4 false [4; 3; 2; 1]
              (Examples.childOf 3 "c") (Examples.scmDir 40 [])
              Examples.deepMount) as (H1 & _ & H3 & _).
  - exact deepInodes_chain4.
  - exact deepInodes_parentsOk.
  - exact deepInodes_monotone.
  - exact deepMount_lookup4.
  - split; [exact H1|exact H3].
Defined.

Lemma materialize_twice_is_materialize_once_witness :
  let r := materialize 4 false Examples.deepMount in
  materialize 4 true (snd r) = (Ok tt, snd r).
Proof.
  apply (materialize_twice_is_materialize_once 4 false true [4; 3; 2; 1]
           (Examples.childOf 3 "c") (Examples.scmDir 40 [])
           Examples.deepMount).
  - exact deepInodes_chain4.
  - exact deepMount_lookup4.
  - vm_compute. reflexivity.
Defined.

Section SaveBeforeTell.

Lemma childMaterialized_order (b : nat) :
  forall (this : Z) (nm : string) (child : Z) (saved : list Z) (st : Mount),
  existsb (Z.eqb child) saved = true ->
  wp (childMaterialized b this nm child)
    (fun _ st' => exists new, events st' = events st ++ new
                              /\ toldAfterSaved saved new = true) st.
Proof.
  induction b as [|b IH]; intros this nm child saved st Hchild; simpl.
  { wp_step. exists []. by rewrite app_nil_r. }
  wp_go.
  all: try solve
    [ eexists; split; [rewrite <- ?app_assoc; reflexivity|];
      simpl; by rewrite Hchild ].
  eapply wp_consequence.
  - apply (IH _ _ this (this :: saved)). simpl. by rewrite Z.eqb_refl.
  - cbv beta. intros o st' (new & Hev & Hnew). simpl_mount.
    eexists. split; [rewrite Hev, <- !app_assoc; reflexivity|].
    simpl. by rewrite Hchild.
Qed.

(** X4: [materialize] writes the directory to the overlay before it tells
    the parent, at every level of the walk up the chain: in the calls it
    makes, every [childMaterialized] about a child comes after the
    [saveOverlayDir] of that child. *)
Theorem materialize_saves_before_it_tells_the_parent (this : Z)
    (lock : bool) (st : Mount) :
  exists new,
    events (snd (materialize this lock st)) = events st ++ new
    /\ toldAfterSaved [] new = true.
Proof.
  change (wp (materialize this lock)
            (fun _ st' => exists new, events st' = events st ++ new
                                      /\ toldAfterSaved [] new = true) st).
  unfold materialize, notifyParentMaterialized.
  wp_go.
  all: try solve
    [ exists []; split; [by rewrite app_nil_r|done]
    | eexists; split; [rewrite <- ?app_assoc; reflexivity|done] ].
  eapply wp_consequence.
  - apply (childMaterialized_order _ _ _ this [this]). simpl.
    by rewrite Z.eqb_refl.
  - cbv beta. intros o st' (new & Hev & Hnew). simpl_mount.
    eexists. split; [rewrite Hev, <- !app_assoc; reflexivity|].
    simpl. done.
Qed.
End SaveBeforeTell.

Section CrashConsistency.
Import PathMapFacts.
Implicit Types (tbl : gmap Z InodeObject) (ov : gmap Z OverlayData).

Lemma entryCovered_grows ov ov' e :
  grows ov ov' -> entryCovered ov e = true -> entryCovered ov' e = true.
Proof.
  intros Hg. unfold entryCovered. rewrite !orb_true_iff.
  intros [?|H]; [by left|right].
  destruct (inodeNumber_ e) as [c|]; [|done].
  apply bool_decide_eq_true in H. apply bool_decide_eq_true. by apply Hg.
Qed.

Lemma dirCovered_grows ov ov' d :
  grows ov ov' -> dirCovered ov d = true -> dirCovered ov' d = true.
Proof.
  intros Hg. unfold dirCovered. rewrite !forallb_forall.
  intros H kv Hin. eapply entryCovered_grows; [done|]. by apply H.
Qed.

Lemma dirCovered_persist ov d : dirCovered ov (persist d) = dirCovered ov d.
Proof.
  unfold dirCovered, persist. simpl.
  induction (entries d) as [|[k e] es IH]; simpl; [done|]. by rewrite IH.
Qed.

Lemma forallb_assign (P : Entry -> bool) (nm : string) (e : Entry)
    (es : PathMap.t Entry) :
  forallb (fun kv => P (snd kv)) es = true -> P e = true ->
  forallb (fun kv => P (snd kv)) (PathMap.assign nm e es) = true.
Proof.
  intros Hes He. induction es as [|[k w] es IH]; simpl in *; [done|].
  apply andb_true_iff in Hes as [H1 H2].
  destruct (String.eqb k nm); simpl; rewrite ?He, ?H1, ?H2; simpl; auto.
Qed.

Lemma grows_insert ov c v : grows ov (<[c := v]> ov).
Proof.
  intros x Hx. destruct (decide (c = x)) as [<-|Hne].
  - rewrite lookup_insert_eq. by eexists.
  - by rewrite lookup_insert_ne.
Qed.

Lemma consistent_put tbl ov x l d :
  consistent (tbl, ov) -> dirCovered ov d = true ->
  consistent (<[x := TreeInode l d]> tbl, ov).
Proof.
  intros [Hm Hd] Hc. split; [|done]. simpl. intros p l' d' Hp.
  destruct (decide (x = p)) as [<-|Hne].
  - rewrite lookup_insert_eq in Hp. by simplify_eq.
  - rewrite lookup_insert_ne in Hp by done. by eapply Hm.
Qed.

Lemma consistent_save tbl ov x d :
  consistent (tbl, ov) -> dirCovered ov d = true ->
  consistent (tbl, <[x := OverlayDir (persist d)]> ov).
Proof.
  intros [Hm Hd] Hc. simpl in *.
  pose proof (grows_insert ov x (OverlayDir (persist d))) as Hg.
  split; simpl.
  - intros p l' d' Hp. eapply dirCovered_grows; [done|]. by eapply Hm.
  - intros p d' Hp. destruct (decide (x = p)) as [<-|Hne].
    + rewrite lookup_insert_eq in Hp. injection Hp as <-.
      rewrite dirCovered_persist. by eapply dirCovered_grows.
    + rewrite lookup_insert_ne in Hp by done.
      eapply dirCovered_grows; [done|]. by eapply Hd.
Qed.

Lemma crashSafe_refl (st : Mount) (o : Outcome unit) (st' : Mount) :
  consistent (inodes st, overlay st) ->
  history st' = history st -> inodes st' = inodes st ->
  overlay st' = overlay st ->
  crashSafe st o st'.
Proof.
  intros Hc Hh Hi Ho. exists []. rewrite Hh, Hi, Ho.
  split; [done|]. split; [constructor|]. split; [done|]. by intros c.
Qed.

Lemma crashSafe_trans (st st1 st2 : Mount) (o1 o2 : Outcome unit) :
  crashSafe st o1 st1 -> crashSafe st1 o2 st2 -> crashSafe st o2 st2.
Proof.
  intros (n1 & H1 & F1 & C1 & G1) (n2 & H2 & F2 & C2 & G2).
  exists (n2 ++ n1). rewrite H2, H1, app_assoc.
  split; [done|]. split; [by apply Forall_app|]. split; [done|].
  intros c Hc. by apply G2, G1.
Qed.

(** A directory is updated in memory, then written to the overlay. *)
Lemma put_save_crashSafe (st : Mount) (this : Z) (l : Location) (d' : Dir)
    (ev1 ev2 : list Event) (o : Outcome unit) :
  consistent (inodes st, overlay st) ->
  dirCovered (overlay st) d' = true ->
  crashSafe st o
    (withOverlay (<[this := OverlayDir (persist d')]> (overlay st))
       (withEvents ev2
          (withInodes (<[this := TreeInode l d']> (inodes st))
             (withEvents ev1 st)))).
Proof.
  intros Hc Hd. eexists [_; _]. simpl.
  pose proof (consistent_put _ _ this l d' Hc Hd) as H1.
  pose proof (consistent_save _ _ this d' H1 Hd) as H2.
  split; [reflexivity|].
  split; [constructor; [exact H2|constructor; [exact H1|constructor]]|].
  split; [done|]. apply grows_insert.
Qed.

Lemma dirCovered_mark ov (d : Dir) (nm : string) (child : Z) (e : Entry) :
  dirCovered ov d = true -> is_Some (ov !! child) ->
  dirCovered ov
    (Dir.setMaterialized
       (Dir.setEntries
          (PathMap.assign nm (Entry.setMaterialized child e) (entries d))
          d)) = true.
Proof.
  intros Hd Hc. unfold dirCovered. simpl.
  apply (forallb_assign (entryCovered ov)); [done|].
  unfold entryCovered. simpl. by apply bool_decide_eq_true.
Qed.

Lemma childMaterialized_crashSafe (b : nat) :
  forall (this : Z) (nm : string) (child : Z) (st : Mount),
  consistent (inodes st, overlay st) ->
  is_Some (overlay st !! child) ->
  wp (childMaterialized b this nm child) (crashSafe st) st.
Proof.
  induction b as [|b IH]; intros this nm child st Hc Hchild; simpl.
  { wp_step. by apply crashSafe_refl. }
  wp_go.
  all: try solve [by apply crashSafe_refl].
  all: lazymatch goal with
       | Hx : inodes _ !! ?x = Some (TreeInode ?l ?d),
         Hf : PathMap.find ?n (entries ?d) = Some ?e |- _ =>
           assert (Hd' : dirCovered (overlay st)
                     (Dir.setMaterialized
                        (Dir.setEntries
                           (PathMap.assign n (Entry.setMaterialized child e)
                              (entries d)) d)) = true)
             by (apply dirCovered_mark; [by apply (proj1 Hc x l d)|done])
       end.
  2, 3: by apply put_save_crashSafe.
  eapply wp_consequence.
  - apply IH.
    + simpl_mount. apply consistent_save; [|done]. by apply consistent_put.
    + simpl_mount. rewrite lookup_insert_eq. by eexists.
  - cbv beta. intros o st' Hst'.
    eapply crashSafe_trans; [|exact Hst'].
    by apply (put_save_crashSafe st this _ _ _ _ (Ok tt)).
Qed.

Lemma materialize_crashSafe (this : Z) (lock : bool) (st : Mount) :
  consistent (inodes st, overlay st) ->
  wp (materialize this lock) (crashSafe st) st.
Proof.
  intros Hc.
  unfold materialize, notifyParentMaterialized.
  wp_go.
  all: try solve [by apply crashSafe_refl].
  all: lazymatch goal with
       | Hx : inodes _ !! ?x = Some (TreeInode ?l ?d) |- _ =>
           assert (Hd' : dirCovered (overlay st) (Dir.setMaterialized d)
                         = true)
             by (by apply (proj1 Hc x l d))
       end.
  2, 3: by apply put_save_crashSafe.
  eapply wp_consequence.
  - apply childMaterialized_crashSafe.
    + simpl_mount. apply consistent_save; [|done]. by apply consistent_put.
    + simpl_mount. rewrite lookup_insert_eq. by eexists.
  - cbv beta. intros o st' Hst'.
    eapply crashSafe_trans; [|exact Hst'].
    by apply (put_save_crashSafe st this _ _ _ _ (Ok tt)).
Qed.

(** X5: from a state in which no directory, in memory or in the overlay,
    records as materialized a child without overlay data, every state that
    [materialize] goes through, and so every state a crash could leave, is
    such a state again; and the overlay loses no data.  This holds of every
    run, whatever its outcome. *)
Theorem materialize_is_crash_consistent (this : Z) (lock : bool)
    (st : Mount) :
  consistent (inodes st, overlay st) ->
  let st' := snd (materialize this lock st) in
  exists new,
    history st' = new ++ history st
    /\ Forall consistent new
    /\ consistent (inodes st', overlay st')
    /\ (forall c, is_Some (overlay st !! c) -> is_Some (overlay st' !! c)).
Proof. intros Hc. exact (materialize_crashSafe this lock st Hc). Qed.
End CrashConsistency.

Lemma deepMount_consistent :
  consistent (inodes Examples.deepMount, overlay Examples.deepMount).
Proof.
  split; simpl.
  - intros p l d Hp. unfold Examples.deepInodes in Hp. by_table Hp.
    all: injection Hp as <- <-; vm_compute; reflexivity.
  - intros p d Hp. unfold Examples.overlayOf in Hp.
    rewrite lookup_omap in Hp.
    destruct (decide (p = 4)) as [->|Hne].
    { rewrite lookup_delete_eq in Hp. discriminate. }
    rewrite lookup_delete_ne in Hp by done.
    destruct (Examples.deepInodes !! p) as [o|] eqn:Ho; [|discriminate].
    unfold Examples.deepInodes in Ho. by_table Ho.
    all: injection Ho as <-; simpl in Hp; injection Hp as <-.
    all: vm_compute; reflexivity.
Qed.

Lemma materialize_is_crash_consistent_witness :
  let st' := snd (materialize 4 false Examples.deepMount) in
  exists new,
    history st' = new ++ history Examples.deepMount
    /\ Forall consistent new.
Proof.
  intros st'.
  destruct (materialize_is_crash_consistent 4 false Examples.deepMount
              deepMount_consistent) as (new & H1 & H2 & _).
  exists new. split; [exact H1|exact H2].
Defined.

(** ** More about remove *)

Section RemoveExtras.
Import PathMapFacts.
Variable lookupInode : Z -> M Z.
Variable interference : Z -> gmap Z InodeObject -> gmap Z InodeObject.

Ltac known Hs :=
  repeat (wp_step; simpl_mount; Hs; cbn [hasKind negb andb Z.eqb];
          cbv beta iota).

(** X6: [unlink] of a name that is a loaded directory fails with EISDIR,
    and [rmdir] of a name that is a loaded file fails with ENOTDIR; in both
    cases the mount is left exactly as it was: the kind is checked before
    the parent is materialized. *)
Theorem remove_of_the_wrong_kind_changes_nothing (this : Z) (nm : string)
    (l : Location) (d : Dir) (e : Entry) (c : Z) (o : InodeObject)
    (st : Mount) :
  inodes st !! this = Some (TreeInode l d) ->
  PathMap.find nm (entries d) = Some e ->
  Entry.getInode e = Some c ->
  inodes st !! c = Some o ->
  (hasKind FileKind o = false ->
   unlink lookupInode interference this nm st
   = (Throw (InodeError EISDIR), st))
  /\ (hasKind TreeKind o = false ->
      rmdir lookupInode interference this nm st
      = (Throw (InodeError ENOTDIR), st)).
Proof.
  intros Hthis Hfind Hinode Hc.
  split; intros Hk; apply wp_eq; destruct o as [lc dc|lc m]; try discriminate.
  - unfold unlink, getOrLoadChild, removeBudget.
    known ltac:(rewrite ?Hthis, ?Hfind, ?Hinode, ?Hc).
    rewrite removeImpl_unfold. unfold removeStep.
    known ltac:(rewrite ?Hthis, ?Hfind, ?Hinode, ?Hc). done.
  - unfold rmdir, getOrLoadChild, removeBudget.
    known ltac:(rewrite ?Hthis, ?Hfind, ?Hinode, ?Hc).
    rewrite removeImpl_unfold. unfold removeStep.
    known ltac:(rewrite ?Hthis, ?Hfind, ?Hinode, ?Hc). done.
Qed.

(** X7: [rmdir] of a loaded directory that has entries fails with
    ENOTEMPTY and leaves the mount exactly as it was. *)
Theorem rmdir_of_a_non_empty_directory_changes_nothing (this : Z)
    (nm : string) (l : Location) (d : Dir) (e : Entry) (c : Z)
    (lc : Location) (dc : Dir) (st : Mount) :
  inodes st !! this = Some (TreeInode l d) ->
  PathMap.find nm (entries d) = Some e ->
  Entry.getInode e = Some c ->
  inodes st !! c = Some (TreeInode lc dc) ->
  entries dc <> [] ->
  rmdir lookupInode interference this nm st
  = (Throw (InodeError ENOTEMPTY), st).
Proof.
  intros Hthis Hfind Hinode Hc Hne. apply wp_eq.
  assert (He : PathMap.empty (entries dc) = false)
    by (unfold PathMap.empty; by destruct (entries dc)).
  unfold rmdir, getOrLoadChild, removeBudget.
  known ltac:(rewrite ?Hthis, ?Hfind, ?Hinode, ?Hc).
  rewrite removeImpl_unfold. unfold removeStep, checkPreRemove.
  known ltac:(rewrite ?Hthis, ?Hfind, ?Hinode, ?Hc, ?He). done.
Qed.

(** X8: [unlink] of a loaded regular file in a linked directory other than
    .eden, with no other thread interfering, succeeds at the first attempt:
    the directory and its ancestors are materialized, exactly the entry of
    that name is erased, the erased listing is saved to the overlay, the
    file inode is marked unlinked, and the journal records the removal of
    the path; inodes outside the parent chain, the file apart, are left as
    they are. *)
Theorem unlink_removes_exactly_the_entry (this : Z) (nm : string) (n : Z)
    (e : Entry) (l ln : Location) (d : Dir) (m : Z) (path : list string)
    (s : list Z) (st : Mount) :
  chainFrom (inodes st) this s ->
  parentsOk (inodes st) ->
  monotone (inodes st) ->
  inodes st !! this = Some (TreeInode l d) ->
  PathMap.find nm (entries d) = Some e ->
  Entry.getInode e = Some n ->
  inodes st !! n = Some (FileInode ln m) ->
  this <> dotEdenInodeNumber (config st) ->
  fst (getPath this st) = Ok (Some path) ->
  let r := unlink lookupInode Examples.noInterference this nm st in
  fst r = Ok tt
  /\ (exists d2,
        inodes (snd r) !! this = Some (TreeInode l d2)
        /\ entries d2 = PathMap.erase nm (entries d)
        /\ treeHash d2 = None
        /\ overlay (snd r) !! this = Some (OverlayDir (persist d2)))
  /\ inodes (snd r) !! n =
       Some (FileInode {| parent := parent ln; name := name ln;
                          unlinked := true |} m)
  /\ (forall y, ~ In y s -> y <> n ->
                inodes (snd r) !! y = inodes st !! y)
  /\ journal (snd r) = journal st ++ [REMOVED (path ++ [nm])].
Proof.
  intros Hchain Hok Hmono Hthis Hfind Hinode Hn Hdot Hpath r.
  assert (Hne : n <> this) by (intros ->; congruence).
  assert (Hin : In this s)
    by (destruct (chainFrom_head _ _ _ Hchain) as [s' ->]; by left).
  apply Z.eqb_neq in Hdot.
  assert (Hp : getPath this st = (Ok (Some path), st))
    by (unfold getPath in *; simpl in *; by rewrite Hpath).
  change (wp (unlink lookupInode Examples.noInterference this nm)
            (fun o st2 =>
               o = Ok tt
               /\ (exists d2,
                     inodes st2 !! this = Some (TreeInode l d2)
                     /\ entries d2 = PathMap.erase nm (entries d)
                     /\ treeHash d2 = None
                     /\ overlay st2 !! this = Some (OverlayDir (persist d2)))
               /\ inodes st2 !! n =
                    Some (FileInode {| parent := parent ln; name := name ln;
                                       unlinked := true |} m)
               /\ (forall y, ~ In y s -> y <> n ->
                             inodes st2 !! y = inodes st !! y)
               /\ journal st2 = journal st ++ [REMOVED (path ++ [nm])]) st).
  unfold unlink, getOrLoadChild, removeBudget.
  known ltac:(rewrite ?Hthis, ?Hfind, ?Hinode, ?Hn).
  rewrite removeImpl_unfold.
  unfold removeStep, tryRemoveChild, checkPreRemove, Examples.noInterference.
  repeat (first [ wp_step
                | match goal with
                  | |- wp (getPath _) _ _ => unfold wp at 1; rewrite Hp
                  end ];
          simpl_mount; rewrite ?Hthis, ?Hn;
          cbn [hasKind negb andb Z.eqb]; cbv beta iota).
  eapply wp_consequence;
    [apply wp_conj;
     [apply (materialize_effect this true s l d); simpl_mount; done
     |apply (materialize_keeps_monotone this true s l d); simpl_mount; done]|].
  cbv beta.
  intros o stm (((Honly & Hshape & Haux) & dm & Hdm & Hent & Hmat)
                & -> & _).
  specialize (Hmat eq_refl). simpl_mount.
  assert (Hnm : inodes stm !! n = Some (FileInode ln m)).
  { specialize (Hshape n). rewrite Hn in Hshape.
    destruct (inodes stm !! n) as [[|l' m']|]; simpl in Hshape; try done.
    by destruct Hshape as [-> ->]. }
  destruct Haux as (Hcfg & _ & Hjournal & _).
  repeat (wp_step; simpl_mount;
          rewrite ?lookup_insert_eq; rewrite ?lookup_insert_ne by done;
          rewrite ?Hdm, ?Hnm, ?Hent, ?Hfind, ?Hinode, ?Hcfg, ?Hdot;
          cbn [hasKind negb andb Z.eqb]; cbv beta iota).
  unfold markUnlinked.
  repeat (wp_step; simpl_mount;
          rewrite ?lookup_insert_eq; rewrite ?lookup_insert_ne by done;
          rewrite ?Hdm, ?Hnm, ?Hent, ?Hfind, ?Hinode, ?Hcfg, ?Hdot;
          cbn [hasKind negb andb Z.eqb]; cbv beta iota).
  destruct (isFuseRequest (config st)); cbn [negb].
  all: repeat (wp_step; simpl_mount; cbn [Z.eqb]; cbv beta iota).
  all: try destruct (hasFuseChannel (config stm)); simpl_mount.
  all: split; [done|].
  all: split;
    [ eexists; rewrite !lookup_insert_eq; split; [reflexivity|];
      simpl; done |].
  all: split;
    [ rewrite lookup_insert_ne by done; by rewrite lookup_insert_eq |].
  all: split; [|by rewrite Hjournal].
  all: intros y Hy Hyn; rewrite !lookup_insert_ne by congruence;
    by apply Honly.
Qed.

(** X9: nothing is ever removed from the .eden directory:
    [tryRemoveChild] on it answers EPERM whatever the name, the kind and
    the expected child are; no name is removed from any directory and no
    inode is marked unlinked (the directory is materialized first, though).
    *)
Theorem tryRemoveChild_never_removes_from_dot_eden (k : InodeKind)
    (this : Z) (nm : string) (child : option Z) (flush : bool)
    (s : list Z) (l : Location) (d : Dir) (st : Mount) :
  chainFrom (inodes st) this s ->
  parentsOk (inodes st) ->
  monotone (inodes st) ->
  inodes st !! this = Some (TreeInode l d) ->
  this = dotEdenInodeNumber (config st) ->
  let r := tryRemoveChild k this nm child flush st in
  fst r = Ok EPERM
  /\ (exists d', inodes (snd r) !! this = Some (TreeInode l d')
                 /\ entries d' = entries d)
  /\ (forall y, sameShapeObject (inodes st !! y) (inodes (snd r) !! y))
  /\ journal (snd r) = journal st.
Proof.
  intros Hchain Hok Hmono Hthis Hdot r.
  change (wp (tryRemoveChild k this nm child flush)
            (fun o st' =>
               o = Ok EPERM
               /\ (exists d', inodes st' !! this = Some (TreeInode l d')
                              /\ entries d' = entries d)
               /\ (forall y, sameShapeObject (inodes st !! y)
                               (inodes st' !! y))
               /\ journal st' = journal st) st).
  unfold tryRemoveChild. wp_step.
  eapply wp_consequence;
    [apply wp_conj;
     [apply (materialize_effect this true s l d); done
     |apply (materialize_keeps_monotone this true s l d); done]|].
  cbv beta.
  intros o stm (((Honly & Hshape & Haux) & dm & Hdm & Hent & Hmat)
                & -> & _).
  destruct Haux as (Hcfg & _ & Hjournal & _).
  repeat (wp_step; simpl_mount; rewrite ?Hcfg, <- ?Hdot, ?Z.eqb_refl;
          cbv beta iota).
  split; [done|]. split; [by exists dm|]. done.
Qed.
End RemoveExtras.
Lemma fileInodes_parentsOk : parentsOk Examples.fileInodes.
Proof.
  intros x o p Ho Hp Hu. unfold Examples.fileInodes in Ho. by_table Ho.
  all: injection Ho as <-; simpl in Hp; try discriminate.
  all: injection Hp as <-; eexists _, _, _.
  all: split; [vm_compute; reflexivity|reflexivity].
Qed.

Lemma fileInodes_monotone : monotone Examples.fileInodes.
Proof.
  intros x. split.
  - intros o p Ho Hp Hu Hm. unfold Examples.fileInodes in Ho. by_table Ho.
    all: injection Ho as <-; simpl in Hp; try discriminate.
    all: injection Hp as <-; vm_compute; reflexivity.
  - intros l d nm e Hx Hfind He. unfold Examples.fileInodes in Hx.
    by_table Hx.
    all: try discriminate.
    all: injection Hx as <- <-; reflexivity.
Qed.

Lemma fileInodes_chain3 : chainFrom (inodes Examples.fileMount) 3 [3; 1].
Proof.
  eapply chain_up; [vm_compute; reflexivity|reflexivity|reflexivity|].
  eapply chain_top; [vm_compute; reflexivity|]. by left.
Qed.

Lemma fileInodes_chain2 : chainFrom (inodes Examples.fileMount) 2 [2; 1].
Proof.
  eapply chain_up; [vm_compute; reflexivity|reflexivity|reflexivity|].
  eapply chain_top; [vm_compute; reflexivity|]. by left.
Qed.

(** [unlink] of the directory sub of the example mount. *)
Lemma remove_of_the_wrong_kind_changes_nothing_witness :
  unlink Examples.lookupLoaded Examples.noInterference 1 "sub"
    Examples.fileMount
  = (Throw (InodeError EISDIR), Examples.fileMount).
Proof.
  apply (proj1 (remove_of_the_wrong_kind_changes_nothing
                  Examples.lookupLoaded Examples.noInterference 1 "sub"
                  Examples.rootLocation
                  (Examples.materializedDir
                     [(".eden", Examples.loadedEntry Examples.dirMode 2);
                      ("sub", Examples.loadedEntry Examples.dirMode 3)])
                  (Examples.loadedEntry Examples.dirMode 3) 3
                  (TreeInode (Examples.childOf 1 "sub")
                     (Examples.materializedDir
                        [("f", Examples.loadedEntry Examples.fileMode644 4)]))
                  Examples.fileMount
                  ltac:(vm_compute; reflexivity) ltac:(reflexivity)
                  ltac:(reflexivity) ltac:(vm_compute; reflexivity))).
  reflexivity.
Defined.

(** [rmdir] of sub, which holds the file f. *)
Lemma rmdir_of_a_non_empty_directory_changes_nothing_witness :
  rmdir Examples.lookupLoaded Examples.noInterference 1 "sub"
    Examples.fileMount
  = (Throw (InodeError ENOTEMPTY), Examples.fileMount).
Proof.
  apply (rmdir_of_a_non_empty_directory_changes_nothing
           Examples.lookupLoaded Examples.noInterference 1 "sub"
           Examples.rootLocation
           (Examples.materializedDir
              [(".eden", Examples.loadedEntry Examples.dirMode 2);
               ("sub", Examples.loadedEntry Examples.dirMode 3)])
           (Examples.loadedEntry Examples.dirMode 3) 3
           (Examples.childOf 1 "sub")
           (Examples.materializedDir
              [("f", Examples.loadedEntry Examples.fileMode644 4)])
           Examples.fileMount).
  - vm_compute; reflexivity.
  - reflexivity.
  - reflexivity.
  - vm_compute; reflexivity.
  - discriminate.
Defined.

(** [unlink] of f in sub. *)
Lemma unlink_removes_exactly_the_entry_witness :
  let r := unlink Examples.lookupLoaded Examples.noInterference 3 "f"
             Examples.fileMount in
  fst r = Ok tt
  /\ journal (snd r) = [REMOVED ["sub"; "f"]].
Proof.
  intros r.
  destruct (unlink_removes_exactly_the_entry Examples.lookupLoaded 3 "f" 4
              (Examples.loadedEntry Examples.fileMode644 4)
              (Examples.childOf 1 "sub") (Examples.childOf 3 "f")
              (Examples.materializedDir
                 [("f", Examples.loadedEntry Examples.fileMode644 4)])
              Examples.fileMode644 ["sub"] [3; 1] Examples.fileMount
              fileInodes_chain3 fileInodes_parentsOk fileInodes_monotone
              ltac:(vm_compute; reflexivity) ltac:(reflexivity)
              ltac:(reflexivity) ltac:(vm_compute; reflexivity)
              ltac:(vm_compute; discriminate)
              ltac:(vm_compute; reflexivity))
    as (H1 & _ & _ & _ & H5).
  split; [exact H1|exact H5].
Defined.

(** A remove in .eden (2) of the example mount. *)
Lemma tryRemoveChild_never_removes_from_dot_eden_witness :
  fst (tryRemoveChild FileKind 2 "f" None false Examples.fileMount)
  = Ok EPERM.
Proof.
  apply (tryRemoveChild_never_removes_from_dot_eden FileKind 2 "f" None
           false [2; 1] (Examples.childOf 1 ".eden")
           (Examples.materializedDir []) Examples.fileMount
           fileInodes_chain2 fileInodes_parentsOk fileInodes_monotone
           ltac:(vm_compute; reflexivity) ltac:(reflexivity)).
Defined.

(** ** Inode numbers of children *)

Section ChildNumbers.
Import PathMapFacts.
Variable lookupInode : Z -> M Z.

(** What [getChildInodeNumber] computes. *)
Lemma getChildInodeNumber_eq (this : Z) (nm : string) (l : Location)
    (d : Dir) (st : Mount) :
  inodes st !! this = Some (TreeInode l d) ->
  getChildInodeNumber this nm st =
  match PathMap.find nm (entries d) with
  | None => (Throw (InodeError ENOENT), st)
  | Some e =>
      match Entry.getInode e, inodeNumber_ e with
      | Some p, _ => (Ok p, st)
      | None, Some n => (Ok n, st)
      | None, None =>
          (Ok (nextInodeNumber st),
           withInodes
             (<[this := TreeInode l
                          (Dir.setEntries
                             (PathMap.assign nm
                                (Entry.setInodeNumber (nextInodeNumber st) e)
                                (entries d)) d)]> (inodes st))
             (withNextInodeNumber (nextInodeNumber st + 1) st))
      end
  end.
Proof.
  intros Hthis.
  destruct (PathMap.find nm (entries d)) as [e|] eqn:Hfind;
    [destruct (Entry.getInode e) as [p|] eqn:Hp;
     [|destruct (inodeNumber_ e) as [k|] eqn:Hk]|].
  all: apply wp_eq; unfold getChildInodeNumber.
  all: repeat (wp_step; simpl_mount; rewrite ?Hthis, ?Hfind, ?Hp, ?Hk;
               cbv beta iota).
  all: done.
Qed.

(** X10: [getChildInodeNumber] fails with ENOENT, changing nothing, for a
    name without entry; a number it returned is returned again by the next
    call, which changes nothing; and only when the entry had neither a loaded
    inode nor a number is a number allocated, the next free one. *)
Theorem getChildInodeNumber_is_stable (this : Z) (nm : string)
    (l : Location) (d : Dir) (st : Mount) :
  inodes st !! this = Some (TreeInode l d) ->
  let r := getChildInodeNumber this nm st in
  (PathMap.find nm (entries d) = None ->
   r = (Throw (InodeError ENOENT), st))
  /\ (forall n, fst r = Ok n ->
        getChildInodeNumber this nm (snd r) = (Ok n, snd r))
  /\ (forall n e, fst r = Ok n -> PathMap.find nm (entries d) = Some e ->
        (Entry.getInode e = None -> inodeNumber_ e = None ->
         n = nextInodeNumber st
         /\ nextInodeNumber (snd r) = nextInodeNumber st + 1)
        /\ (Entry.getInode e <> None \/ inodeNumber_ e <> None ->
            snd r = st)).
Proof.
  intros Hthis r. subst r.
  rewrite (getChildInodeNumber_eq this nm l d st Hthis).
  destruct (PathMap.find nm (entries d)) as [e|] eqn:Hfind.
  2: { split; [done|]. split; [by intros n [=]|by intros n e _ [=]]. }
  split; [done|].
  destruct (Entry.getInode e) as [p|] eqn:Hp.
  { simpl. split.
    - intros n [= <-].
      by rewrite (getChildInodeNumber_eq this nm l d st Hthis), Hfind, Hp.
    - intros n e' [= <-] [= <-]. rewrite Hp. split; [done|]. done. }
  destruct (inodeNumber_ e) as [k|] eqn:Hk.
  { simpl. split.
    - intros n [= <-].
      by rewrite (getChildInodeNumber_eq this nm l d st Hthis), Hfind, Hp, Hk.
    - intros n e' [= <-] [= <-]. rewrite Hp, Hk. split; [done|]. done. }
  cbn [fst snd]. split.
  - intros n [= <-].
    erewrite getChildInodeNumber_eq
      by (simpl_mount; apply lookup_insert_eq).
    simpl. rewrite find_assign_same, Hfind. unfold Entry.getInode in *.
    simpl. by rewrite Hp.
  - intros n e' [= <-] [= <-]. rewrite Hp, Hk. split; [done|].
    intros [?|?]; done.
Qed.

Lemma getOrLoadChild_number (this : Z) (nm : string) (l : Location)
    (d : Dir) (e : Entry) (n : Z) (st : Mount) :
  inodes st !! this = Some (TreeInode l d) ->
  PathMap.find nm (entries d) = Some e ->
  Entry.getInode e = Some n
  \/ (Entry.getInode e = None /\ inodeNumber_ e = Some n) ->
  wp (getOrLoadChild lookupInode this nm)
    (fun o _ => forall m, o = Ok m -> m = n) st.
Proof.
  intros Hthis Hfind Hcase. unfold getOrLoadChild.
  wp_step. wp_step. rewrite Hthis. cbv beta iota. rewrite Hfind.
  destruct Hcase as [Hp|[Hp Hk]]; rewrite Hp.
  { wp_step. by intros m [= <-]. }
  rewrite Hk. wp_step. wp_step. cbn [fst snd]. wp_step.
  apply wp_pure; [apply startLoadingInodeNoThrow_state|].
  intros [[child|ex]|ex|w]; try done.
  all: wp_go; try done.
  all: by intros m [= <-].
Qed.

Lemma getOrLoadChild_returns (this : Z) (nm : string) (l : Location)
    (d : Dir) (e : Entry) (n : Z) (st : Mount) :
  inodes st !! this = Some (TreeInode l d) ->
  PathMap.find nm (entries d) = Some e ->
  Entry.getInode e = Some n
  \/ (Entry.getInode e = None /\ inodeNumber_ e = Some n
      /\ Entry.isDirectory e = false) ->
  fst (getOrLoadChild lookupInode this nm st) = Ok n.
Proof.
  intros Hthis Hfind Hcase.
  change (wp (getOrLoadChild lookupInode this nm) (fun o _ => o = Ok n) st).
  unfold getOrLoadChild, startLoadingInodeNoThrow.
  wp_step. wp_step. rewrite Hthis. cbv beta iota. rewrite Hfind.
  destruct Hcase as [Hp|(Hp & Hk & Hdir)]; rewrite Hp.
  { by wp_step. }
  rewrite Hk.
  repeat (wp_step; simpl_mount; cbn [fst snd];
          rewrite ?Hdir, ?Hthis, ?lookup_insert_eq; cbn [negb];
          cbv beta iota).
  done.
Qed.

(** X11: the number [getChildInodeNumber] returned for a name is the number
    under which [getOrLoadChild], called next, returns the child: it returns
    no other number, and it does return this one when the entry is loaded
    or names no directory (the load of a directory may fail). *)
Theorem getOrLoadChild_agrees_with_getChildInodeNumber (this : Z)
    (nm : string) (l : Location) (d : Dir) (e : Entry) (st : Mount)
    (n : Z) :
  inodes st !! this = Some (TreeInode l d) ->
  PathMap.find nm (entries d) = Some e ->
  fst (getChildInodeNumber this nm st) = Ok n ->
  let r := fst (getOrLoadChild lookupInode this nm
                  (snd (getChildInodeNumber this nm st))) in
  (forall m, r = Ok m -> m = n)
  /\ (Entry.getInode e <> None \/ Entry.isDirectory e = false -> r = Ok n).
Proof.
  intros Hthis Hfind Hn r. subst r.
  revert Hn. rewrite (getChildInodeNumber_eq this nm l d st Hthis), Hfind.
  destruct (Entry.getInode e) as [p|] eqn:Hp;
    [|destruct (inodeNumber_ e) as [k|] eqn:Hk].
  all: intros [= <-]; cbn [snd].
  - split.
    + intros m Hm.
      eapply (getOrLoadChild_number this nm l d e); eauto.
    + intros _. apply (getOrLoadChild_returns this nm l d e); auto.
  - split.
    + intros m Hm.
      eapply (getOrLoadChild_number this nm l d e); eauto.
    + intros [?|Hdir]; [done|].
      apply (getOrLoadChild_returns this nm l d e); auto.
  - set (e1 := Entry.setInodeNumber (nextInodeNumber st) e) in *.
    set (d1 := Dir.setEntries (PathMap.assign nm e1 (entries d)) d) in *.
    set (st1 := withInodes _ _) in *.
    assert (H1 : inodes st1 !! this = Some (TreeInode l d1))
      by apply lookup_insert_eq.
    assert (H2 : PathMap.find nm (entries d1) = Some e1)
      by (simpl; by rewrite find_assign_same, Hfind).
    split.
    + intros m Hm.
      apply (getOrLoadChild_number this nm l d1 e1 (nextInodeNumber st) st1
               H1 H2); [|exact Hm].
      right. unfold Entry.getInode in *. done.
    + intros [?|Hdir]; [done|].
      apply (getOrLoadChild_returns this nm l d1 e1 _ st1 H1 H2).
      right. unfold Entry.getInode in *. done.
Qed.
End ChildNumbers.

Lemma freshMount_root :
  inodes Examples.freshMount !! 1
  = Some (TreeInode Examples.rootLocation Examples.freshRoot).
Proof. vm_compute. reflexivity. Qed.

(** The file a of the freshly mounted root gets the number 2, once. *)
Lemma getChildInodeNumber_is_stable_witness :
  let r := getChildInodeNumber 1 "a" Examples.freshMount in
  getChildInodeNumber 1 "a" (snd r) = (Ok 2, snd r)
  /\ nextInodeNumber (snd r) = 3.
Proof.
  intros r.
  destruct (getChildInodeNumber_is_stable 1 "a" Examples.rootLocation
              Examples.freshRoot Examples.freshMount freshMount_root)
    as (_ & H2 & H3).
  split.
  - apply H2. vm_compute. reflexivity.
  - apply (H3 2 (EntryOfHash (modeFromTreeEntryType REGULAR_FILE) 11));
      reflexivity.
Defined.

(** The file a of the freshly mounted root is loaded under the number it
    was given. *)
Lemma getOrLoadChild_agrees_with_getChildInodeNumber_witness :
  fst (getOrLoadChild Examples.lookupLoaded 1 "a"
         (snd (getChildInodeNumber 1 "a" Examples.freshMount))) = Ok 2.
Proof.
  apply (proj2 (getOrLoadChild_agrees_with_getChildInodeNumber
                  Examples.lookupLoaded 1 "a" Examples.rootLocation
                  Examples.freshRoot
                  (EntryOfHash (modeFromTreeEntryType REGULAR_FILE) 11)
                  Examples.freshMount 2 freshMount_root eq_refl
                  ltac:(vm_compute; reflexivity))).
  right. reflexivity.
Defined.
Section Prelude.
Import PathMapFacts.
Implicit Types (tbl : gmap Z InodeObject).

Lemma sameShape_size tbl tbl' : sameShape tbl tbl' -> size tbl = size tbl'.
Proof.
  intros H. rewrite <- !size_dom. f_equal. apply set_eq. intros x.
  rewrite !elem_of_dom. specialize (H x).
  destruct (tbl !! x) as [[]|], (tbl' !! x) as [[]|]; simpl in H;
    try done; split; intros [? ?]; by eexists.
Qed.

Lemma getPath_sameShape tbl tbl' x r :
  sameShape tbl tbl' ->
  getPathFrom (S (size tbl)) tbl x = Ok r ->
  getPathFrom (S (size tbl')) tbl' x = Ok r.
Proof.
  intros Hs Hp. eapply getPathFrom_stable; [exact Hp| |].
  - intros y o Hy. specialize (Hs y). rewrite Hy in Hs.
    destruct o as [l d|l m], (tbl' !! y) as [[l' d'|l' m']|];
      simpl in Hs; try done; eexists; (split; [done|]); simpl; tauto.
  - by rewrite (sameShape_size tbl tbl').
Qed.

(** The common start of [create], [mkdir] and [mknod]: the directory is
    materialized, its contents are locked and its path is computed. *)
Lemma wp_prelude {A} (k : Dir -> option (list string) -> M A)
    (Q : Outcome A -> Mount -> Prop) (this : Z) (s : list Z) (l : Location)
    (d : Dir) (r : option (list string)) (st : Mount) :
  chainFrom (inodes st) this s ->
  parentsOk (inodes st) ->
  monotone (inodes st) ->
  inodes st !! this = Some (TreeInode l d) ->
  fst (getPath this st) = Ok r ->
  (forall stm dm,
     chainEffect s st stm ->
     walkPersists s st stm ->
     inodes stm !! this = Some (TreeInode l dm) ->
     entries dm = entries d ->
     treeHash dm = None ->
     fst (getPath this stm) = Ok r ->
     wp (k dm r) Q stm) ->
  wp (materialize this false ;;;
      let! contents := getContents this in
      let! myPath := getPath this in
      k contents myPath) Q st.
Proof.
  intros Hchain Hok Hmono Hthis Hpath Hk.
  wp_step.
  eapply wp_consequence;
    [apply wp_conj;
     [apply (materialize_effect this false s l d); done
     |apply (materialize_keeps_monotone this false s l d); done]|].
  cbv beta.
  intros o stm ((Heff & dm & Hdm & Hent & Hmat) & -> & _ & _ & Hper).
  specialize (Hmat eq_refl).
  wp_step. wp_step. rewrite Hdm. cbv beta iota. wp_step.
  unfold wp at 1, getPath at 1. cbn [fst snd].
  unfold getPath in Hpath. cbn [fst] in Hpath.
  pose proof (getPath_sameShape _ _ this r (proj1 (proj2 Heff)) Hpath)
    as Hpm.
  rewrite Hpm. by apply Hk.
Qed.
End Prelude.

Section Mkdir.
Import PathMapFacts.

Lemma mkdir_ok (this : Z) (nm : string) (mode : Z) (s : list Z)
    (l : Location) (d : Dir) (path : list string) (st : Mount) :
  chainFrom (inodes st) this s ->
  parentsOk (inodes st) ->
  monotone (inodes st) ->
  inodes st !! this = Some (TreeInode l d) ->
  inodes st !! nextInodeNumber st = None ->
  PathMap.find nm (entries d) = None ->
  fst (getPath this st) = Ok (Some path) ->
  wp (mkdir this nm mode) (mkdirPost this nm mode l d path st) st.
Proof.
  intros Hchain Hok Hmono Hthis Hfresh Hfind Hpath. unfold mkdir.
  apply (wp_prelude _ _ this s l d (Some path) st); try done.
  intros stm dm (Honly & Hshape & Haux) Hper Hdm Hent Hmat Hpm.
  destruct Haux as (Hcfg & Hnext & Hjournal & _ & Hrc & _).
  assert (Hn : nextInodeNumber st <> this) by (intros E; congruence).
  assert (Hnm : inodes stm !! nextInodeNumber st = None).
  { specialize (Hshape (nextInodeNumber st)). rewrite Hfresh in Hshape.
    simpl in Hshape. by destruct (inodes stm !! nextInodeNumber st). }
  unfold getPath in Hpm. cbn [fst] in Hpm.
  rewrite Hent, Hfind.
  unfold invalidateFuseCacheIfRequired.
  repeat (wp_step; simpl_mount; rewrite ?Hnext, ?Hdm, ?lookup_insert_eq;
          rewrite ?snd_emplace, ?Hfind; cbn [negb]; cbv beta iota).
  destruct (isFuseRequest (config stm)).
  all: repeat (wp_step; simpl_mount; cbv beta iota).
  all: try destruct (hasFuseChannel (config stm)); simpl_mount.
  all: unfold mkdirPost; cbv zeta; simpl_mount.
  all: split; [done|]. 
  all: split; [done|].
  all: split;
    [ eexists; split;
      [ by rewrite lookup_insert_eq
      | rewrite lookup_insert_ne by done; by rewrite lookup_insert_eq ] |].
  all: split; [|split; [by rewrite Hjournal|split; [done|split; [done|]]]].
  all: try (unfold getPath; cbn [fst]; simpl_mount;
    eapply getPathFrom_stable; [exact Hpm| |];
    [ intros y o Hy; destruct (decide (y = nextInodeNumber st)) as [->|Hy1];
      [ congruence
      | rewrite lookup_insert_ne by done;
        destruct (decide (y = this)) as [->|Hy2];
        [ rewrite lookup_insert_eq; eexists; split; [done|];
          rewrite Hdm in Hy; by simplify_eq
        | rewrite lookup_insert_ne by done; by exists o ] ]
    | apply le_n_S; etransitivity; [|apply size_insert_le];
      apply size_insert_le ]).
  all: eexists; split;
    [ rewrite lookup_insert_ne by done; by rewrite lookup_insert_eq |].
  all: split; [done|].
  all: split; [simpl; by rewrite find_assign_same, find_emplace_same, Hfind|].
  all: split;
    [ intros nm' Hne; simpl;
      rewrite find_assign_other, find_emplace_other by done; done |].
  all: split; [|by rewrite lookup_insert_eq].
  all: simpl; rewrite erase_assign; by apply erase_emplace.
Qed.

(** X12: [mkdir] of a name without entry, in a linked directory of a
    well-formed mount, succeeds.  It returns the next free inode number; the
    new child is an empty, materialized directory linked below the parent
    under that name, saved to the overlay; the parent is materialized and
    lists the name as a loaded, materialized directory entry with the mode
    [S_IFDIR | (mode & 07777)], the other names being as before, and its
    listing is saved to the overlay; the journal records the creation of
    the path; the kernel's reference counts are as before. *)
Theorem mkdir_creates_an_empty_directory (this : Z) (nm : string)
    (mode : Z) (s : list Z) (l : Location) (d : Dir) (path : list string)
    (st : Mount) :
  chainFrom (inodes st) this s ->
  parentsOk (inodes st) ->
  monotone (inodes st) ->
  inodes st !! this = Some (TreeInode l d) ->
  inodes st !! nextInodeNumber st = None ->
  PathMap.find nm (entries d) = None ->
  fst (getPath this st) = Ok (Some path) ->
  let r := mkdir this nm mode st in
  let n := nextInodeNumber st in
  fst r = Ok n
  /\ nextInodeNumber (snd r) = n + 1
  /\ (exists now,
        let emptyDir :=
          {| entries := []; timeStamps := setAll now; treeHash := None |} in
        inodes (snd r) !! n =
          Some (TreeInode {| parent := Some this; name := nm;
                             unlinked := false |} emptyDir)
        /\ overlay (snd r) !! n = Some (OverlayDir emptyDir))
  /\ (exists d1,
        inodes (snd r) !! this = Some (TreeInode l d1)
        /\ treeHash d1 = None
        /\ PathMap.find nm (entries d1) =
             Some (Entry.setInode n
                     (EntryOfNumber (Z.lor S_IFDIR (Z.land 4095 mode)) n))
        /\ (forall nm', nm' <> nm ->
              PathMap.find nm' (entries d1) = PathMap.find nm' (entries d))
        /\ PathMap.erase nm (entries d1) = entries d
        /\ overlay (snd r) !! this = Some (OverlayDir (persist d1)))
  /\ journal (snd r) = journal st ++ [CREATED (path ++ [nm])]
  /\ config (snd r) = config st
  /\ fuseRefcount (snd r) = fuseRefcount st
  /\ fst (getPath this (snd r)) = Ok (Some path).
Proof.
  intros Hchain Hok Hmono Hthis Hfresh Hfind Hpath.
  exact (mkdir_ok this nm mode s l d path st Hchain Hok Hmono Hthis Hfresh
           Hfind Hpath).
Qed.

(** X13: [mkdir] of a name that has an entry fails with EEXIST: no inode
    number is used, the directory keeps its entries, and nothing is added
    to the journal (the directory has been materialized, though). *)
Theorem mkdir_of_an_existing_name_fails (this : Z) (nm : string)
    (mode : Z) (s : list Z) (l : Location) (d : Dir) (e : Entry)
    (path : list string) (st : Mount) :
  chainFrom (inodes st) this s ->
  parentsOk (inodes st) ->
  monotone (inodes st) ->
  inodes st !! this = Some (TreeInode l d) ->
  PathMap.find nm (entries d) = Some e ->
  fst (getPath this st) = Ok (Some path) ->
  let r := mkdir this nm mode st in
  fst r = Throw (InodeError EEXIST)
  /\ nextInodeNumber (snd r) = nextInodeNumber st
  /\ (exists d', inodes (snd r) !! this = Some (TreeInode l d')
                 /\ entries d' = entries d)
  /\ journal (snd r) = journal st.
Proof.
  intros Hchain Hok Hmono Hthis Hfind Hpath r.
  change (wp (mkdir this nm mode)
            (fun o st' =>
               o = Throw (InodeError EEXIST)
               /\ nextInodeNumber st' = nextInodeNumber st
               /\ (exists d', inodes st' !! this = Some (TreeInode l d')
                              /\ entries d' = entries d)
               /\ journal st' = journal st) st).
  unfold mkdir.
  apply (wp_prelude _ _ this s l d (Some path) st); try done.
  intros stm dm (Honly & Hshape & Haux) Hper Hdm Hent Hmat Hpm.
  destruct Haux as (Hcfg & Hnext & Hjournal & _).
  rewrite Hent, Hfind. wp_step.
  split; [done|]. split; [done|]. split; [by exists dm|done].
Qed.
End Mkdir.

Section MkdirRmdir.
Import PathMapFacts.
Variable lookupInode : Z -> M Z.

(** [rmdir] of a loaded, empty directory from a materialized, linked
    directory other than .eden succeeds at the first attempt when no other
    thread interferes. *)
Lemma rmdir_loaded_empty (this : Z) (nm : string) (n : Z) (e : Entry)
    (l ln : Location) (d1 dn : Dir) (path : list string) (st1 : Mount) :
  inodes st1 !! this = Some (TreeInode l d1) ->
  treeHash d1 = None ->
  PathMap.find nm (entries d1) = Some e ->
  Entry.getInode e = Some n ->
  inodes st1 !! n = Some (TreeInode ln dn) ->
  entries dn = [] ->
  n <> this ->
  this <> dotEdenInodeNumber (config st1) ->
  fst (getPath this st1) = Ok (Some path) ->
  wp (rmdir lookupInode Examples.noInterference this nm)
    (fun o st2 =>
       o = Ok tt
       /\ exists d2, inodes st2 !! this = Some (TreeInode l d2)
            /\ entries d2 = PathMap.erase nm (entries d1)) st1.
Proof.
  intros Hthis Hmat Hfind Hinode Hn Hempty Hne Hdot Hpath.
  unfold rmdir, getOrLoadChild.
  assert (Hm : Dir.isMaterialized d1 = true)
    by (unfold Dir.isMaterialized; by rewrite Hmat).
  assert (He : PathMap.empty (entries dn) = true) by (by rewrite Hempty).
  apply Z.eqb_neq in Hdot.
  assert (Hp : getPath this st1 = (Ok (Some path), st1))
    by (unfold getPath in *; simpl in *; by rewrite Hpath).
  repeat (wp_step; simpl_mount;
          rewrite ?Hthis, ?Hn, ?Hfind, ?Hinode; cbv beta iota).
  unfold removeBudget. rewrite removeImpl_unfold.
  unfold removeStep, tryRemoveChild, materialize, checkPreRemove,
    markUnlinked, Examples.noInterference.
  repeat (first [ wp_step
                | match goal with
                  | |- wp (getPath _) _ _ => unfold wp at 1; rewrite Hp
                  end ];
          simpl_mount;
          rewrite ?lookup_insert_eq; rewrite ?lookup_insert_ne by done;
          rewrite ?Hthis, ?Hn, ?Hfind, ?Hinode, ?Hm, ?Hdot, ?He;
          cbn [hasKind negb andb Z.eqb]; cbv beta iota).
  destruct (isFuseRequest (config st1)); cbn [negb].
  all: repeat (wp_step; simpl_mount; cbn [Z.eqb]; cbv beta iota).
  all: try destruct (hasFuseChannel (config st1)); simpl_mount.
  all: rewrite lookup_insert_eq; split; [done|]; by eexists.
Qed.

(** X14: after a successful [mkdir] of a new name in a directory other
    than .eden, [rmdir] of that name succeeds, with no other thread
    interfering, and the directory has the entries it had before the
    [mkdir]. *)
Theorem mkdir_then_rmdir_restores_the_listing (this : Z) (nm : string)
    (mode : Z) (s : list Z) (l : Location) (d : Dir) (path : list string)
    (st : Mount) :
  chainFrom (inodes st) this s ->
  parentsOk (inodes st) ->
  monotone (inodes st) ->
  inodes st !! this = Some (TreeInode l d) ->
  inodes st !! nextInodeNumber st = None ->
  PathMap.find nm (entries d) = None ->
  fst (getPath this st) = Ok (Some path) ->
  this <> dotEdenInodeNumber (config st) ->
  let r := rmdir lookupInode Examples.noInterference this nm
             (snd (mkdir this nm mode st)) in
  fst (mkdir this nm mode st) = Ok (nextInodeNumber st)
  /\ fst r = Ok tt
  /\ exists d2, inodes (snd r) !! this = Some (TreeInode l d2)
               /\ entries d2 = entries d.
Proof.
  intros Hchain Hok Hmono Hthis Hfresh Hfind Hpath Hdot r.
  pose proof (mkdir_ok this nm mode s l d path st Hchain Hok Hmono Hthis
                Hfresh Hfind Hpath) as Hmk.
  unfold wp, mkdirPost in Hmk. cbv zeta in Hmk.
  destruct Hmk as (Hres & _ & (now & Hchild & _)
                   & (d1 & Hd1 & Hmat & Hentry & Hother & Herase & _)
                   & _ & Hcfg & _ & Hpath1).
  split; [done|].
  assert (Hne : nextInodeNumber st <> this) by (intros E; congruence).
  pose proof (rmdir_loaded_empty this nm (nextInodeNumber st) _ l _ d1 _
                path _ Hd1 Hmat Hentry eq_refl Hchild eq_refl Hne
                ltac:(by rewrite Hcfg) Hpath1) as Hrm.
  unfold wp in Hrm. fold r in Hrm. destruct Hrm as (Hr & d2 & Hd2 & Hent2).
  split; [done|]. exists d2. split; [done|].
  by rewrite Hent2.
Qed.
End MkdirRmdir.

Lemma fileMount_path3 :
  fst (getPath 3 Examples.fileMount) = Ok (Some ["sub"]).
Proof. vm_compute; reflexivity. Qed.

Lemma fileMount_lookup3 :
  inodes Examples.fileMount !! 3 =
    Some (TreeInode (Examples.childOf 1 "sub")
            (Examples.materializedDir
               [("f", Examples.loadedEntry Examples.fileMode644 4)])).
Proof. vm_compute; reflexivity. Qed.

Lemma fileMount_fresh :
  inodes Examples.fileMount !! nextInodeNumber Examples.fileMount = None.
Proof. vm_compute; reflexivity. Qed.

(** [mkdir] of g in sub (3) of the example mount. *)
Lemma mkdir_creates_an_empty_directory_witness :
  fst (mkdir 3 "g" 493 Examples.fileMount) = Ok 5.
Proof.
  apply (proj1 (mkdir_creates_an_empty_directory 3 "g" 493 [3; 1]
                  (Examples.childOf 1 "sub")
                  (Examples.materializedDir
                     [("f", Examples.loadedEntry Examples.fileMode644 4)])
                  ["sub"] Examples.fileMount
                  fileInodes_chain3 fileInodes_parentsOk fileInodes_monotone
                  fileMount_lookup3 fileMount_fresh eq_refl
                  fileMount_path3)).
Defined.

(** [mkdir] of f in sub, where f is a file. *)
Lemma mkdir_of_an_existing_name_fails_witness :
  fst (mkdir 3 "f" 493 Examples.fileMount) = Throw (InodeError EEXIST).
Proof.
  apply (proj1 (mkdir_of_an_existing_name_fails 3 "f" 493 [3; 1]
                  (Examples.childOf 1 "sub")
                  (Examples.materializedDir
                     [("f", Examples.loadedEntry Examples.fileMode644 4)])
                  (Examples.loadedEntry Examples.fileMode644 4)
                  ["sub"] Examples.fileMount
                  fileInodes_chain3 fileInodes_parentsOk fileInodes_monotone
                  fileMount_lookup3 eq_refl fileMount_path3)).
Defined.

(** [mkdir] and then [rmdir] of g in sub. *)
Lemma mkdir_then_rmdir_restores_the_listing_witness :
  fst (rmdir Examples.lookupLoaded Examples.noInterference 3 "g"
         (snd (mkdir 3 "g" 493 Examples.fileMount))) = Ok tt.
Proof.
  apply (proj1 (proj2 (mkdir_then_rmdir_restores_the_listing
                  Examples.lookupLoaded 3 "g" 493 [3; 1]
                  (Examples.childOf 1 "sub")
                  (Examples.materializedDir
                     [("f", Examples.loadedEntry Examples.fileMode644 4)])
                  ["sub"] Examples.fileMount
                  fileInodes_chain3 fileInodes_parentsOk fileInodes_monotone
                  fileMount_lookup3 fileMount_fresh eq_refl
                  fileMount_path3 ltac:(discriminate)))).
Defined.
Section CrashMore.
Import PathMapFacts.
Implicit Types (tbl : gmap Z InodeObject) (ov : gmap Z OverlayData).

Lemma forallb_insertSorted (P : Entry -> bool) (nm : string) (e : Entry)
    (es : PathMap.t Entry) :
  forallb (fun kv => P (snd kv)) es = true -> P e = true ->
  forallb (fun kv => P (snd kv)) (PathMap.insertSorted nm e es) = true.
Proof.
  intros Hes He. induction es as [|[k w] es IH]; simpl in *.
  - by rewrite He.
  - apply andb_true_iff in Hes as [H1 H2].
    destruct (String.ltb nm k); simpl; rewrite ?He, ?H1, ?H2; simpl; auto.
Qed.

Lemma forallb_emplace (P : Entry -> bool) (nm : string) (e : Entry)
    (es : PathMap.t Entry) :
  forallb (fun kv => P (snd kv)) es = true -> P e = true ->
  forallb (fun kv => P (snd kv)) (fst (PathMap.emplace nm e es)) = true.
Proof.
  intros Hes He. unfold PathMap.emplace.
  destruct (PathMap.find nm es); simpl; [done|].
  by apply forallb_insertSorted.
Qed.

Lemma forallb_erase (P : Entry -> bool) (nm : string)
    (es : PathMap.t Entry) :
  forallb (fun kv => P (snd kv)) es = true ->
  forallb (fun kv => P (snd kv)) (PathMap.erase nm es) = true.
Proof.
  intros Hes. induction es as [|[k w] es IH]; simpl in *; [done|].
  apply andb_true_iff in Hes as [H1 H2].
  destruct (String.eqb k nm); simpl; rewrite ?H1; auto.
Qed.

(** A new entry for the freshly numbered child [n], which has overlay
    data. *)
Lemma dirCovered_new_entry ov (d : Dir) (nm : string) (m : Z) (n : Z)
    (now : timespec) :
  dirCovered ov d = true -> is_Some (ov !! n) ->
  dirCovered ov
    (Dir.setChangeTimes now
       (Dir.setEntries
          (PathMap.assign nm (Entry.setInode n (EntryOfNumber m n))
             (fst (PathMap.emplace nm (EntryOfNumber m n) (entries d))))
          d)) = true.
Proof.
  intros Hd Hn. unfold dirCovered. simpl.
  assert (He : forall e, inodeNumber_ e = Some n -> entryCovered ov e = true).
  { intros e He. unfold entryCovered. rewrite He.
    apply orb_true_iff. right. by apply bool_decide_eq_true. }
  apply (forallb_assign (entryCovered ov)); [|by apply He].
  apply (forallb_emplace (entryCovered ov)); [done|by apply He].
Qed.

Lemma consistent_putFile tbl ov x l m :
  consistent (tbl, ov) -> consistent (<[x := FileInode l m]> tbl, ov).
Proof.
  intros [Hm Hd]. split; [|done]. simpl. intros p l' d' Hp.
  destruct (decide (x = p)) as [<-|Hne].
  - rewrite lookup_insert_eq in Hp. discriminate.
  - rewrite lookup_insert_ne in Hp by done. by eapply Hm.
Qed.

Lemma consistent_overlayFile tbl ov x data :
  consistent (tbl, ov) -> consistent (tbl, <[x := OverlayFile data]> ov).
Proof.
  intros [Hm Hd]. simpl in *.
  pose proof (grows_insert ov x (OverlayFile data)) as Hg.
  split; simpl.
  - intros p l' d' Hp. eapply dirCovered_grows; [done|]. by eapply Hm.
  - intros p d' Hp. destruct (decide (x = p)) as [<-|Hne].
    + rewrite lookup_insert_eq in Hp. discriminate.
    + rewrite lookup_insert_ne in Hp by done.
      eapply dirCovered_grows; [done|]. by eapply Hd.
Qed.

Lemma crashSafe_extend (st0 st st' : Mount) (o o' : Outcome unit)
    (new : list (gmap Z InodeObject * gmap Z OverlayData)) :
  crashSafe st0 o st ->
  history st' = new ++ history st ->
  Forall consistent new ->
  consistent (inodes st', overlay st') ->
  grows (overlay st) (overlay st') ->
  crashSafe st0 o' st'.
Proof.
  intros H0 Hh Hf Hc Hg. eapply crashSafe_trans; [exact H0|].
  exists new. done.
Qed.

Lemma grows_refl ov : grows ov ov.
Proof. by intros c. Qed.

Lemma grows_trans ov1 ov2 ov3 : grows ov1 ov2 -> grows ov2 ov3 -> grows ov1 ov3.
Proof. intros H1 H2 c Hc. by apply H2, H1. Qed.

Lemma mkdir_crashSafe (this : Z) (nm : string) (mode : Z) (st : Mount) :
  consistent (inodes st, overlay st) ->
  wp (mkdir this nm mode) (fun _ st' => crashSafe st (Ok tt) st') st.
Proof.
  intros Hc. unfold mkdir. wp_step.
  eapply wp_consequence; [by apply materialize_crashSafe|].
  cbv beta. intros o stm Hsafe.
  assert (Hcm : consistent (inodes stm, overlay stm))
    by (destruct Hsafe as (? & _ & _ & ? & _); done).
  assert (Hbase : forall o' st', history st' = history stm ->
            inodes st' = inodes stm -> overlay st' = overlay stm ->
            crashSafe st o' st').
  { intros o' st' Hh Hi Ho. eapply (crashSafe_extend st stm st' o o' []);
      [done|done|constructor|by rewrite Hi, Ho|rewrite Ho; apply grows_refl]. }
  destruct o as [[]|ex|w]; [|by apply Hbase..].
  wp_step. wp_step.
  destruct (inodes stm !! this) as [[l dm|]|] eqn:Hdm; [|by apply Hbase..].
  wp_step. unfold wp at 1. unfold getPath. cbn [fst snd].
  destruct (getPathFrom _ _ _) as [[path|]|ex|w]; [|by apply Hbase..].
  destruct (PathMap.find nm (entries dm)) eqn:Hfind;
    [wp_step; by apply Hbase|].
  unfold invalidateFuseCacheIfRequired.
  repeat (wp_step; simpl_mount; rewrite ?Hdm, ?lookup_insert_eq;
          rewrite ?snd_emplace, ?Hfind; cbn [negb]; cbv beta iota).
  set (n := nextInodeNumber stm).
  set (now := clock (config stm) (clockReads stm)).
  set (emptyDir := {| entries := []; timeStamps := setAll now;
                      treeHash := None |}).
  set (ov1 := <[n := OverlayDir (persist emptyDir)]> (overlay stm)).
  set (d1 := Dir.setChangeTimes now _).
  set (tbl1 := <[this := TreeInode l d1]> (inodes stm)).
  set (tbl2 := <[n := TreeInode _ emptyDir]> tbl1).
  set (ov2 := <[this := OverlayDir (persist d1)]> ov1).
  assert (C1 : consistent (inodes stm, ov1))
    by (by apply consistent_save).
  assert (Hd1 : dirCovered ov1 d1 = true).
  { apply dirCovered_new_entry.
    - exact (proj1 C1 this l dm Hdm).
    - unfold ov1. rewrite lookup_insert_eq. by eexists. }
  assert (C2 : consistent (tbl1, ov1)) by (by apply consistent_put).
  assert (C3 : consistent (tbl2, ov1)) by (by apply consistent_put).
  assert (C4 : consistent (tbl2, ov2)) by (by apply consistent_save).
  assert (Hfinal : forall o' st', history st' =
              [(tbl2, ov2); (tbl2, ov1); (tbl1, ov1); (inodes stm, ov1)]
              ++ history stm ->
            inodes st' = tbl2 -> overlay st' = ov2 ->
            crashSafe st o' st').
  { intros o' st' Hh Hi Ho. eapply (crashSafe_extend st stm st' _ o');
      [exact Hsafe|exact Hh| |by rewrite Hi, Ho|].
    - repeat (constructor; [done|]). constructor.
    - rewrite Ho. eapply grows_trans; apply grows_insert. }
  destruct (isFuseRequest (config stm)).
  all: repeat (wp_step; simpl_mount; cbv beta iota).
  all: try destruct (hasFuseChannel (config stm)); simpl_mount.
  all: by apply Hfinal.
Qed.

Lemma create_crashSafe (fileGetattr : Mount -> Z -> Outcome Attr)
    (this : Z) (nm : string) (mode : Z) (st : Mount) :
  consistent (inodes st, overlay st) ->
  wp (create fileGetattr this nm mode)
    (fun _ st' => crashSafe st (Ok tt) st') st.
Proof.
  intros Hc. unfold create. wp_step.
  eapply wp_consequence; [by apply materialize_crashSafe|].
  cbv beta. intros o stm Hsafe.
  assert (Hcm : consistent (inodes stm, overlay stm))
    by (destruct Hsafe as (? & _ & _ & ? & _); done).
  assert (Hbase : forall o' st', history st' = history stm ->
            inodes st' = inodes stm -> overlay st' = overlay stm ->
            crashSafe st o' st').
  { intros o' st' Hh Hi Ho. eapply (crashSafe_extend st stm st' o o' []);
      [done|done|constructor|by rewrite Hi, Ho|rewrite Ho; apply grows_refl]. }
  destruct o as [[]|ex|w]; [|by apply Hbase..].
  wp_step. wp_step.
  destruct (inodes stm !! this) as [[l dm|]|] eqn:Hdm; [|by apply Hbase..].
  wp_step. unfold wp at 1. unfold getPath. cbn [fst snd].
  destruct (getPathFrom _ _ _) as [[path|]|ex|w]; [|by apply Hbase..].
  set (n := nextInodeNumber stm).
  set (ov1 := <[n := OverlayFile ""]> (overlay stm)).
  assert (C1 : consistent (inodes stm, ov1))
    by (by apply consistent_overlayFile).
  assert (Hfile : forall o' st', history st' =
              [(inodes stm, ov1)] ++ history stm ->
            inodes st' = inodes stm -> overlay st' = ov1 ->
            crashSafe st o' st').
  { intros o' st' Hh Hi Ho. eapply (crashSafe_extend st stm st' _ o');
      [exact Hsafe|exact Hh| |by rewrite Hi, Ho|].
    - repeat (constructor; [done|]). constructor.
    - rewrite Ho. apply grows_insert. }
  repeat (wp_step; simpl_mount; cbv beta iota).
  destruct (negb _) eqn:Hins; [wp_step; by apply Hfile|].
  unfold invalidateFuseCacheIfRequired.
  repeat (wp_step; simpl_mount; cbv beta iota;
          rewrite ?lookup_insert_eq; fold n).
  destruct (decide (n = this)) as [Heq|Hne].
  { assert (Hl : forall o : InodeObject,
              <[n := o]> (inodes stm) !! this = Some o)
      by (intros o'; rewrite Heq; apply lookup_insert_eq).
    rewrite Hl.
    eapply (crashSafe_extend st stm _ _ _ [_; _]);
      [exact Hsafe|simpl_mount; reflexivity| | |].
    - constructor; [|constructor; [exact C1|constructor]].
      apply consistent_putFile. exact C1.
    - simpl_mount. apply consistent_putFile. exact C1.
    - simpl_mount. apply grows_insert. }
  rewrite lookup_insert_ne, Hdm by done.
  set (now := clock (config stm) (S (clockReads stm))).
  set (d1 := Dir.setChangeTimes now _).
  set (tbl1 := <[n := FileInode _ _]> (inodes stm)).
  set (tbl2 := <[this := TreeInode l d1]> tbl1).
  set (ov2 := <[this := OverlayDir (persist d1)]> ov1).
  assert (Hd1 : dirCovered ov1 d1 = true).
  { apply dirCovered_new_entry.
    - exact (proj1 C1 this l dm Hdm).
    - unfold ov1. rewrite lookup_insert_eq. by eexists. }
  assert (C2 : consistent (tbl1, ov1)) by (by apply consistent_putFile).
  assert (C3 : consistent (tbl2, ov1)) by (by apply consistent_put).
  assert (C4 : consistent (tbl2, ov2)) by (by apply consistent_save).
  assert (Hfinal : forall o' st', history st' =
              [(tbl2, ov2); (tbl2, ov1); (tbl1, ov1); (inodes stm, ov1)]
              ++ history stm ->
            inodes st' = tbl2 -> overlay st' = ov2 ->
            crashSafe st o' st').
  { intros o' st' Hh Hi Ho. eapply (crashSafe_extend st stm st' _ o');
      [exact Hsafe|exact Hh| |by rewrite Hi, Ho|].
    - repeat (constructor; [done|]). constructor.
    - rewrite Ho. eapply grows_trans; apply grows_insert. }
  repeat (wp_step; simpl_mount; cbv beta iota).
  destruct (isFuseRequest (config stm)).
  all: repeat (wp_step; simpl_mount; cbv beta iota).
  all: unfold wp, getattrOfFile, bind, ret; cbn [fst snd];
    try destruct (hasFuseChannel (config stm)); simpl_mount.
  all: match goal with |- context [match ?x with Ok _ => _ | _ => _ end] =>
         destruct x end.
  all: by apply Hfinal.
Qed.

(** X15: from a state in which no directory, in memory or in the overlay,
    records as materialized a child without overlay data, every state that
    [mkdir] goes through, and so every state a crash could leave, is such a
    state again (the new directory is saved before its parent lists it);
    and the overlay loses no data.  This holds of every run, whatever its
    outcome. *)
Theorem mkdir_is_crash_consistent (this : Z) (nm : string) (mode : Z)
    (st : Mount) :
  consistent (inodes st, overlay st) ->
  let st' := snd (mkdir this nm mode st) in
  exists new,
    history st' = new ++ history st
    /\ Forall consistent new
    /\ consistent (inodes st', overlay st')
    /\ (forall c, is_Some (overlay st !! c) -> is_Some (overlay st' !! c)).
Proof. intros Hc. exact (mkdir_crashSafe this nm mode st Hc). Qed.

(** X16: the same for [create]: the overlay file of the new inode is
    written before the directory lists it, so that no state [create] goes
    through records as materialized a child without overlay data; and the
    overlay loses no data.  This holds of every run, whatever its
    outcome. *)
Theorem create_is_crash_consistent
    (fileGetattr : Mount -> Z -> Outcome Attr) (this : Z) (nm : string)
    (mode : Z) (st : Mount) :
  consistent (inodes st, overlay st) ->
  let st' := snd (create fileGetattr this nm mode st) in
  exists new,
    history st' = new ++ history st
    /\ Forall consistent new
    /\ consistent (inodes st', overlay st')
    /\ (forall c, is_Some (overlay st !! c) -> is_Some (overlay st' !! c)).
Proof. intros Hc. exact (create_crashSafe fileGetattr this nm mode st Hc). Qed.
End CrashMore.

Lemma fileMount_consistent :
  consistent (inodes Examples.fileMount, overlay Examples.fileMount).
Proof.
  split; simpl.
  - intros p l d Hp. unfold Examples.fileInodes in Hp. by_table Hp.
    all: try discriminate.
    all: injection Hp as <- <-; vm_compute; reflexivity.
  - intros p d Hp. unfold Examples.overlayOf in Hp.
    rewrite lookup_omap in Hp.
    destruct (Examples.fileInodes !! p) as [o|] eqn:Ho; [|discriminate].
    unfold Examples.fileInodes in Ho. by_table Ho.
    all: injection Ho as <-; simpl in Hp; try discriminate.
    all: injection Hp as <-; vm_compute; reflexivity.
Qed.

Lemma mkdir_is_crash_consistent_witness :
  let st' := snd (mkdir 3 "g" 493 Examples.fileMount) in
  exists new,
    history st' = new ++ history Examples.fileMount
    /\ Forall consistent new.
Proof.
  intros st'.
  destruct (mkdir_is_crash_consistent 3 "g" 493 Examples.fileMount
              fileMount_consistent) as (new & H1 & H2 & _).
  exists new. split; [exact H1|exact H2].
Defined.

Lemma create_is_crash_consistent_witness :
  let st' := snd (create Examples.fileAttrInit 3 "g" 420 Examples.fileMount) in
  exists new,
    history st' = new ++ history Examples.fileMount
    /\ Forall consistent new.
Proof.
  intros st'.
  destruct (create_is_crash_consistent Examples.fileAttrInit 3 "g" 420
              Examples.fileMount fileMount_consistent)
    as (new & H1 & H2 & _).
  exists new. split; [exact H1|exact H2].
Defined.

Section CrashRemove.
Import PathMapFacts.
Implicit Types (tbl : gmap Z InodeObject) (ov : gmap Z OverlayData).

Lemma consistent_putObject tbl ov x o :
  consistent (tbl, ov) ->
  (forall l d, o = TreeInode l d -> dirCovered ov d = true) ->
  consistent (<[x := o]> tbl, ov).
Proof.
  intros [Hm Hd] Ho. split; [|done]. simpl. intros p l' d' Hp.
  destruct (decide (x = p)) as [<-|Hne].
  - rewrite lookup_insert_eq in Hp. injection Hp as ->. by eapply Ho.
  - rewrite lookup_insert_ne in Hp by done. by eapply Hm.
Qed.

Lemma consistent_markUnlinked tbl ov z i :
  consistent (tbl, ov) -> tbl !! z = Some i ->
  consistent
    (<[z := match i with
            | TreeInode _ d =>
                TreeInode {| parent := parent (locationOf i);
                             name := name (locationOf i);
                             unlinked := true |} d
            | FileInode _ m =>
                FileInode {| parent := parent (locationOf i);
                             name := name (locationOf i);
                             unlinked := true |} m
            end]> tbl, ov).
Proof.
  intros Hc Hi. apply consistent_putObject; [done|].
  intros l0 d0 Heq. destruct i as [l d|l m]; [|discriminate].
  injection Heq as _ <-. exact (proj1 Hc z l d Hi).
Qed.

Lemma tryRemoveChild_crashSafe (k : InodeKind) (this : Z) (nm : string)
    (child : option Z) (flush : bool) (st : Mount) :
  consistent (inodes st, overlay st) ->
  wp (tryRemoveChild k this nm child flush)
    (fun _ st' => crashSafe st (Ok tt) st') st.
Proof.
  intros Hc. unfold tryRemoveChild. wp_step.
  eapply wp_consequence; [by apply materialize_crashSafe|].
  cbv beta. intros o stm Hsafe.
  assert (Hcm : consistent (inodes stm, overlay stm))
    by (destruct Hsafe as (? & _ & _ & ? & _); done).
  assert (Hbase : forall o' st', history st' = history stm ->
            inodes st' = inodes stm -> overlay st' = overlay stm ->
            crashSafe st o' st').
  { intros o' st' Hh Hi Ho. eapply (crashSafe_extend st stm st' o o' []);
      [done|done|constructor|by rewrite Hi, Ho|rewrite Ho; apply grows_refl]. }
  destruct o as [[]|ex|w]; [|by apply Hbase..].
  unfold checkPreRemove, markUnlinked.
  wp_go.
  all: try solve [by apply Hbase].
  all: try destruct (hasFuseChannel (config stm)); simpl_mount.
  all: lazymatch goal with
       | Hcm' : consistent (inodes ?stm, overlay ?stm)
         |- context [<[?z := _]> (inodes ?stm)] =>
           lazymatch goal with
           | Hi : inodes stm !! z = Some ?i |- _ =>
               pose proof (consistent_markUnlinked _ _ z i Hcm' Hi) as C1
           end
       end.
  all: lazymatch goal with
       | Hcm' : consistent (inodes ?stm, overlay ?stm)
         |- context [<[?this := OverlayDir (persist ?D)]> (overlay ?stm)] =>
           assert (Hd : dirCovered (overlay stm) D = true)
             by (unfold dirCovered; simpl; apply forallb_erase;
                 eapply (proj1 Hcm'); eassumption);
           eapply (crashSafe_extend _ stm _ _ _ [_; _; _]);
             [ eassumption
             | simpl_mount; reflexivity
             | constructor;
               [|constructor; [|constructor; [exact C1|constructor]]];
               [ apply consistent_save; [|exact Hd];
                 apply consistent_put; [exact C1|exact Hd]
               | apply consistent_put; [exact C1|exact Hd] ]
             | simpl_mount; apply consistent_save; [|exact Hd];
               apply consistent_put; [exact C1|exact Hd]
             | simpl_mount; apply grows_insert ]
       | Hcm' : consistent (inodes ?stm, overlay ?stm) |- _ =>
           eapply (crashSafe_extend _ stm _ _ _ [_]);
             [ eassumption
             | simpl_mount; reflexivity
             | constructor; [exact C1|constructor]
             | simpl_mount; exact C1
             | simpl_mount; apply grows_refl ]
       end.
Qed.

(** X28: crash consistency of the locked section of [tryRemoveChild], the
    removal behind [unlink], [rmdir] and the checkout: from a state in which
    no directory, in memory or in the overlay, records as materialized a
    child without overlay data, every state it goes through, up to and
    including the save of the directory's new listing, is such a state
    again, whatever the outcome.  What the release of the removed inode
    does after that section is not covered. *)
Theorem tryRemoveChild_is_crash_consistent (k : InodeKind) (this : Z)
    (nm : string) (child : option Z) (flush : bool) (st : Mount) :
  consistent (inodes st, overlay st) ->
  let st' := snd (tryRemoveChild k this nm child flush st) in
  exists new,
    history st' = new ++ history st
    /\ Forall consistent new
    /\ consistent (inodes st', overlay st').
Proof.
  intros Hc.
  destruct (tryRemoveChild_crashSafe k this nm child flush st Hc)
    as (new & H1 & H2 & H3 & _).
  by exists new.
Qed.
End CrashRemove.

(** The file f is removed from sub (3) of the example mount. *)
Lemma tryRemoveChild_is_crash_consistent_witness :
  let st' := snd (tryRemoveChild FileKind 3 "f" None false
                    Examples.fileMount) in
  exists new,
    history st' = new ++ history Examples.fileMount
    /\ Forall consistent new.
Proof.
  intros st'.
  destruct (tryRemoveChild_is_crash_consistent FileKind 3 "f" None false
              Examples.fileMount fileMount_consistent)
    as (new & H1 & H2 & _).
  exists new. split; [exact H1|exact H2].
Defined.

Section Unlinked.
Import PathMapFacts.

Lemma wp_prelude_unlinked {A} (k : Dir -> option (list string) -> M A)
    (this : Z) (l : Location) (d : Dir) (p : Z) (st : Mount) :
  inodes st !! this = Some (TreeInode l d) ->
  parent l = Some p ->
  unlinked l = true ->
  (forall c, k c None = throw (InodeError ENOENT)) ->
  wp (materialize this false ;;;
      let! contents := getContents this in
      let! myPath := getPath this in
      k contents myPath)
    (untouchedButMaterialized this l d st) st.
Proof.
  intros Hthis Hp Hu Hk. unfold materialize, notifyParentMaterialized.
  assert (Hpath : forall tbl dm,
            tbl !! this = Some (TreeInode l dm) ->
            getPathFrom (S (size tbl)) tbl this = Ok None).
  { intros tbl dm Ht. simpl. by rewrite Ht; simpl; rewrite Hp, Hu. }
  destruct (Dir.isMaterialized d) eqn:Hd.
  - repeat (wp_step; simpl_mount; rewrite ?Hthis, ?Hd; cbn [negb andb];
            cbv beta iota).
    unfold wp at 1. unfold getPath. cbn [fst snd].
    rewrite (Hpath _ d Hthis), Hk. wp_step.
    split; [done|]. split; [done|]. split; [done|].
    split; [by exists d|done].
  - repeat (first [ wp_step
                  | progress (simpl_mount;
                      rewrite ?Hthis, ?Hd, ?lookup_insert_eq, ?Hp, ?Hu;
                      cbn [negb andb]; cbv beta iota) ]).
    unfold wp at 1. unfold getPath. cbn [fst snd]. simpl_mount.
    erewrite Hpath by apply lookup_insert_eq. rewrite Hk. wp_step.
    simpl_mount.
    split; [done|]. split; [done|]. split; [done|].
    split; [eexists; split; [apply lookup_insert_eq|done]|].
    intros y Hy. simpl_mount. by rewrite lookup_insert_ne.
Qed.

(** X17: nothing is created in a directory that has been unlinked:
    [create], [mkdir] and [mknod] fail with ENOENT there; no inode number is
    used, the directory keeps its entries, the journal and every other inode
    are as before (the directory itself has been materialized, though). *)
Theorem nothing_is_created_in_an_unlinked_directory
    (fileGetattr : Mount -> Z -> Outcome Attr) (this : Z) (nm : string)
    (mode : Z) (l : Location) (d : Dir) (p : Z) (st : Mount) :
  inodes st !! this = Some (TreeInode l d) ->
  parent l = Some p ->
  unlinked l = true ->
  let spec {A} (r : Outcome A * Mount) :=
    fst r = Throw (InodeError ENOENT)
    /\ nextInodeNumber (snd r) = nextInodeNumber st
    /\ journal (snd r) = journal st
    /\ (exists d', inodes (snd r) !! this = Some (TreeInode l d')
                   /\ entries d' = entries d)
    /\ (forall y, y <> this -> inodes (snd r) !! y = inodes st !! y) in
  spec (create fileGetattr this nm mode st)
  /\ spec (mkdir this nm mode st)
  /\ (S_ISSOCK mode = true -> spec (mknod this nm mode st)).
Proof.
  intros Hthis Hp Hu spec. split; [|split].
  - apply (wp_prelude_unlinked _ this l d p st Hthis Hp Hu). done.
  - apply (wp_prelude_unlinked _ this l d p st Hthis Hp Hu). done.
  - intros Hs. unfold mknod. rewrite Hs. cbn [negb].
    apply (wp_prelude_unlinked _ this l d p st Hthis Hp Hu). done.
Qed.
End Unlinked.

(** [mkdir] in the unlinked directory (3) of the example mount. *)
Lemma nothing_is_created_in_an_unlinked_directory_witness :
  fst (mkdir 3 "x" 493 unlinkedMount) = Throw (InodeError ENOENT).
Proof.
  apply (proj1 (proj1 (proj2
           (nothing_is_created_in_an_unlinked_directory
              Examples.fileAttrInit 3 "x" 493
              {| parent := Some 1; name := "gone"; unlinked := true |}
              (Examples.materializedDir []) 1 unlinkedMount
              ltac:(vm_compute; reflexivity) eq_refl eq_refl)))).
Defined.
Section RoundTrip.

Lemma ltb_asym (a b : string) : String.ltb a b = true -> String.ltb b a = false.
Proof.
  unfold String.ltb. rewrite (String.compare_antisym a b).
  destruct (String.compare b a); simpl; done.
Qed.

Lemma ltb_neq (a b : string) : String.ltb a b = true -> String.eqb a b = false.
Proof.
  intros H. apply String.eqb_neq. intros ->.
  unfold String.ltb in H.
  pose proof (String.compare_antisym b b) as Ha.
  destruct (String.compare b b); done.
Qed.

Lemma emplace_last {V} (nm : string) (v : V) (m : PathMap.t V) :
  Forall (fun kv => String.ltb (fst kv) nm = true) m ->
  PathMap.emplace nm v m = (m ++ [(nm, v)], true).
Proof.
  intros Hm. unfold PathMap.emplace.
  assert (Hf : PathMap.find nm m = None).
  { induction Hm as [|[k w] m Hk Hm IH]; simpl; [done|].
    simpl in Hk. by rewrite (ltb_neq _ _ Hk). }
  rewrite Hf. f_equal. clear Hf.
  induction Hm as [|[k w] m Hk Hm IH]; simpl; [done|].
  simpl in Hk. by rewrite (ltb_asym _ _ Hk), IH.
Qed.

Lemma buildDirFromTree_sorted (l : list TreeEntry) (acc : PathMap.t Entry) :
  StronglySorted (fun a b => String.ltb (te_name a) (te_name b) = true) l ->
  Forall (fun te =>
            Forall (fun kv => String.ltb (fst kv) (te_name te) = true) acc) l ->
  fold_left
    (fun es te =>
       fst (PathMap.emplace (te_name te)
              (EntryOfHash (modeFromTreeEntryType (te_type te)) (te_hash te))
              es)) l acc
  = acc ++ map entryOfTreeEntry l.
Proof.
  intros Hs. revert acc.
  induction Hs as [|te l Hs IH Hte]; intros acc Hacc; simpl.
  - by rewrite app_nil_r.
  - inversion Hacc as [|? ? Hhd Htl]; subst.
    rewrite (emplace_last _ _ _ Hhd). cbn [fst].
    rewrite IH.
    + by rewrite <- app_assoc.
    + clear IH Hacc Hhd Hs. induction Htl as [|te' l Ha Htl IH2].
      * constructor.
      * inversion Hte; subst. constructor; [|by apply IH2].
        apply Forall_app_2; [done|]. by constructor.
Qed.

(** X18: round trip.  The directory [buildDirFromTree] builds from a tree
    whose entries are in the order of their names lists one entry per tree
    entry, in that order, each with the name, the mode of the type and the
    hash of the tree entry and no inode; and [tryToDematerialize] finds this
    directory identical to the tree: it yields the hash of the tree. *)
Theorem a_directory_built_from_a_tree_dematerializes_to_it (t : Tree)
    (time : timespec) :
  sortedTree t ->
  let d := buildDirFromTree (Some t) time in
  entries d = map entryOfTreeEntry (tree_entries t)
  /\ tryToDematerialize d (Some t) = Some (tree_hash t).
Proof.
  intros Hs d. unfold sortedTree in Hs.
  assert (He : entries d = map entryOfTreeEntry (tree_entries t)).
  { unfold d. simpl. rewrite buildDirFromTree_sorted; [done|done|].
    induction (tree_entries t); constructor; [constructor|].
    apply IHl. by inversion Hs. }
  split; [done|].
  apply tryToDematerialize_Some. exists t. split; [done|]. split; [done|].
  rewrite He. split; [by rewrite length_map|].
  clear. induction (tree_entries t); simpl; constructor; done.
Qed.
End RoundTrip.

(** The tree with the files a and b and the directory d. *)
Lemma a_directory_built_from_a_tree_dematerializes_to_it_witness :
  tryToDematerialize
    (buildDirFromTree (Some Examples.tree_abd) Examples.mountTime)
    (Some Examples.tree_abd)
  = Some (tree_hash Examples.tree_abd).
Proof.
  apply (proj2 (a_directory_built_from_a_tree_dematerializes_to_it
                  Examples.tree_abd Examples.mountTime
                  ltac:(repeat constructor))).
Defined.
Section DispatchRemove.
Variable lookupInode : InodeNumber -> M InodeNumber.
Variable lookupTreeInode : InodeNumber -> M InodeNumber.
Variable interference : Z -> gmap Z InodeObject -> gmap Z InodeObject.

(** X19: the dispatcher's [unlink] replies success whatever [unlink] did:
    its continuation calls [unlink] and returns nothing, so that an error of
    [unlink] is lost; the mount is as [unlink] left it.  The dispatcher's
    [rmdir] returns what [rmdir] returns, errors included. *)
Theorem dispatcher_unlink_replies_success_whatever_unlink_did
    (parentIno this : Z) (nm : string) (st st1 : Mount) :
  lookupTreeInode parentIno st = (Ok this, st1) ->
  (forall w, fst (unlink lookupInode interference this nm st1) <> Stuck w) ->
  dispatchUnlink lookupInode lookupTreeInode interference parentIno nm st
  = (Ok tt, snd (unlink lookupInode interference this nm st1))
  /\ dispatchRmdir lookupInode lookupTreeInode interference parentIno nm st
     = rmdir lookupInode interference this nm st1.
Proof.
  intros Hl Hu. unfold dispatchUnlink, dispatchRmdir, bind, dropResult.
  rewrite Hl. split.
  - destruct (fst (unlink lookupInode interference this nm st1)) as [[]|e|w];
      [done|done|by destruct (Hu w)].
  - by destruct (rmdir lookupInode interference this nm st1).
Qed.
End DispatchRemove.

(** [unlink] of the directory sub of the example mount fails with EISDIR;
    the dispatcher replies success. *)
Lemma dispatcher_unlink_replies_success_whatever_unlink_did_witness :
  fst (unlink Examples.lookupLoaded Examples.noInterference 1 "sub"
         Examples.fileMount) = Throw (InodeError EISDIR)
  /\ fst (dispatchUnlink Examples.lookupLoaded Examples.lookupLoaded
            Examples.noInterference 1 "sub" Examples.fileMount) = Ok tt.
Proof.
  split; [vm_compute; reflexivity|].
  rewrite (proj1 (dispatcher_unlink_replies_success_whatever_unlink_did
                    Examples.lookupLoaded Examples.lookupLoaded
                    Examples.noInterference 1 1 "sub" Examples.fileMount
                    Examples.fileMount eq_refl
                    ltac:(intros w; vm_compute; discriminate))).
  reflexivity.
Defined.

Section DispatchMkdir.
Variable lookupTreeInode : InodeNumber -> M InodeNumber.
Variable asFuseAttr : Attr -> fuse_attr_out.
Variable fileGetattr : Mount -> InodeNumber -> Outcome Attr.

(** X20: the dispatcher's [mkdir], where [mkdir] succeeds: the reply is the
    entry of the new inode number with the attributes of the new, empty
    directory; the kernel's reference count of the new inode is raised by
    one and no other count changes; inodes, overlay and journal are as
    [mkdir] left them. *)
Theorem dispatcher_mkdir_replies_with_the_new_directory
    (parentIno this : Z) (nm : string) (mode : Z) (s : list Z)
    (l : Location) (d : Dir) (path : list string) (st : Mount) :
  lookupTreeInode parentIno st = (Ok this, st) ->
  chainFrom (inodes st) this s ->
  parentsOk (inodes st) ->
  monotone (inodes st) ->
  inodes st !! this = Some (TreeInode l d) ->
  inodes st !! nextInodeNumber st = None ->
  PathMap.find nm (entries d) = None ->
  fst (getPath this st) = Ok (Some path) ->
  let r := dispatchMkdir lookupTreeInode asFuseAttr fileGetattr parentIno nm
             mode st in
  let st1 := snd (mkdir this nm mode st) in
  let n := nextInodeNumber st in
  (exists now,
     fst r = Ok (computeEntryParam asFuseAttr n
                   (getAttrLocked (initStatData (config st)) n
                      {| entries := []; timeStamps := setAll now;
                         treeHash := None |})))
  /\ fuseRefcount (snd r)
     = <[n := default 0 (fuseRefcount st !! n) + 1]> (fuseRefcount st)
  /\ inodes (snd r) = inodes st1
  /\ overlay (snd r) = overlay st1
  /\ journal (snd r) = journal st1.
Proof.
  intros Hl Hchain Hok Hmono Hthis Hfresh Hfind Hpath r st1 n.
  pose proof (mkdir_ok this nm mode s l d path st Hchain Hok Hmono Hthis
                Hfresh Hfind Hpath) as Hmk.
  unfold wp, mkdirPost in Hmk. cbv zeta in Hmk. fold st1 n in Hmk.
  destruct Hmk as (Hres & _ & (now & Hchild & _) & _ & _ & Hcfg & Hrc & _).
  assert (Hr : r = (Ok (computeEntryParam asFuseAttr n
                          (getAttrLocked (initStatData (config st)) n
                             {| entries := []; timeStamps := setAll now;
                                treeHash := None |})),
                    withFuseRefcount
                      (<[n := default 0 (fuseRefcount st !! n) + 1]>
                         (fuseRefcount st)) st1)).
  { unfold r, dispatchMkdir, bind at 1. rewrite Hl.
    unfold bind at 1. subst st1.
    destruct (mkdir this nm mode st) as [o stm]. cbn [fst snd] in *.
    subst o.
    unfold getattr, getObject, incFuseRefcount, bind, gets, modify, ret.
    rewrite Hchild. by rewrite Hcfg, Hrc. }
  rewrite Hr. cbn [fst snd]. simpl_mount.
  split; [by exists now|done].
Qed.
End DispatchMkdir.

(** The dispatcher's [mkdir] of g in sub (3) of the example mount. *)
Lemma dispatcher_mkdir_replies_with_the_new_directory_witness :
  fuseRefcount
    (snd (dispatchMkdir Examples.lookupLoaded Examples.noFuseAttr
            Examples.fileAttrInit 3 "g" 493 Examples.fileMount)) !! 5
  = Some 1.
Proof.
  rewrite (proj1 (proj2
             (dispatcher_mkdir_replies_with_the_new_directory
                Examples.lookupLoaded Examples.noFuseAttr
                Examples.fileAttrInit 3 3 "g" 493 [3; 1]
                (Examples.childOf 1 "sub")
                (Examples.materializedDir
                   [("f", Examples.loadedEntry Examples.fileMode644 4)])
                ["sub"] Examples.fileMount eq_refl
                fileInodes_chain3 fileInodes_parentsOk fileInodes_monotone
                fileMount_lookup3 fileMount_fresh eq_refl
                fileMount_path3))).
  rewrite lookup_insert_eq. reflexivity.
Defined.

Section Refcount.
Variable lookupTreeInode : InodeNumber -> M InodeNumber.
Variable asFuseAttr : Attr -> fuse_attr_out.
Variable fileGetattr : Mount -> InodeNumber -> Outcome Attr.

Lemma childMaterialized_refcount (b : nat) :
  forall (this : Z) (nm : string) (child : Z) (st : Mount),
  wp (childMaterialized b this nm child) (keepsRefcount st) st.
Proof.
  induction b as [|b IH]; intros this nm child st; simpl.
  { by wp_step. }
  wp_go; try done.
  eapply wp_consequence; [apply IH|]. by intros o st'.
Qed.

Lemma materialize_refcount (this : Z) (lock : bool) (st : Mount) :
  wp (materialize this lock) (keepsRefcount st) st.
Proof.
  unfold materialize, notifyParentMaterialized.
  wp_go; try done.
  eapply wp_consequence; [apply childMaterialized_refcount|].
  by intros o st'.
Qed.

Lemma wp_getPath (x : Z) (Q : Outcome (option (list string)) -> Mount -> Prop)
    (st : Mount) :
  Q (getPathFrom (S (size (inodes st))) (inodes st) x) st ->
  wp (getPath x) Q st.
Proof. done. Qed.

Lemma wp_getattrOfFile (x : Z) (Q : Outcome Attr -> Mount -> Prop)
    (st : Mount) :
  Q (fileGetattr st x) st -> wp (getattrOfFile fileGetattr x) Q st.
Proof. done. Qed.

Ltac after_materialize :=
  wp_step;
  eapply wp_consequence; [apply materialize_refcount|];
  cbv beta; intros o stm Hm; unfold keepsRefcount in *;
  destruct o as [[]|ex|w]; [|done..];
  unfold invalidateFuseCacheIfRequired;
  repeat (first [ wp_step
                | apply wp_getPath
                | apply wp_getattrOfFile
                | wp_case ];
          simpl_mount);
  try done;
  repeat match goal with
         | |- context [if ?b then _ else _] => destruct b
         end; simpl_mount; try done.

Lemma mkdir_refcount (this : Z) (nm : string) (mode : Z) (st : Mount) :
  wp (mkdir this nm mode) (keepsRefcount st) st.
Proof. unfold mkdir. after_materialize. Qed.

Lemma mknod_refcount (this : Z) (nm : string) (mode : Z) (st : Mount) :
  wp (mknod this nm mode) (keepsRefcount st) st.
Proof.
  unfold mknod. destruct (negb (S_ISSOCK mode)); [by wp_step|].
  after_materialize.
Qed.

Lemma create_refcount (this : Z) (nm : string) (mode : Z) (st : Mount) :
  wp (create fileGetattr this nm mode) (keepsRefcount st) st.
Proof. unfold create. after_materialize. Qed.

Lemma getattr_state (x : Z) (st : Mount) :
  snd (getattr fileGetattr x st) = st.
Proof.
  unfold getattr, getObject, getattrOfFile, bind, gets, ret.
  destruct (inodes st !! x) as [[l d|l m]|]; done.
Qed.

Lemma entry_after (child : Z) (st1 stk : Mount) :
  fuseRefcount stk = fuseRefcount st1 ->
  takesOneReference st1
    ((let! a := getattr fileGetattr child in
      incFuseRefcount child ;;;
      ret (computeEntryParam asFuseAttr child a)) stk).
Proof.
  intros Hk. unfold takesOneReference, bind.
  pose proof (getattr_state child stk) as Hg.
  destruct (getattr fileGetattr child stk) as [[a|e|w] st'];
    cbn [fst snd] in *; subst st'; [|done..].
  unfold incFuseRefcount, modify, ret. cbn [fst snd]. simpl_mount.
  by rewrite Hk.
Qed.

(** X30: the dispatcher's [create], [mknod] and [mkdir] take exactly one
    kernel reference, on the inode of the entry they reply with, when they
    reply with an entry, and leave every reference count as it was when
    they reply with an error: none of the tree operations below them
    touches a reference count. *)
Theorem the_dispatcher_takes_one_reference_per_entry_it_replies
    (parentIno this : Z) (nm : string) (mode : Z) (st st1 : Mount) :
  lookupTreeInode parentIno st = (Ok this, st1) ->
  takesOneReference st1
    (dispatchCreate lookupTreeInode asFuseAttr fileGetattr parentIno nm mode
       st)
  /\ takesOneReference st1
       (dispatchMknod lookupTreeInode asFuseAttr fileGetattr parentIno nm
          mode st)
  /\ takesOneReference st1
       (dispatchMkdir lookupTreeInode asFuseAttr fileGetattr parentIno nm
          mode st).
Proof.
  intros Hl.
  pose proof (create_refcount this nm mode st1) as Hc.
  pose proof (mknod_refcount this nm mode st1) as Hn.
  pose proof (mkdir_refcount this nm mode st1) as Hd.
  unfold wp, keepsRefcount in Hc, Hn, Hd.
  unfold dispatchCreate, dispatchMknod, dispatchMkdir.
  split; [|split]; unfold takesOneReference, bind; rewrite Hl.
  - destruct (create fileGetattr this nm mode st1) as [[c|e|w] stc];
      cbn [fst snd] in *; [|done..].
    unfold incFuseRefcount, modify, ret.
    cbn [fst snd]. simpl_mount. by rewrite Hc.
  - destruct (mknod this nm mode st1) as [[n|e|w] stn];
      cbn [fst snd] in *; [|done..].
    by apply (entry_after n st1 stn).
  - destruct (mkdir this nm mode st1) as [[k|e|w] stk];
      cbn [fst snd] in *; [|done..].
    by apply (entry_after k st1 stk).
Qed.
End Refcount.

(** The dispatcher's [create] of g in sub (3) of the example mount. *)
Lemma the_dispatcher_takes_one_reference_per_entry_it_replies_witness :
  takesOneReference Examples.fileMount
    (dispatchCreate Examples.lookupLoaded Examples.noFuseAttr
       Examples.fileAttrInit 3 "g" 420 Examples.fileMount).
Proof.
  apply (proj1 (the_dispatcher_takes_one_reference_per_entry_it_replies
                  Examples.lookupLoaded Examples.noFuseAttr
                  Examples.fileAttrInit 3 3 "g" 420 Examples.fileMount
                  Examples.fileMount eq_refl)).
Defined.
(** ** Rename *)

Section RenameExtras.
Import PathMapFacts.
Variable lookupInode : Z -> M Z.
Implicit Types (tbl : gmap Z InodeObject).

Lemma getPathFrom_chain tbl tbl' (x : Z) (s : list Z) (b b' : nat)
    (r : option (list string)) :
  chainFrom tbl x s ->
  (forall y, In y s -> locationOf <$> (tbl' !! y) = locationOf <$> (tbl !! y)) ->
  getPathFrom b tbl x = Ok r ->
  (b <= b')%nat ->
  getPathFrom b' tbl' x = Ok r.
Proof.
  intros Hchain. revert b b' r.
  induction Hchain as [x o Ho Hend | x o p s Ho Hp Hu Hc IH];
    intros b b' r Hloc Hget Hle.
  - destruct b as [|b]; [discriminate|]. destruct b' as [|b']; [lia|].
    simpl in *. rewrite Ho in Hget.
    specialize (Hloc x (or_introl eq_refl)). rewrite Ho in Hloc.
    destruct (tbl' !! x) as [o'|]; [|discriminate]. simpl in Hloc.
    injection Hloc as ->.
    destruct (parent (locationOf o)) as [q|]; [|done].
    destruct Hend as [?|Hun]; [discriminate|]. by rewrite Hun in *.
  - destruct b as [|b]; [discriminate|]. destruct b' as [|b']; [lia|].
    simpl in *. rewrite Ho in Hget.
    pose proof (Hloc x (or_introl eq_refl)) as Hx. rewrite Ho in Hx.
    destruct (tbl' !! x) as [o'|]; [|discriminate]. simpl in Hx.
    injection Hx as ->. rewrite Hp, Hu in *.
    destruct (getPathFrom b tbl p) as [[path|]|e|w] eqn:Hpp; try discriminate.
    + rewrite (IH b b' (Some path)); [done| |done|lia].
      intros y Hy. apply Hloc. by right.
    + rewrite (IH b b' None); [done| |done|lia].
      intros y Hy. apply Hloc. by right.
Qed.

Lemma isAncestorFrom_chain tbl (a x : Z) (s : list Z) (b1 b2 : nat)
    (path : list string) :
  chainFrom tbl x s ->
  getPathFrom b1 tbl x = Ok (Some path) ->
  ~ In a s ->
  (length s <= b2)%nat ->
  isAncestorFrom b2 tbl a x = Ok false.
Proof.
  intros Hchain. revert b1 b2 path.
  induction Hchain as [x o Ho Hend | x o p s Ho Hp Hu Hc IH];
    intros b1 b2 path Hget Hin Hlen.
  - destruct b2 as [|b2]; [simpl in Hlen; lia|].
    destruct b1 as [|b1]; [discriminate|]. simpl in *. rewrite Ho in *.
    destruct (parent (locationOf o)) as [q|]; [|done].
    destruct Hend as [?|Hun]; [discriminate|]. by rewrite Hun in Hget.
  - destruct b2 as [|b2]; [simpl in Hlen; lia|].
    destruct b1 as [|b1]; [discriminate|]. simpl in *. rewrite Ho in *.
    rewrite Hp, Hu in *.
    destruct (chainFrom_head _ _ _ Hc) as (s' & ->).
    assert (Hne : p <> a) by (intros ->; apply Hin; right; by left).
    apply Z.eqb_neq in Hne. rewrite Hne.
    destruct (getPathFrom b1 tbl p) as [[path'|]|e|w] eqn:Hpp;
      try discriminate.
    apply (IH b1 b2 path'); [done|tauto|lia].
Qed.

Lemma find_erase_same {V} (n : string) (m : PathMap.t V) :
  List.NoDup (PathMap.keys m) -> PathMap.find n (PathMap.erase n m) = None.
Proof.
  induction m as [|[k w] m IH]; simpl; [done|]. intros Hnd.
  inversion Hnd as [|? ? Hk Hm]; subst.
  destruct (String.eqb k n) eqn:Hkn.
  - apply String.eqb_eq in Hkn as ->. by apply find_None_keys.
  - simpl. rewrite Hkn. by apply IH.
Qed.

Lemma keys_insertSorted {V} (n : string) (v : V) (m : PathMap.t V) :
  Permutation (PathMap.keys (PathMap.insertSorted n v m))
    (n :: PathMap.keys m).
Proof.
  induction m as [|[k w] m IH]; simpl; [done|].
  destruct (String.ltb n k); simpl; [done|].
  rewrite IH. apply perm_swap.
Qed.

Lemma rename_same_directory_ok (budget : nat) (this : Z)
    (nm destName : string) (l : Location) (d : Dir) (e : Entry) (c : Z)
    (oc : InodeObject) (path : list string) (s : list Z) (st : Mount) :
  chainFrom (inodes st) this s ->
  parentsOk (inodes st) ->
  monotone (inodes st) ->
  inodes st !! this = Some (TreeInode l d) ->
  unlinked l = false ->
  PathMap.find nm (entries d) = Some e ->
  Entry.getInode e = Some c ->
  inodes st !! c = Some oc ->
  ~ In c s ->
  PathMap.find destName (entries d) = None ->
  fst (getPath this st) = Ok (Some path) ->
  wp (rename lookupInode (S budget) this nm this destName)
    (renamePost this nm destName l d e c oc path s st) st.
Proof.
  intros Hchain Hok Hmono Hthis Hlinked Hfind Hinode Hc Hnin Hdest Hpath.
  assert (Hin : In this s)
    by (destruct (chainFrom_head _ _ _ Hchain) as [s' ->]; by left).
  assert (Hne : c <> this) by (intros ->; done).
  unfold getPath in Hpath. cbn [fst] in Hpath.
  cbn [rename]. wp_step.
  eapply wp_consequence;
    [apply wp_conj;
     [apply (materialize_effect this true s l d); done
     |apply (materialize_keeps_monotone this true s l d); done]|].
  cbv beta.
  intros o stm (((Honly & Hshape & Haux) & dm & Hdm & Hent & Hmat)
                & -> & _).
  specialize (Hmat eq_refl).
  destruct Haux as (Hcfg & Hnext & Hjournal & _).
  assert (Hcm : inodes stm !! c = Some oc) by (by rewrite (Honly c Hnin)).
  assert (Hgen : forall tbl',
            (forall y, In y s ->
               locationOf <$> (tbl' !! y) = locationOf <$> (inodes st !! y)) ->
            (size (inodes st) <= size tbl')%nat ->
            getPathFrom (S (size tbl')) tbl' this = Ok (Some path)).
  { intros tbl' Hloc Hsz.
    eapply (getPathFrom_chain (inodes st) tbl' this s); [done|done|done|lia]. }
  assert (Hanc : isAncestorFrom (S (size (inodes stm))) (inodes stm) c this
                 = Ok false).
  { eapply (isAncestorFrom_chain (inodes stm) c this s).
    - eapply chainFrom_locations; [|exact Hchain].
      by apply sameShape_locations.
    - apply Hgen; [|by rewrite (sameShape_size _ _ Hshape)].
      intros y _. by apply sameShape_locations.
    - done.
    - rewrite <- (sameShape_size _ _ Hshape).
      etransitivity; [by eapply chainFrom_length|lia]. }
  rewrite Z.eqb_refl. cbn [negb].
  repeat (wp_step; simpl_mount; rewrite ?Hdm, ?Hent, ?Hfind, ?Hdest;
          cbv beta iota).
  assert (Hstart : forall Q,
            wp (doRename this nm e this destName None) Q stm ->
            wp (if Entry.isDirectory e then ret () else ret ())
              (fun o st' =>
                 match o with
                 | Ok _ =>
                     wp (let! destLoc := getLocationInfo this in
                         if unlinked destLoc then throw (InodeError ENOENT)
                         else
                           if negb match Entry.getInode e with
                                   | Some _ => false | None => true end
                              && negb false
                           then doRename this nm e this destName None
                           else
                             if match Entry.getInode e with
                                | Some _ => false | None => true end && false
                             then
                               let! srcFuture :=
                                 attempt (getOrLoadChild lookupInode this nm) in
                               let! destFuture :=
                                 attempt (getOrLoadChild lookupInode this
                                            destName) in
                               await srcFuture ;;;
                               await destFuture ;;;
                               rename lookupInode budget this nm this destName
                             else
                               if match Entry.getInode e with
                                  | Some _ => false | None => true end
                               then
                                 getOrLoadChild lookupInode this nm ;;;
                                 rename lookupInode budget this nm this destName
                               else
                                 getOrLoadChild lookupInode this destName ;;;
                                 rename lookupInode budget this nm this
                                   destName) Q st'
                 | Throw e0 => Q (Throw e0) st'
                 | Stuck w => Q (Stuck w) st'
                 end) stm).
  { intros Q HQ. rewrite Hinode. cbn [negb andb].
    destruct (Entry.isDirectory e).
    all: repeat (wp_step; simpl_mount; rewrite ?Hdm; cbv beta iota).
    all: cbn [locationOf]; rewrite Hlinked; exact HQ. }
  apply Hstart. clear Hstart.
  unfold doRename. rewrite Hinode. cbv zeta.
  assert (Hne2 : this <> c) by congruence.
  apply Z.eqb_neq in Hne.
  wp_step.
  assert (Hinv : forall Q : Outcome bool -> Mount -> Prop,
            Q (Ok false) stm ->
            wp (if Entry.isDirectory e
                then if c =? this then ret true else isAncestor c this
                else ret false) Q stm).
  { intros Q HQ. destruct (Entry.isDirectory e); [|by wp_step].
    rewrite Hne. unfold wp, isAncestor. cbn [fst snd]. by rewrite Hanc. }
  apply Hinv. clear Hinv. unfold updateLocation.
  repeat (wp_step; simpl_mount;
          repeat first [ rewrite lookup_insert_eq
                       | rewrite lookup_insert_ne by done ];
          rewrite ?Hdm, ?Hcm, ?Hent, ?snd_emplace, ?Hdest, ?Z.eqb_refl;
          cbn [negb]; cbv beta iota).
  assert (Hlocs : forall T C T' y, In y s ->
            locationOf <$>
              (<[this := TreeInode l T]>
                 (<[c := relocated oc this C]>
                    (<[this := TreeInode l T']> (inodes stm))) !! y)
            = locationOf <$> (inodes st !! y)).
  { intros T C T' y Hy. destruct (decide (y = this)) as [->|Hy1].
    - by rewrite lookup_insert_eq, Hthis.
    - assert (y <> c) by (intros ->; done).
      rewrite !lookup_insert_ne by done.
      by apply sameShape_locations. }
  assert (Hsize : forall (o1 o2 o3 : InodeObject),
            (size (inodes st)
             <= size (<[this := o1]> (<[c := o2]>
                        (<[this := o3]> (inodes stm)))))%nat).
  { intros o1 o2 o3. rewrite (sameShape_size _ _ Hshape).
    repeat (etransitivity; [|apply size_insert_le]). done. }
  unfold getPath.
  do 2 (try wp_step; unfold wp at 1; cbn [fst snd]; simpl_mount;
        rewrite Hgen; [|apply Hlocs|apply Hsize]; cbv beta iota).
  wp_step. simpl_mount.
  unfold renamePost. simpl_mount.
  split; [done|]. split; [|split; [|split; [|split]]].
  - eexists. rewrite !lookup_insert_eq. split; [done|]. simpl. done.
  - rewrite lookup_insert_ne by done. by rewrite lookup_insert_eq.
  - intros y Hy Hyc. rewrite !lookup_insert_ne by congruence.
    by apply Honly.
  - by rewrite Hjournal.
  - done.
Qed.

(** X21: [rename] within one directory, of a loaded entry to a name that
    is free, in a well-formed mount: it succeeds without a reload; the
    directory is materialized and saved to the overlay; the entry is found
    under the new name exactly as it was (mode, hash, inode number, inode),
    the old name has no entry, the other names are as before; the child is
    told its new name; the journal records the rename of the path; inodes
    outside the parent chain, the child apart, are left as they are. *)
Theorem rename_within_a_directory_moves_the_entry (budget : nat) (this : Z)
    (nm destName : string) (l : Location) (d : Dir) (e : Entry) (c : Z)
    (oc : InodeObject) (path : list string) (s : list Z) (st : Mount) :
  chainFrom (inodes st) this s ->
  parentsOk (inodes st) ->
  monotone (inodes st) ->
  inodes st !! this = Some (TreeInode l d) ->
  unlinked l = false ->
  List.NoDup (PathMap.keys (entries d)) ->
  PathMap.find nm (entries d) = Some e ->
  Entry.getInode e = Some c ->
  inodes st !! c = Some oc ->
  ~ In c s ->
  PathMap.find destName (entries d) = None ->
  fst (getPath this st) = Ok (Some path) ->
  let r := rename lookupInode (S budget) this nm this destName st in
  fst r = Ok tt
  /\ (exists d1,
        inodes (snd r) !! this = Some (TreeInode l d1)
        /\ treeHash d1 = None
        /\ PathMap.find destName (entries d1) = Some e
        /\ PathMap.find nm (entries d1) = None
        /\ (forall k, k <> nm -> k <> destName ->
              PathMap.find k (entries d1) = PathMap.find k (entries d))
        /\ overlay (snd r) !! this = Some (OverlayDir (persist d1)))
  /\ inodes (snd r) !! c = Some (relocated oc this destName)
  /\ (forall y, ~ In y s -> y <> c -> inodes (snd r) !! y = inodes st !! y)
  /\ journal (snd r)
     = journal st ++ [RENAME (path ++ [nm]) (path ++ [destName])]
  /\ nextInodeNumber (snd r) = nextInodeNumber st.
Proof.
  intros Hchain Hok Hmono Hthis Hlinked Hnd Hfind Hinode Hc Hnin Hdest Hpath
    r.
  pose proof (rename_same_directory_ok budget this nm destName l d e c oc
                path s st Hchain Hok Hmono Hthis Hlinked Hfind Hinode Hc
                Hnin Hdest Hpath) as H.
  unfold wp, renamePost in H. fold r in H.
  destruct H as (Hr & (d1 & Hd1 & Hmat & Hent & Hov) & Hc' & Hrest).
  assert (Hne : destName <> nm) by (intros ->; congruence).
  split; [done|]. split; [|by split].
  exists d1. split; [done|]. split; [done|]. rewrite Hent.
  split; [|split; [|split; [|done]]].
  - rewrite find_erase_other by done.
    by rewrite find_emplace_same, Hdest.
  - apply find_erase_same. unfold PathMap.emplace. rewrite Hdest. simpl.
    eapply Permutation_NoDup; [symmetry; apply keys_insertSorted|].
    constructor; [|done]. by apply find_None_keys.
  - intros k Hk1 Hk2. rewrite find_erase_other by done.
    by rewrite find_emplace_other.
Qed.
End RenameExtras.

Section RenameChecks.
Import PathMapFacts.
Variable lookupInode : Z -> M Z.

Ltac rename_steps Hs :=
  repeat (wp_step; simpl_mount; Hs;
          cbn [negb andb locationOf];
          cbv beta iota; Hs).

Ltac rename_run Hs :=
  apply wp_eq; cbn [rename]; unfold materialize;
  match goal with
  | |- context [negb (?a =? ?b)] => destruct (a =? b)
  end; cbn [negb];
  rename_steps Hs.

(** X22: a [rename] between two materialized directories (or within one)
    that fails validation leaves the mount exactly as it was: ENOENT for a
    source name without entry, ENOTDIR for a directory over a file, EISDIR
    for a file over a directory, ENOTEMPTY for a directory over a loaded
    directory that has entries, ENOENT for a destination directory that is
    unlinked, EINVAL for a directory moved into itself. *)
Theorem a_rename_that_fails_validation_changes_nothing (budget : nat)
    (this destParent : Z) (nm destName : string) (l l' : Location)
    (d d' : Dir) (st : Mount) :
  inodes st !! this = Some (TreeInode l d) ->
  treeHash d = None ->
  inodes st !! destParent = Some (TreeInode l' d') ->
  treeHash d' = None ->
  let r := rename lookupInode (S budget) this nm destParent destName st in
  (PathMap.find nm (entries d) = None ->
   r = (Throw (InodeError ENOENT), st))
  /\ (forall e e',
        PathMap.find nm (entries d) = Some e ->
        PathMap.find destName (entries d') = Some e' ->
        Entry.isDirectory e = true -> Entry.isDirectory e' = false ->
        r = (Throw (InodeError ENOTDIR), st))
  /\ (forall e e',
        PathMap.find nm (entries d) = Some e ->
        PathMap.find destName (entries d') = Some e' ->
        Entry.isDirectory e = false -> Entry.isDirectory e' = true ->
        r = (Throw (InodeError EISDIR), st))
  /\ (forall e e' c' lc dc,
        PathMap.find nm (entries d) = Some e ->
        PathMap.find destName (entries d') = Some e' ->
        Entry.isDirectory e = true -> Entry.isDirectory e' = true ->
        Entry.getInode e' = Some c' ->
        Entry.getInode e <> Some c' ->
        inodes st !! c' = Some (TreeInode lc dc) ->
        entries dc <> [] ->
        r = (Throw (InodeError ENOTEMPTY), st))
  /\ (forall e,
        PathMap.find nm (entries d) = Some e ->
        PathMap.find destName (entries d') = None ->
        unlinked l' = true ->
        r = (Throw (InodeError ENOENT), st))
  /\ (forall e,
        PathMap.find nm (entries d) = Some e ->
        PathMap.find destName (entries d') = None ->
        unlinked l' = false ->
        Entry.isDirectory e = true ->
        Entry.getInode e = Some destParent ->
        r = (Throw (InodeError EINVAL), st)).
Proof.
  intros Hthis Hmat Hdest Hmat' r. subst r.
  assert (Hm : Dir.isMaterialized d = true)
    by (unfold Dir.isMaterialized; by rewrite Hmat).
  assert (Hm' : Dir.isMaterialized d' = true)
    by (unfold Dir.isMaterialized; by rewrite Hmat').
  split; [|split; [|split; [|split; [|split]]]].
  - intros Hfind.
    rename_run ltac:(rewrite ?Hthis, ?Hdest, ?Hm, ?Hm', ?Hfind); done.
  - intros e e' Hfind Hfind' He He'.
    rename_run ltac:(rewrite ?Hthis, ?Hdest, ?Hm, ?Hm', ?Hfind, ?Hfind',
                       ?He, ?He'); done.
  - intros e e' Hfind Hfind' He He'.
    rename_run ltac:(rewrite ?Hthis, ?Hdest, ?Hm, ?Hm', ?Hfind, ?Hfind',
                       ?He, ?He'); done.
  - intros e e' c' lc dc Hfind Hfind' He He' Hc' Hne Hc Hdc.
    assert (Hempty : PathMap.empty (entries dc) = false)
      by (unfold PathMap.empty; by destruct (entries dc)).
    assert (Hdec : bool_decide (Entry.getInode e' = Entry.getInode e) = false)
      by (apply bool_decide_eq_false; congruence).
    rename_run ltac:(rewrite ?Hthis, ?Hdest, ?Hm, ?Hm', ?Hfind, ?Hfind',
                       ?He, ?He', ?Hdec, ?Hc', ?Hc, ?Hempty); done.
  - intros e Hfind Hfind' Hu.
    rename_run ltac:(rewrite ?Hthis, ?Hdest, ?Hm, ?Hm', ?Hfind, ?Hfind', ?Hu).
    all: destruct (Entry.isDirectory e).
    all: rename_steps ltac:(rewrite ?Hthis, ?Hdest, ?Hu); done.
  - intros e Hfind Hfind' Hu He Hc.
    rename_run ltac:(rewrite ?Hthis, ?Hdest, ?Hm, ?Hm', ?Hfind, ?Hfind',
                       ?Hu, ?He, ?Hc).
    all: unfold doRename; rewrite Hc, He, Z.eqb_refl.
    all: rename_steps ltac:(idtac); done.
Qed.


(** X24: [rename] of a loaded entry onto a name of the same inode, as in
    a rename of a name to itself, succeeds and changes nothing. *)
Theorem rename_onto_the_same_inode_changes_nothing (budget : nat)
    (this destParent : Z) (nm destName : string) (l l' : Location)
    (d d' : Dir) (e e' : Entry) (c : Z) (st : Mount) :
  inodes st !! this = Some (TreeInode l d) ->
  treeHash d = None ->
  inodes st !! destParent = Some (TreeInode l' d') ->
  treeHash d' = None ->
  unlinked l' = false ->
  PathMap.find nm (entries d) = Some e ->
  PathMap.find destName (entries d') = Some e' ->
  Entry.isDirectory e' = Entry.isDirectory e ->
  Entry.getInode e = Some c ->
  Entry.getInode e' = Some c ->
  rename lookupInode (S budget) this nm destParent destName st
  = (Ok tt, st).
Proof.
  intros Hthis Hmat Hdest Hmat' Hu Hfind Hfind' He Hc Hc'.
  assert (Hm : Dir.isMaterialized d = true)
    by (unfold Dir.isMaterialized; by rewrite Hmat).
  assert (Hm' : Dir.isMaterialized d' = true)
    by (unfold Dir.isMaterialized; by rewrite Hmat').
  assert (Hdec : bool_decide (Entry.getInode e' = Entry.getInode e) = true)
    by (apply bool_decide_eq_true; congruence).
  assert (Hdec2 : bool_decide (Entry.getInode e = Entry.getInode e') = true)
    by (apply bool_decide_eq_true; congruence).
  rename_run ltac:(rewrite ?Hthis, ?Hdest, ?Hm, ?Hm', ?Hfind, ?Hfind',
                     ?He, ?Hdec, ?Hu).
  all: destruct (Entry.isDirectory e); cbn [negb].
  all: unfold doRename; rewrite ?Hdec2.
  all: rename_steps ltac:(rewrite ?Hthis, ?Hdest, ?Hu, ?Hc, ?Hc', ?Hdec).
  all: done.
Qed.
End RenameChecks.

Lemma fileMount_lookup4 :
  inodes Examples.fileMount !! 4 =
    Some (FileInode (Examples.childOf 3 "f") Examples.fileMode644).
Proof. vm_compute; reflexivity. Qed.

(** f is renamed to g in sub (3) of the example mount. *)
Lemma rename_within_a_directory_moves_the_entry_witness :
  fst (rename Examples.lookupLoaded 1 3 "f" 3 "g" Examples.fileMount)
  = Ok tt.
Proof.
  apply (proj1 (rename_within_a_directory_moves_the_entry
                  Examples.lookupLoaded 0 3 "f" "g"
                  (Examples.childOf 1 "sub")
                  (Examples.materializedDir
                     [("f", Examples.loadedEntry Examples.fileMode644 4)])
                  (Examples.loadedEntry Examples.fileMode644 4) 4
                  (FileInode (Examples.childOf 3 "f") Examples.fileMode644)
                  ["sub"] [3; 1] Examples.fileMount
                  fileInodes_chain3 fileInodes_parentsOk fileInodes_monotone
                  fileMount_lookup3 eq_refl
                  ltac:(constructor; [simpl; tauto|constructor])
                  eq_refl eq_refl fileMount_lookup4
                  ltac:(simpl; intros [H|[H|[]]]; discriminate)
                  eq_refl fileMount_path3)).
Defined.

(** A name without entry is renamed in sub. *)
Lemma a_rename_that_fails_validation_changes_nothing_witness :
  rename Examples.lookupLoaded 1 3 "zz" 3 "g" Examples.fileMount
  = (Throw (InodeError ENOENT), Examples.fileMount).
Proof.
  apply (proj1 (a_rename_that_fails_validation_changes_nothing
                  Examples.lookupLoaded 0 3 3 "zz" "g"
                  (Examples.childOf 1 "sub") (Examples.childOf 1 "sub")
                  (Examples.materializedDir
                     [("f", Examples.loadedEntry Examples.fileMode644 4)])
                  (Examples.materializedDir
                     [("f", Examples.loadedEntry Examples.fileMode644 4)])
                  Examples.fileMount
                  fileMount_lookup3 eq_refl fileMount_lookup3 eq_refl)).
  reflexivity.
Defined.



(** f is renamed to f in sub. *)
Lemma rename_onto_the_same_inode_changes_nothing_witness :
  rename Examples.lookupLoaded 1 3 "f" 3 "f" Examples.fileMount
  = (Ok tt, Examples.fileMount).
Proof.
  apply (rename_onto_the_same_inode_changes_nothing
           Examples.lookupLoaded 0 3 3 "f" "f"
           (Examples.childOf 1 "sub") (Examples.childOf 1 "sub")
           (Examples.materializedDir
              [("f", Examples.loadedEntry Examples.fileMode644 4)])
           (Examples.materializedDir
              [("f", Examples.loadedEntry Examples.fileMode644 4)])
           (Examples.loadedEntry Examples.fileMode644 4)
           (Examples.loadedEntry Examples.fileMode644 4) 4
           Examples.fileMount
           fileMount_lookup3 eq_refl fileMount_lookup3 eq_refl
           eq_refl eq_refl eq_refl eq_refl eq_refl eq_refl).
Defined.
(** ** Dematerialization after a checkout *)

Section Walk.
Import PathMapFacts.

Lemma childMaterialized_walk (b : nat) :
  forall (this : Z) (nm : string) (child : Z) (s : list Z) (st : Mount)
         (l : Location) (d : Dir) (e : Entry),
  chainFrom (inodes st) this s ->
  (length s <= b)%nat ->
  parentsOk (inodes st) ->
  inodes st !! this = Some (TreeInode l d) ->
  PathMap.find nm (entries d) = Some e ->
  wp (childMaterialized b this nm child)
    (fun o st' =>
       o = Ok tt
       /\ forall y, ~ In y s -> overlay st' !! y = overlay st !! y) st.
Proof.
  induction b as [|b IH]; intros this nm child s st l d e Hchain Hlen Hok
    Hthis Hfind.
  { destruct (chainFrom_head _ _ _ Hchain) as [s' ->]. simpl in Hlen. lia. }
  destruct (chainFrom_head _ _ _ Hchain) as [s' ->].
  simpl childMaterialized.
  repeat (wp_step; simpl_mount; rewrite ?Hthis, ?Hfind; cbv beta iota).
  destruct (Dir.isMaterialized d && Entry.isMaterialized e) eqn:Hboth.
  - wp_step. simpl_mount. done.
  - clear Hboth.
    set (e' := Entry.setMaterialized child e).
    set (d' := Dir.setMaterialized
                 (Dir.setEntries (PathMap.assign nm e' (entries d)) d)).
    repeat (wp_step; simpl_mount; rewrite ?Hthis, ?lookup_insert_eq;
            cbv beta iota).
    set (st1 := withOverlay _ _).
    assert (Hshape : sameShape (inodes st) (inodes st1)).
    { eapply sameShape_put; [exact Hthis|]. simpl. by rewrite keys_assign. }
    assert (Hlook1 : inodes st1 !! this = Some (TreeInode l d'))
      by (simpl; by rewrite lookup_insert_eq).
    assert (Hov1 : overlay st1 = <[this := OverlayDir (persist d')]> (overlay st))
      by done.
    clearbody st1. simpl locationOf.
    destruct (parent l) as [p|] eqn:Hp;
      [destruct (unlinked l) eqn:Hu; simpl negb; cbv iota|].
    2: {
      destruct (chainFrom_step _ _ _ _ _ Hchain Hthis Hp Hu)
        as (s2 & [= <-] & Hz).
      assert (Hz1 : chainFrom (inodes st1) p s').
      { eapply chainFrom_locations; [|exact Hz].
        by apply sameShape_locations. }
      assert (Hok1 : parentsOk (inodes st1))
        by (by eapply parentsOk_sameShape).
      destruct (Hok1 this _ p Hlook1 Hp Hu) as (lp & dp & ep & Hlp & Hep).
      eapply wp_consequence.
      - apply (IH p (name l) this s' st1 lp dp ep); try done.
        simpl in Hlen. lia.
      - cbv beta. intros o st2 (-> & Hov2).
        split; [done|]. intros y Hy. simpl in Hy.
        rewrite Hov2 by tauto. rewrite Hov1.
        apply lookup_insert_ne. tauto. }
    all: wp_step.
    all: split; [done|].
    all: intros y Hy; rewrite Hov1; apply lookup_insert_ne; simpl in Hy; tauto.
Qed.

Lemma notifyParentMaterialized_walk (x : Z) (s' : list Z) (st : Mount) :
  chainFrom (inodes st) x (x :: s') ->
  parentsOk (inodes st) ->
  wp (notifyParentMaterialized x)
    (fun o st' =>
       o = Ok tt
       /\ chainEffect s' st st'
       /\ forall y, ~ In y s' -> overlay st' !! y = overlay st !! y) st.
Proof.
  intros Hchain Hok.
  cut (wp (notifyParentMaterialized x)
         (fun o st' =>
            o = Ok tt
            /\ forall y, ~ In y s' -> overlay st' !! y = overlay st !! y) st).
  { intros Hs.
    pose proof (notifyParentMaterialized_effect x s' st Hchain) as He.
    unfold wp in *. tauto. }
  unfold notifyParentMaterialized.
  destruct (chainFrom_in_table _ _ _ x Hchain ltac:(by left)) as [o Ho].
  repeat (wp_step; simpl_mount; rewrite ?Ho; cbv beta iota).
  destruct (parent (locationOf o)) as [p|] eqn:Hp; [|by wp_step].
  destruct (unlinked (locationOf o)) eqn:Hu; cbn [negb]; [by wp_step|].
  destruct (chainFrom_step _ _ _ _ _ Hchain Ho Hp Hu) as (s2 & [= <-] & Hz).
  destruct (Hok x o p Ho Hp Hu) as (lp & dp & e & Hlp & He).
  wp_step. wp_step.
  apply (childMaterialized_walk _ p (name (locationOf o)) x s' st lp dp e);
    try done.
  etransitivity; [by eapply chainFrom_length|lia].
Qed.

(** X29: [saveOverlayPostCheckout], not a dry run, of a materialized
    directory that is linked below a parent which records it as
    materialized, and whose entries [tryToDematerialize] finds identical
    to the tree: it succeeds; the directory gets the hash of the tree; its
    parent records it under its name with that hash, is itself
    materialized and saved to the overlay; the directory's own overlay
    data are removed; apart from the directory, only inodes of the
    parent's chain change; the journal is untouched. *)
Theorem saveOverlayPostCheckout_dematerializes (ctx : CheckoutMode)
    (this p : Z) (s : list Z) (t : Tree) (l lp : Location) (d dp : Dir)
    (e : Entry) (st : Mount) :
  isDryRun ctx = false ->
  chainFrom (inodes st) this (this :: s) ->
  parentsOk (inodes st) ->
  inodes st !! this = Some (TreeInode l d) ->
  parent l = Some p ->
  unlinked l = false ->
  treeHash d = None ->
  tryToDematerialize d (Some t) = Some (tree_hash t) ->
  inodes st !! p = Some (TreeInode lp dp) ->
  PathMap.find (name l) (entries dp) = Some e ->
  Entry.isMaterialized e = true ->
  let r := saveOverlayPostCheckout ctx this (Some t) st in
  let dp' :=
    Dir.setMaterialized
      (Dir.setEntries
         (PathMap.assign (name l)
            (Entry.setDematerialized (tree_hash t) e) (entries dp)) dp) in
  fst r = Ok tt
  /\ inodes (snd r) !! this =
       Some (TreeInode l (Dir.setTreeHash (Some (tree_hash t)) d))
  /\ overlay (snd r) !! this = None
  /\ inodes (snd r) !! p = Some (TreeInode lp dp')
  /\ overlay (snd r) !! p = Some (OverlayDir (persist dp'))
  /\ (forall y, ~ In y s -> y <> this ->
        inodes (snd r) !! y = inodes st !! y)
  /\ journal (snd r) = journal st.
Proof.
  intros Hdry Hchain Hok Hthis Hp Hu Hmat Hdemat Hpp Hfind He r dp'.
  change (wp (saveOverlayPostCheckout ctx this (Some t))
            (fun o st' =>
               o = Ok tt
               /\ inodes st' !! this =
                    Some (TreeInode l
                            (Dir.setTreeHash (Some (tree_hash t)) d))
               /\ overlay st' !! this = None
               /\ inodes st' !! p = Some (TreeInode lp dp')
               /\ overlay st' !! p = Some (OverlayDir (persist dp'))
               /\ (forall y, ~ In y s -> y <> this ->
                     inodes st' !! y = inodes st !! y)
               /\ journal st' = journal st) st).
  destruct (chainFrom_step _ _ _ _ _ Hchain Hthis Hp Hu)
    as (s2 & [= <-] & Hz).
  pose proof (chainFrom_NoDup _ _ _ Hchain) as Hnd.
  apply List.NoDup_cons_iff in Hnd as [Hnotin Hnd].
  destruct (chainFrom_head _ _ _ Hz) as [s' ->].
  apply List.NoDup_cons_iff in Hnd as [Hpnotin Hnd'].
  assert (Hne : this <> p) by (intros ->; apply Hnotin; by left).
  unfold saveOverlayPostCheckout. rewrite Hdry.
  unfold childDematerialized.
  repeat (wp_step; simpl_mount;
          repeat first [ rewrite lookup_insert_eq
                       | rewrite lookup_insert_ne by done ];
          rewrite ?Hthis, ?Hdemat, ?Hpp, ?Hfind, ?Hmat, ?Hp, ?Hu, ?He;
          cbn [negb andb Dir.isMaterialized Dir.setTreeHash treeHash];
          cbv beta iota).
  rewrite bool_decide_eq_false_2 by done. cbn [negb].
  assert (Hh : bool_decide (hash_ e = Some (tree_hash t)) = false).
  { apply bool_decide_eq_false_2. unfold Entry.isMaterialized in He.
    by destruct (hash_ e). }
  repeat (wp_step; simpl_mount;
          repeat first [ rewrite lookup_insert_eq
                       | rewrite lookup_insert_ne by done ];
          rewrite ?Hthis, ?Hpp, ?Hfind, ?Hp, ?Hu, ?He, ?Hh;
          cbn [negb andb]; cbv beta iota).
  fold dp'.
  set (st2 := withOverlay _ _).
  assert (Hshape : sameShape (inodes st) (inodes st2)).
  { eapply (sameShape_trans _
              (<[this := TreeInode l (Dir.setTreeHash (Some (tree_hash t)) d)]>
                 (inodes st))).
    - eapply sameShape_put; [exact Hthis|]. done.
    - eapply sameShape_put.
      + rewrite lookup_insert_ne by done. exact Hpp.
      + simpl. by rewrite keys_assign. }
  assert (Hthis2 : inodes st2 !! this =
            Some (TreeInode l (Dir.setTreeHash (Some (tree_hash t)) d))).
  { simpl. rewrite lookup_insert_ne by done. by rewrite lookup_insert_eq. }
  assert (Hp2 : inodes st2 !! p = Some (TreeInode lp dp'))
    by (simpl; by rewrite lookup_insert_eq).
  assert (Hov2 : overlay st2 !! p = Some (OverlayDir (persist dp')))
    by (simpl; by rewrite lookup_insert_eq).
  assert (Hj2 : journal st2 = journal st) by done.
  assert (Hother : forall y, y <> p -> y <> this ->
            inodes st2 !! y = inodes st !! y).
  { intros y H1 H2. simpl. by rewrite !lookup_insert_ne. }
  clearbody st2.
  eapply wp_consequence.
  - apply (notifyParentMaterialized_walk p s' st2).
    + eapply chainFrom_locations; [|exact Hz]. by apply sameShape_locations.
    + by eapply parentsOk_sameShape.
  - cbv beta. intros o st3 (-> & (Honly & _ & Haux) & Hov).
    destruct Haux as (_ & _ & Hj3 & _).
    assert (Hthis' : ~ In this s') by (intros ?; apply Hnotin; by right).
    wp_step. simpl_mount.
    split; [done|]. split; [by rewrite (Honly this Hthis')|].
    split; [by rewrite lookup_delete_eq|].
    split; [by rewrite (Honly p Hpnotin)|].
    split; [rewrite lookup_delete_ne by done; by rewrite (Hov p Hpnotin)|].
    split; [|by rewrite Hj3].
    intros y Hy Hyt. rewrite Honly by (intros ?; apply Hy; by right).
    apply Hother; [|done]. intros ->. apply Hy. by left.
Qed.
End Walk.

Lemma revertedInodes_parentsOk : parentsOk (inodes revertedMount).
Proof.
  intros x o p Ho Hp Hu. simpl in Ho. unfold revertedInodes in Ho.
  by_table Ho.
  all: injection Ho as <-; simpl in Hp; try discriminate.
  all: injection Hp as <-; eexists _, _, _.
  all: split; [vm_compute; reflexivity|reflexivity].
Qed.

Lemma revertedInodes_chain : chainFrom (inodes revertedMount) 2 [2; 1].
Proof.
  eapply chain_up; [vm_compute; reflexivity|reflexivity|reflexivity|].
  eapply chain_top; [vm_compute; reflexivity|]. by left.
Qed.

(** The checkout of [Examples.tree_a] ends in sub (2). *)
Lemma saveOverlayPostCheckout_dematerializes_witness :
  overlay (snd (saveOverlayPostCheckout NORMAL 2 (Some Examples.tree_a)
                  revertedMount)) !! 2 = None.
Proof.
  apply (proj1 (proj2 (proj2
           (saveOverlayPostCheckout_dematerializes NORMAL 2 1 [1]
              Examples.tree_a (Examples.childOf 1 "sub")
              Examples.rootLocation
              (Examples.materializedDir
                 [("a", EntryOfHash Examples.fileMode644 11)])
              (Examples.materializedDir
                 [("sub", Examples.loadedEntry Examples.dirMode 2)])
              (Examples.loadedEntry Examples.dirMode 2) revertedMount
              eq_refl revertedInodes_chain revertedInodes_parentsOk
              ltac:(vm_compute; reflexivity) eq_refl eq_refl eq_refl
              ltac:(vm_compute; reflexivity)
              ltac:(vm_compute; reflexivity) eq_refl eq_refl)))).
Defined.
(** ** The overlay is written before the parent is told *)

Section Avoids.
Import PathMapFacts.
Implicit Types (tbl : gmap Z InodeObject) (ov : gmap Z OverlayData).
Variable x : InodeNumber.






Lemma avoids_setDematerialized h e :
  avoids x (Entry.setDematerialized h e) = true.
Proof. done. Qed.




End Avoids.

Section NotListedWalk.
Import PathMapFacts.
Implicit Types (tbl : gmap Z InodeObject) (ov : gmap Z OverlayData).
Variable x : InodeNumber.


End NotListedWalk.

Section Dematerialized.
Import PathMapFacts.
Implicit Types (tbl : gmap Z InodeObject) (ov : gmap Z OverlayData).



Variable x : InodeNumber.





End Dematerialized.

Section PostCheckoutCrash.
Import PathMapFacts.
Implicit Types (tbl : gmap Z InodeObject) (ov : gmap Z OverlayData).






End PostCheckoutCrash.

Section Order.



















End Order.

Section PersistedBeforeTold.

End PersistedBeforeTold.




(** ** [mknod] and [symlink] *)

Section NewFile.
Import PathMapFacts.

Ltac new_file_post Hdm Hnm Hjournal :=
  unfold newFilePost; cbv zeta; simpl_mount;
  split; [done|]; split; [done|];
  split; [rewrite lookup_insert_ne by done; by rewrite lookup_insert_eq|];
  split; [rewrite lookup_insert_ne by done; by rewrite lookup_insert_eq|];
  split; [|split; [by rewrite Hjournal|done]];
  eexists; split; [by rewrite lookup_insert_eq|];
  split; [done|];
  split; [simpl; by rewrite find_emplace_same, Hnm|];
  split; [intros nm' Hne; simpl; by rewrite find_emplace_other|];
  split; [simpl; by apply erase_emplace|by rewrite lookup_insert_eq].

Lemma mknod_ok (this : Z) (nm : string) (mode : Z) (s : list Z)
    (l : Location) (d : Dir) (path : list string) (st : Mount) :
  S_ISSOCK mode = true ->
  chainFrom (inodes st) this s ->
  parentsOk (inodes st) ->
  monotone (inodes st) ->
  inodes st !! this = Some (TreeInode l d) ->
  inodes st !! nextInodeNumber st = None ->
  PathMap.find nm (entries d) = None ->
  fst (getPath this st) = Ok (Some path) ->
  wp (mknod this nm mode) (newFilePost this nm mode "" l d path st) st.
Proof.
  intros Hsock Hchain Hok Hmono Hthis Hfresh Hfind Hpath. unfold mknod.
  rewrite Hsock. cbn [negb].
  apply (wp_prelude _ _ this s l d (Some path) st); try done.
  intros stm dm (Honly & Hshape & Haux) Hper Hdm Hent Hmat Hpm.
  destruct Haux as (Hcfg & Hnext & Hjournal & _).
  assert (Hn : nextInodeNumber st <> this) by (intros E; congruence).
  assert (Hn2 : this <> nextInodeNumber st) by congruence.
  rewrite Hent, Hfind.
  unfold invalidateFuseCacheIfRequired.
  repeat (wp_step; simpl_mount;
          repeat first [ rewrite lookup_insert_eq
                       | rewrite lookup_insert_ne by done ];
          rewrite ?Hnext, ?Hdm; cbn [negb]; cbv beta iota).
  destruct (isFuseRequest (config stm)).
  all: repeat (wp_step; simpl_mount; cbv beta iota).
  all: try destruct (hasFuseChannel (config stm)); simpl_mount.
  all: new_file_post Hdm Hfind Hjournal.
Qed.

Variable writeNoInt : Z -> string -> Z.
Variable errno : Z.

Lemma symlink_ok (this : Z) (nm target : string) (s : list Z)
    (l : Location) (d : Dir) (path : list string) (st : Mount) :
  writeNoInt (nextInodeNumber st) target = Z.of_nat (String.length target) ->
  chainFrom (inodes st) this s ->
  parentsOk (inodes st) ->
  monotone (inodes st) ->
  inodes st !! this = Some (TreeInode l d) ->
  inodes st !! nextInodeNumber st = None ->
  PathMap.find nm (entries d) = None ->
  fst (getPath this st) = Ok (Some path) ->
  wp (symlink writeNoInt errno this nm target)
    (newFilePost this nm (Z.lor S_IFLNK 504) target l d path st) st.
Proof.
  intros Hw Hchain Hok Hmono Hthis Hfresh Hfind Hpath. unfold symlink.
  apply (wp_prelude _ _ this s l d (Some path) st); try done.
  intros stm dm (Honly & Hshape & Haux) Hper Hdm Hent Hmat Hpm.
  destruct Haux as (Hcfg & Hnext & Hjournal & _).
  assert (Hn : nextInodeNumber st <> this) by (intros E; congruence).
  assert (Hn2 : this <> nextInodeNumber st) by congruence.
  assert (Hw1 : (Z.of_nat (String.length target) =? -1) = false)
    by (apply Z.eqb_neq; lia).
  rewrite Hent, Hfind.
  unfold invalidateFuseCacheIfRequired, writeOverlayFile.
  repeat (wp_step; simpl_mount;
          repeat first [ rewrite lookup_insert_eq
                       | rewrite lookup_insert_ne by done ];
          rewrite ?Hnext, ?Hdm, ?Hw, ?Hw1, ?Z.eqb_refl;
          cbn [negb]; cbv beta iota).
  destruct (isFuseRequest (config stm)).
  all: repeat (wp_step; simpl_mount; cbv beta iota).
  all: try destruct (hasFuseChannel (config stm)); simpl_mount.
  all: new_file_post Hdm Hfind Hjournal.
Qed.

Lemma symlink_failed_write (this : Z) (nm target : string) (s : list Z)
    (l : Location) (d : Dir) (path : list string) (st : Mount) :
  writeNoInt (nextInodeNumber st) target <> Z.of_nat (String.length target) ->
  chainFrom (inodes st) this s ->
  parentsOk (inodes st) ->
  monotone (inodes st) ->
  inodes st !! this = Some (TreeInode l d) ->
  inodes st !! nextInodeNumber st = None ->
  PathMap.find nm (entries d) = None ->
  fst (getPath this st) = Ok (Some path) ->
  wp (symlink writeNoInt errno this nm target)
    (fun o st' =>
       o = Throw (system_error system_category errno)
       /\ nextInodeNumber st' = nextInodeNumber st + 1
       /\ inodes st' !! nextInodeNumber st = None
       /\ overlay st' !! nextInodeNumber st = None
       /\ (exists d', inodes st' !! this = Some (TreeInode l d')
                      /\ entries d' = entries d)
       /\ journal st' = journal st) st.
Proof.
  intros Hw Hchain Hok Hmono Hthis Hfresh Hfind Hpath. unfold symlink.
  apply (wp_prelude _ _ this s l d (Some path) st); try done.
  intros stm dm (Honly & Hshape & Haux) Hper Hdm Hent Hmat Hpm.
  destruct Haux as (Hcfg & Hnext & Hjournal & _).
  assert (Hnm : inodes stm !! nextInodeNumber st = None).
  { specialize (Hshape (nextInodeNumber st)). rewrite Hfresh in Hshape.
    simpl in Hshape. by destruct (inodes stm !! nextInodeNumber st). }
  apply Z.eqb_neq in Hw.
  rewrite Hent, Hfind.
  unfold unlinkOverlayFile, throwSystemError.
  repeat (wp_step; simpl_mount; rewrite ?Hnext, ?Hw; cbn [negb];
          cbv beta iota).
  destruct (_ =? -1).
  all: repeat (wp_step; simpl_mount; cbv beta iota).
  all: rewrite lookup_delete_eq.
  all: repeat split; try done; by exists dm.
Qed.
(** X25: [mknod] makes sockets only.  For a mode that is no socket it
    fails with EPERM and leaves the mount exactly as it was.  For a socket
    mode and a name without entry, in a linked directory of a well-formed
    mount, it succeeds and returns the next free inode number; the new
    inode is a file with exactly the mode given, linked below the directory
    under that name, with an empty overlay file; the directory is
    materialized, lists the name as a loaded, materialized entry of that
    mode, keeps its other names and is saved to the overlay; the journal
    records the creation of the path. *)
Theorem mknod_makes_sockets_only (this : Z) (nm : string) (mode : Z)
    (s : list Z) (l : Location) (d : Dir) (path : list string) (st : Mount) :
  chainFrom (inodes st) this s ->
  parentsOk (inodes st) ->
  monotone (inodes st) ->
  inodes st !! this = Some (TreeInode l d) ->
  inodes st !! nextInodeNumber st = None ->
  PathMap.find nm (entries d) = None ->
  fst (getPath this st) = Ok (Some path) ->
  let r := mknod this nm mode st in
  let n := nextInodeNumber st in
  (S_ISSOCK mode = false -> r = (Throw (InodeError EPERM), st))
  /\ (S_ISSOCK mode = true ->
      fst r = Ok n
      /\ nextInodeNumber (snd r) = n + 1
      /\ inodes (snd r) !! n =
           Some (FileInode {| parent := Some this; name := nm;
                              unlinked := false |} mode)
      /\ overlay (snd r) !! n = Some (OverlayFile "")
      /\ (exists d1,
            inodes (snd r) !! this = Some (TreeInode l d1)
            /\ treeHash d1 = None
            /\ PathMap.find nm (entries d1) =
                 Some (Entry.setInode n (EntryOfNumber mode n))
            /\ (forall nm', nm' <> nm ->
                  PathMap.find nm' (entries d1) = PathMap.find nm' (entries d))
            /\ PathMap.erase nm (entries d1) = entries d
            /\ overlay (snd r) !! this = Some (OverlayDir (persist d1)))
      /\ journal (snd r) = journal st ++ [CREATED (path ++ [nm])]
      /\ config (snd r) = config st).
Proof.
  intros Hchain Hok Hmono Hthis Hfresh Hfind Hpath r n. split.
  - intros Hs. unfold r, mknod. by rewrite Hs.
  - intros Hs.
    exact (mknod_ok this nm mode s l d path st Hs Hchain Hok Hmono Hthis
             Hfresh Hfind Hpath).
Qed.

(** X26: [symlink] of a name without entry, in a linked directory of a
    well-formed mount, when the whole target is written: it succeeds and
    returns the next free inode number; the new inode is a file of mode
    [S_IFLNK | 0770] linked below the directory under that name, and its
    overlay file holds the target; the directory is materialized, lists
    the name as a loaded, materialized entry of that mode, keeps its other
    names and is saved to the overlay; the journal records the creation of
    the path. *)
Theorem symlink_creates_a_link_to_the_target (this : Z) (nm target : string)
    (s : list Z) (l : Location) (d : Dir) (path : list string) (st : Mount) :
  writeNoInt (nextInodeNumber st) target = Z.of_nat (String.length target) ->
  chainFrom (inodes st) this s ->
  parentsOk (inodes st) ->
  monotone (inodes st) ->
  inodes st !! this = Some (TreeInode l d) ->
  inodes st !! nextInodeNumber st = None ->
  PathMap.find nm (entries d) = None ->
  fst (getPath this st) = Ok (Some path) ->
  let r := symlink writeNoInt errno this nm target st in
  let n := nextInodeNumber st in
  fst r = Ok n
  /\ nextInodeNumber (snd r) = n + 1
  /\ inodes (snd r) !! n =
       Some (FileInode {| parent := Some this; name := nm;
                          unlinked := false |} (Z.lor S_IFLNK 504))
  /\ overlay (snd r) !! n = Some (OverlayFile target)
  /\ (exists d1,
        inodes (snd r) !! this = Some (TreeInode l d1)
        /\ treeHash d1 = None
        /\ PathMap.find nm (entries d1) =
             Some (Entry.setInode n (EntryOfNumber (Z.lor S_IFLNK 504) n))
        /\ (forall nm', nm' <> nm ->
              PathMap.find nm' (entries d1) = PathMap.find nm' (entries d))
        /\ PathMap.erase nm (entries d1) = entries d
        /\ overlay (snd r) !! this = Some (OverlayDir (persist d1)))
  /\ journal (snd r) = journal st ++ [CREATED (path ++ [nm])]
  /\ config (snd r) = config st.
Proof.
  intros Hw Hchain Hok Hmono Hthis Hfresh Hfind Hpath.
  exact (symlink_ok this nm target s l d path st Hw Hchain Hok Hmono Hthis
           Hfresh Hfind Hpath).
Qed.

(** X27: [symlink] when the write of the target fails or is short: it
    fails with the system error of [errno]; the inode number is used up,
    but no inode is registered under it and its overlay file is removed
    again; the directory keeps its entries and nothing is added to the
    journal (the directory has been materialized by then). *)
Theorem symlink_whose_write_fails_leaves_no_file (this : Z)
    (nm target : string) (s : list Z) (l : Location) (d : Dir)
    (path : list string) (st : Mount) :
  writeNoInt (nextInodeNumber st) target <> Z.of_nat (String.length target) ->
  chainFrom (inodes st) this s ->
  parentsOk (inodes st) ->
  monotone (inodes st) ->
  inodes st !! this = Some (TreeInode l d) ->
  inodes st !! nextInodeNumber st = None ->
  PathMap.find nm (entries d) = None ->
  fst (getPath this st) = Ok (Some path) ->
  let r := symlink writeNoInt errno this nm target st in
  let n := nextInodeNumber st in
  fst r = Throw (system_error system_category errno)
  /\ nextInodeNumber (snd r) = n + 1
  /\ inodes (snd r) !! n = None
  /\ overlay (snd r) !! n = None
  /\ (exists d', inodes (snd r) !! this = Some (TreeInode l d')
                 /\ entries d' = entries d)
  /\ journal (snd r) = journal st.
Proof.
  intros Hw Hchain Hok Hmono Hthis Hfresh Hfind Hpath.
  exact (symlink_failed_write this nm target s l d path st Hw Hchain Hok
           Hmono Hthis Hfresh Hfind Hpath).
Qed.
End NewFile.

(** [mknod] of the socket s in sub (3) of the example mount. *)
Lemma mknod_makes_sockets_only_witness :
  fst (mknod 3 "s" (Z.lor S_IFSOCK 420) Examples.fileMount) = Ok 5.
Proof.
  apply (proj1 (proj2 (mknod_makes_sockets_only 3 "s" (Z.lor S_IFSOCK 420)
                  [3; 1] (Examples.childOf 1 "sub")
                  (Examples.materializedDir
                     [("f", Examples.loadedEntry Examples.fileMode644 4)])
                  ["sub"] Examples.fileMount
                  fileInodes_chain3 fileInodes_parentsOk fileInodes_monotone
                  fileMount_lookup3 fileMount_fresh eq_refl
                  fileMount_path3) eq_refl)).
Defined.

(** [symlink] of ln in sub, the target written in full. *)
Lemma symlink_creates_a_link_to_the_target_witness :
  fst (symlink (fun _ t => Z.of_nat (String.length t)) 5 3 "ln" "f"
         Examples.fileMount) = Ok 5.
Proof.
  apply (proj1 (symlink_creates_a_link_to_the_target
                  (fun _ t => Z.of_nat (String.length t)) 5 3 "ln" "f"
                  [3; 1] (Examples.childOf 1 "sub")
                  (Examples.materializedDir
                     [("f", Examples.loadedEntry Examples.fileMode644 4)])
                  ["sub"] Examples.fileMount eq_refl
                  fileInodes_chain3 fileInodes_parentsOk fileInodes_monotone
                  fileMount_lookup3 fileMount_fresh eq_refl
                  fileMount_path3)).
Defined.

(** [symlink] of ln in sub, the write failing. *)
Lemma symlink_whose_write_fails_leaves_no_file_witness :
  fst (symlink (fun _ _ => -1) 5 3 "ln" "f" Examples.fileMount)
  = Throw (system_error system_category 5).
Proof.
  apply (proj1 (symlink_whose_write_fails_leaves_no_file
                  (fun _ _ => -1) 5 3 "ln" "f"
                  [3; 1] (Examples.childOf 1 "sub")
                  (Examples.materializedDir
                     [("f", Examples.loadedEntry Examples.fileMode644 4)])
                  ["sub"] Examples.fileMount ltac:(discriminate)
                  fileInodes_chain3 fileInodes_parentsOk fileInodes_monotone
                  fileMount_lookup3 fileMount_fresh eq_refl
                  fileMount_path3)).
Defined.

